(** * Grabber: the bookmark pipeline, its ledger and its notifier

    A shallow embedding of the TypeScript sources of the grabber
    (DbService, TelegramService, AgentService and the Grabber
    orchestrator of [src/index.ts]) together with the properties the
    specification states about them.

    Conventions.
    - A JavaScript string is a [string]; one [ascii] stands for one code
      unit, so [String.length] is [.length], and SQLite's TEXT comparison
      is [String.leb].
    - What a method reads from the clock ([new Date().toISOString()]) is
      an explicit argument.
    - Calls that leave the process (the model provider, Notion, Telegram,
      the bird CLI) are answered by an explicit outcome given as
      argument: the value returned or the value thrown. *)

From Stdlib Require Import String Ascii List ZArith Lia Bool.
From Stdlib Require Import Floats.PrimFloat.
From stdpp Require Import gmap strings list fin_maps sorting.

Open Scope string_scope.
Open Scope list_scope.

(* ================================================================== *)
(** * Shared types ([src/types/index.ts]) *)
(* ================================================================== *)

(** [Category]: the labels of [AnalysisSchema.category] (agent.service.ts),
    which are also the select options of the Notion database. *)
Inductive Category : Set :=
  | review | try_ | knowledge | podcast | video | article | tool | project | fun_.

Definition Category_text (c : Category) : string :=
  match c with
  | review => "review" | try_ => "try" | knowledge => "knowledge"
  | podcast => "podcast" | video => "video" | article => "article"
  | tool => "tool" | project => "project" | fun_ => "fun"
  end.

#[global] Instance Category_eq_dec : EqDecision Category.
Proof. solve_decision. Defined.

(** Modelled from the spec: the declaration of [ProcessingStatus], which
    db.service.ts imports from the types module, is not part of the
    sources at hand.  Its values are the three literals the code writes
    and tests ('processing', 'completed', 'failed'), the lifecycle states
    of the specification. *)
Inductive ProcessingStatus : Set := processing | completed | failed.

Definition ProcessingStatus_text (s : ProcessingStatus) : string :=
  match s with
  | processing => "processing" | completed => "completed" | failed => "failed"
  end.

#[global] Instance ProcessingStatus_eq_dec : EqDecision ProcessingStatus.
Proof. solve_decision. Defined.

(** [GrabberError]: message, code, retryable. *)
Inductive ErrorCode : Set :=
  | AUTH_EXPIRED | RATE_LIMIT | NETWORK | PARSE | NOTION | TELEGRAM | UNKNOWN.

#[global] Instance ErrorCode_eq_dec : EqDecision ErrorCode.
Proof. solve_decision. Defined.

Record GrabberError : Set := mkGrabberError {
  message : string;
  code : ErrorCode;
  retryable : bool
}.

(* ================================================================== *)
(** * DbService: the ledger *)
(* ================================================================== *)

Module Db.

(** One row of table [bookmarks] without its key.  [tweet_id] is
    [UNIQUE NOT NULL] and every statement of the service addresses a row
    by it, so the table is a finite map from [tweet_id] to the other
    columns.  The surrogate [id] column is never read.  [status] is read
    as [string | null]. *)
Record Row : Set := mkRow {
  processed_at : string;
  category : Category;
  notion_page_id : option string;
  raw_data : string;
  status : option ProcessingStatus
}.

Abbreviation Ledger := (gmap string Row).

(** [BookmarkRecord] without [id], the argument of [markProcessed]. *)
Record BookmarkRecord : Set := mkRecord {
  tweetId : string;
  processedAt : string;
  rec_category : Category;
  notionPageId : option string;
  rawData : string;
  rec_status : option ProcessingStatus
}.

(** [row.status === lit] *)
Definition status_is (st : option ProcessingStatus) (lit : ProcessingStatus) : bool :=
  match st with
  | Some s => bool_decide (s = lit)
  | None => false
  end.

(** [row.status === null] *)
Definition status_null (st : option ProcessingStatus) : bool :=
  match st with
  | Some _ => false
  | None => true
  end.

Definition isProcessed (tweetId : string) (db : Ledger) : bool :=
  match db !! tweetId with
  | None => false
  | Some row => status_is (status row) completed || status_null (status row)
  end.

Definition isLocked (tweetId : string) (db : Ledger) : bool :=
  match db !! tweetId with
  | None => false
  | Some row => status_is (status row) processing
  end.

(** The row [tryLock] writes. *)
Definition placeholder (now : string) : Row :=
  {| processed_at := now; category := review; notion_page_id := None;
     raw_data := "{}"; status := Some processing |}.

(** [tryLock]: [now] is what [new Date().toISOString()] returns.
    [INSERT OR REPLACE] on the unique key is the map's insert. *)
Definition tryLock (now : string) (tweetId : string) (db : Ledger) : bool * Ledger :=
  let blocked :=
    match db !! tweetId with
    | Some existing =>
        let st := status existing in
        status_is st completed || status_is st processing || status_null st
    | None => false
    end in
  if blocked then (false, db)
  else (true, <[tweetId := placeholder now]> db).

Definition set_status (st : ProcessingStatus) (r : Row) : Row :=
  {| processed_at := processed_at r; category := category r;
     notion_page_id := notion_page_id r; raw_data := raw_data r;
     status := Some st |}.

(** [UPDATE bookmarks SET status = ? WHERE tweet_id = ?]; a caller that
    gives no status passes 'failed'. *)
Definition releaseLock (tweetId : string) (st : ProcessingStatus) (db : Ledger) : Ledger :=
  alter (set_status st) tweetId db.

(** [record.status ?? 'completed'] *)
Definition markProcessed (record : BookmarkRecord) (db : Ledger) : Ledger :=
  <[tweetId record :=
      {| processed_at := processedAt record; category := rec_category record;
         notion_page_id := notionPageId record; raw_data := rawData record;
         status := Some (default completed (rec_status record)) |}]> db.

(** The lifecycle state of an identifier, [None] when it has no row. *)
Definition status_of (tweetId : string) (db : Ledger) : option (option ProcessingStatus) :=
  status <$> db !! tweetId.

End Db.

(* ================================================================== *)
(** * JavaScript values, as far as [getWeeklyStats] inspects them *)
(* ================================================================== *)

Module Js.

(** What [JSON.parse] yields, and [undefined] for a missing property. *)
#[warnings="-register-all"]
Inductive Value : Type :=
  | Undefined
  | Null
  | Bool (b : bool)
  | Num (x : float)
  | Str (s : string)
  | Arr (items : list Value)
  | Obj (fields : list (string * Value)).

(** The parts of the runtime the embedding does not spell out.
    - [JSON_parse]: [None] is a thrown [SyntaxError].
    - [StringToNumber]: the numeric value of a string operand of [>=].
    - [ObjectToPrimitive]: [ToPrimitive] of an array or object operand;
      [None] is a thrown [TypeError].
    - [Date_getDate], [Date_setDate], [Date_toISOString] act on the time
      value of a [Date]; the first two depend on the local time zone. *)
Record Runtime : Type := mkRuntime {
  JSON_parse : string -> option Value;
  StringToNumber : string -> float;
  ObjectToPrimitive : Value -> option Value;
  Date_getDate : Z -> Z;
  Date_setDate : Z -> Z -> Z;
  Date_toISOString : Z -> string
}.

(** [ToBoolean] *)
Definition truthy (v : Value) : bool :=
  match v with
  | Undefined | Null => false
  | Bool b => b
  | Num x => negb (PrimFloat.is_nan x || PrimFloat.eqb x 0%float)
  | Str s => negb (String.eqb s "")
  | Arr _ | Obj _ => true
  end.

Fixpoint own_property (fields : list (string * Value)) (key : string) : Value :=
  match fields with
  | [] => Undefined
  | (k, v) :: rest => if String.eqb k key then v else own_property rest key
  end.

(** [v[key]] for a key that no prototype defines ("analysis", "tags",
    "relevanceScore", "summary"): only an object from [JSON.parse] can
    hold it.  Not defined on [undefined] and [null]. *)
Definition property (v : Value) (key : string) : Value :=
  match v with
  | Obj fields => own_property fields key
  | _ => Undefined
  end.

(** [v.key]: [None] is the [TypeError] on [undefined] and [null]. *)
Definition get (v : Value) (key : string) : option Value :=
  match v with
  | Undefined | Null => None
  | _ => Some (property v key)
  end.

(** [v?.key] *)
Definition get_opt (v : Value) (key : string) : Value :=
  match v with
  | Undefined | Null => Undefined
  | _ => property v key
  end.

(** [for (const x of v)]: the elements of an array, the characters of a
    string (the alphabet of [string] has no surrogate pairs); anything
    else is not iterable ([None], a [TypeError]). *)
Definition iterate (v : Value) : option (list Value) :=
  match v with
  | Arr items => Some items
  | Str s => Some (map (fun c => Str (String c "")) (list_ascii_of_string s))
  | _ => None
  end.

(** The key equality of [Map] (SameValueZero).  Arrays and objects are
    compared by reference, and two values out of [JSON.parse] are never
    the same reference. *)
Definition sameValueZero (a b : Value) : bool :=
  match a, b with
  | Undefined, Undefined => true
  | Null, Null => true
  | Bool x, Bool y => Bool.eqb x y
  | Num x, Num y => (PrimFloat.is_nan x && PrimFloat.is_nan y) || PrimFloat.eqb x y
  | Str x, Str y => String.eqb x y
  | _, _ => false
  end.

(** [ToNumber] of a primitive. *)
Definition ToNumber (rt : Runtime) (v : Value) : float :=
  match v with
  | Undefined => PrimFloat.nan
  | Null => 0%float
  | Bool b => if b then 1%float else 0%float
  | Num x => x
  | Str s => StringToNumber rt s
  | Arr _ | Obj _ => PrimFloat.nan
  end.

(** [v >= n] for a number [n]: [None] when [ToPrimitive] throws. *)
Definition ge (rt : Runtime) (v : Value) (n : float) : option bool :=
  let prim :=
    match v with
    | Arr _ | Obj _ => ObjectToPrimitive rt v
    | _ => Some v
    end in
  match prim with
  | Some p => Some (PrimFloat.leb n (ToNumber rt p))
  | None => None
  end.

(** [v || fallback] *)
Definition or_else (v fallback : Value) : Value :=
  if truthy v then v else fallback.

End Js.

(* ================================================================== *)
(** * DbService: the aggregates *)
(* ================================================================== *)

Module Stats.
Import Db.

(** A row as a query returns it: the key and the other columns. *)
Definition row_tweet_id (r : string * Row) : string := r.1.
Definition row_processed_at (r : string * Row) : string := processed_at r.2.
Definition row_category (r : string * Row) : Category := category r.2.
Definition row_raw_data (r : string * Row) : string := raw_data r.2.
Definition row_status (r : string * Row) : option ProcessingStatus := status r.2.

(** ** [getStats] *)

(** The group keys in the order of their text. *)
Definition all_categories : list Category :=
  [article; fun_; knowledge; podcast; project; review; tool; try_; video].

Definition count_category (c : Category) (rows : list (string * Row)) : nat :=
  length (filter (fun r => row_category r = c) rows).

(** [SELECT category, COUNT( * ) as count FROM bookmarks GROUP BY category]:
    one result row for each category that occurs. *)
Definition group_by_category (db : Ledger) : list (Category * nat) :=
  filter (fun g => g.2 <> 0)
    (map (fun c => (c, count_category c (map_to_list db))) all_categories).

(** [acc[key] = n] on a plain object: an existing property keeps its
    place, a new one goes last. *)
Fixpoint assign {V : Type} (key : Category) (n : V) (acc : list (Category * V))
  : list (Category * V) :=
  match acc with
  | [] => [(key, n)]
  | (k, m) :: rest =>
      if decide (k = key) then (k, n) :: rest else (k, m) :: assign key n rest
  end.

(** [acc[key]], [None] for [undefined]. *)
Fixpoint read {V : Type} (key : Category) (acc : list (Category * V)) : option V :=
  match acc with
  | [] => None
  | (k, m) :: rest => if decide (k = key) then Some m else read key rest
  end.

Record DbStats : Set := mkDbStats {
  total : nat;
  stats_byCategory : list (Category * nat)
}.

Definition getStats (db : Ledger) : DbStats :=
  {| total := size db;
     stats_byCategory :=
       fold_left (fun acc row => assign row.1 row.2 acc) (group_by_category db) [] |}.

(** ** [getWeeklyStats] *)

Record Highlight : Type := mkHighlight {
  h_tweetId : string;
  h_summary : Js.Value;
  h_category : Category
}.

Record WeeklyStats : Type := mkWeeklyStats {
  totalProcessed : nat;
  byCategory : list (Category * nat);
  topTags : list (Js.Value * nat);
  highlights : list Highlight
}.

(** [SELECT * FROM bookmarks WHERE processed_at >= ? ORDER BY processed_at DESC].
    SQLite answers the query from the index on [processed_at], read
    backwards, so that rows of equal [processed_at] come by falling rowid:
    the row written last comes first.  The ledger keeps no rowid, which
    no statement of the service reads; [rowid] gives, for the table as it
    stands when the query runs, the rowid of the row of each [tweet_id]. *)
Definition in_window (weekAgoStr : string) (r : string * Row) : Prop :=
  String.leb weekAgoStr (row_processed_at r) = true.

Definition newer_first (rowid : string -> nat) (a b : string * Row) : Prop :=
  if String.eqb (row_processed_at a) (row_processed_at b)
  then rowid (row_tweet_id b) <= rowid (row_tweet_id a)
  else String.leb (row_processed_at b) (row_processed_at a) = true.

#[global] Instance in_window_dec w r : Decision (in_window w r).
Proof. unfold in_window. apply _. Defined.

#[global] Instance newer_first_dec rowid a b : Decision (newer_first rowid a b).
Proof.
  unfold newer_first.
  destruct (String.eqb (row_processed_at a) (row_processed_at b)); apply _.
Defined.

Definition select_since (weekAgoStr : string) (rowid : string -> nat) (db : Ledger)
  : list (string * Row) :=
  merge_sort (newer_first rowid) (filter (in_window weekAgoStr) (map_to_list db)).

(** [tagCounts.get(tag)] and [tagCounts.set(tag, n)] on a [Map], which
    keeps its keys in insertion order. *)
Fixpoint map_get (tag : Js.Value) (m : list (Js.Value * nat)) : option nat :=
  match m with
  | [] => None
  | (k, n) :: rest => if Js.sameValueZero k tag then Some n else map_get tag rest
  end.

Fixpoint map_set (tag : Js.Value) (n : nat) (m : list (Js.Value * nat))
  : list (Js.Value * nat) :=
  match m with
  | [] => [(tag, n)]
  | (k, c) :: rest =>
      if Js.sameValueZero k tag then (k, n) :: rest else (k, c) :: map_set tag n rest
  end.

(** [tagCounts.set(tag, (tagCounts.get(tag) || 0) + 1)] *)
Definition count_tag (m : list (Js.Value * nat)) (tag : Js.Value) : list (Js.Value * nat) :=
  map_set tag (default 0 (map_get tag m) + 1) m.

(** [byCategory[c] = (byCategory[c] || 0) + 1] *)
Definition count_row_category (acc : list (Category * nat)) (c : Category)
  : list (Category * nat) :=
  assign c (default 0 (read c acc) + 1) acc.

(** The state the loop carries. *)
Record Acc : Type := mkAcc {
  acc_byCategory : list (Category * nat);
  acc_tagCounts : list (Js.Value * nat);
  acc_highlights : list Highlight
}.

(** [JSON.parse(row.raw_data).analysis]: [None] where [JSON.parse]
    throws, or the member access does because the payload is [null]. *)
Definition payload_analysis (rt : Js.Runtime) (raw : string) : option Js.Value :=
  match Js.JSON_parse rt raw with
  | None => None
  | Some data => Js.get data "analysis"
  end.

(** The tags the loop iterates: none when [analysis?.tags] is falsy,
    and [None] where the value cannot be iterated and the loop throws. *)
Definition analysis_tags (analysis : Js.Value) : option (list Js.Value) :=
  let tags := Js.get_opt analysis "tags" in
  if Js.truthy tags then Js.iterate tags else Some [].

(** The body of the [try] with its [catch]: the tag counts and the
    highlights after it, whether it completed or threw. *)
Definition try_body (rt : Js.Runtime) (row : string * Row)
    (tagCounts : list (Js.Value * nat)) (hl : list Highlight)
  : list (Js.Value * nat) * list Highlight :=
  match payload_analysis rt (row_raw_data row) with
  | None => (tagCounts, hl)
  | Some analysis =>
      match analysis_tags analysis with
      | None => (tagCounts, hl)
      | Some tags =>
          let tagCounts' := fold_left count_tag tags tagCounts in
          match Js.ge rt (Js.get_opt analysis "relevanceScore") 8%float with
          | None => (tagCounts', hl)
          | Some reaches =>
              if reaches && (length hl <? 10)%nat
              then (tagCounts',
                    hl ++ [ {| h_tweetId := row_tweet_id row;
                               h_summary := Js.or_else (Js.property analysis "summary") (Js.Str "");
                               h_category := row_category row |} ])
              else (tagCounts', hl)
          end
      end
  end.

Definition loop_body (rt : Js.Runtime) (acc : Acc) (row : string * Row) : Acc :=
  let byCat := count_row_category (acc_byCategory acc) (row_category row) in
  let '(tc, hl) := try_body rt row (acc_tagCounts acc) (acc_highlights acc) in
  {| acc_byCategory := byCat; acc_tagCounts := tc; acc_highlights := hl |}.

(** [entries.sort((a, b) => b[1] - a[1])]: the sort is stable. *)
Fixpoint insert_by_count (e : Js.Value * nat) (l : list (Js.Value * nat))
  : list (Js.Value * nat) :=
  match l with
  | [] => [e]
  | x :: rest =>
      if (e.2 <? x.2)%nat then x :: insert_by_count e rest else e :: x :: rest
  end.

Definition sort_by_count (l : list (Js.Value * nat)) : list (Js.Value * nat) :=
  fold_right insert_by_count [] l.

(** The aggregation over the rows the query returned. *)
Definition aggregate (rt : Js.Runtime) (rows : list (string * Row)) : WeeklyStats :=
  let acc := fold_left (loop_body rt) rows
               {| acc_byCategory := []; acc_tagCounts := []; acc_highlights := [] |} in
  {| totalProcessed := length rows;
     byCategory := acc_byCategory acc;
     topTags := take 10 (sort_by_count (acc_tagCounts acc));
     highlights := acc_highlights acc |}.

(** [now] is the time value of [new Date()]. *)
Definition weekAgoStr (rt : Js.Runtime) (now : Z) : string :=
  let weekAgo := Js.Date_setDate rt now (Js.Date_getDate rt now - 7) in
  Js.Date_toISOString rt weekAgo.

Definition getWeeklyStats (rt : Js.Runtime) (now : Z) (rowid : string -> nat) (db : Ledger)
  : WeeklyStats :=
  aggregate rt (select_since (weekAgoStr rt now) rowid db).

(** [getUnprocessedCount] *)
Definition getUnprocessedCount (db : Ledger) : nat := size db.

End Stats.

(** The table with its surrogate key.  [INSERT OR REPLACE] deletes the
    row the [tweet_id] had, if it had one, and inserts the new row under
    the next value of the AUTOINCREMENT counter; [UPDATE] keeps the
    rowid.  The ledger of a table is what the other statements see. *)
Module Table.

Record Table : Type := mkTable {
  ledger : Db.Ledger;
  rowid : string -> nat;
  last_rowid : nat
}.

Definition empty : Table := {| ledger := ∅; rowid := fun _ => 0; last_rowid := 0 |}.

Definition inserted (tweetId : string) (d : Db.Ledger) (t : Table) : Table :=
  {| ledger := d;
     rowid := fun k => if String.eqb k tweetId then S (last_rowid t) else rowid t k;
     last_rowid := S (last_rowid t) |}.

Definition tryLock (now : string) (tweetId : string) (t : Table) : bool * Table :=
  let '(locked, d) := Db.tryLock now tweetId (ledger t) in
  (locked, if locked then inserted tweetId d t else t).

Definition releaseLock (tweetId : string) (st : ProcessingStatus) (t : Table) : Table :=
  {| ledger := Db.releaseLock tweetId st (ledger t);
     rowid := rowid t; last_rowid := last_rowid t |}.

Definition markProcessed (record : Db.BookmarkRecord) (t : Table) : Table :=
  inserted (Db.tweetId record) (Db.markProcessed record (ledger t)) t.

Definition getWeeklyStats (rt : Js.Runtime) (now : Z) (t : Table) : Stats.WeeklyStats :=
  Stats.getWeeklyStats rt now (rowid t) (ledger t).

End Table.

(* ================================================================== *)
(** * Outcomes of calls that may throw *)
(* ================================================================== *)

(** What a [catch] clause can receive: a [GrabberError], or an error of
    another class with its message. *)
Inductive Thrown : Set :=
  | ThrownGrabber (e : GrabberError)
  | ThrownError (msg : string).

(** The result of a call: the value returned, or what it threw. *)
Inductive Outcome (E A : Type) : Type :=
  | Returned (a : A)
  | Threw (e : E).

Arguments Returned {E A} a.
Arguments Threw {E A} e.

(* ================================================================== *)
(** * TelegramService *)
(* ================================================================== *)

Module Telegram.

Definition newline : ascii := "010"%char.
Definition nl : string := String newline "".

Inductive ParseMode : Set := HTML | Markdown.

(** One POST to [sendMessage]: the [text] and [parse_mode] of its body. *)
Record Sent : Set := mkSent {
  sent_text : string;
  sent_parse_mode : ParseMode
}.

(** How [fetch] answers: it rejects, or it resolves to a response with
    its [ok] flag and its body text. *)
Inductive Reply : Set :=
  | FetchRejects (msg : string)
  | Response (ok : bool) (body : string).

(** [text.split('\n')] *)
Fixpoint split_lines (text : string) : list string :=
  match text with
  | EmptyString => [""]
  | String c rest =>
      if Ascii.eqb c newline then "" :: split_lines rest
      else match split_lines rest with
           | line :: more => String c line :: more
           | [] => [String c ""]
           end
  end.

(** [current ? '\n' : ''] *)
Definition separator (current : string) : string :=
  if String.eqb current "" then "" else nl.

(** One turn of the loop of [chunkMessage] on [(chunks, current)]. *)
Definition chunk_step (maxLength : nat) (st : list string * string) (line : string)
  : list string * string :=
  let '(chunks, current) := st in
  if (maxLength <? String.length current + String.length line + 1)%nat
  then (chunks ++ [current], line)
  else (chunks, current +:+ separator current +:+ line).

Definition chunkMessage (text : string) (maxLength : nat) : list string :=
  let '(chunks, current) :=
    fold_left (chunk_step maxLength) (split_lines text) ([], "") in
  if String.eqb current "" then chunks else chunks ++ [current].

(** [text.slice(0, n)] *)
Definition slice0 (n : nat) (text : string) : string := String.substring 0 n text.

(** [sendMessage]: [replies k] answers the POST made when [k] messages
    have gone out before.  The pause of [rateLimitWait] changes nothing
    that is tracked here. *)
Definition sendMessage (replies : nat -> Reply) (text : string) (parseMode : ParseMode)
    (outbox : list Sent) : Outcome Thrown unit * list Sent :=
  let outbox' := outbox ++ [ {| sent_text := slice0 4096 text; sent_parse_mode := parseMode |} ] in
  match replies (length outbox) with
  | FetchRejects msg => (Threw (ThrownError msg), outbox')
  | Response ok body =>
      if ok then (Returned tt, outbox')
      else (Threw (ThrownGrabber
                     {| message := "Telegram send failed: " +:+ body;
                        code := TELEGRAM; retryable := true |}), outbox')
  end.

(** The loop of [sendDigest]: a throwing send ends it. *)
Fixpoint send_chunks (replies : nat -> Reply) (chunks : list string) (outbox : list Sent)
  : Outcome Thrown unit * list Sent :=
  match chunks with
  | [] => (Returned tt, outbox)
  | chunk :: rest =>
      match sendMessage replies chunk Markdown outbox with
      | (Returned _, outbox') => send_chunks replies rest outbox'
      | (Threw e, outbox') => (Threw e, outbox')
      end
  end.

Definition sendDigest (replies : nat -> Reply) (digest : string) (outbox : list Sent)
  : Outcome Thrown unit * list Sent :=
  send_chunks replies (chunkMessage digest 4000) outbox.

(** [escapeHtml]: the three replacements, ampersand first, amount to
    replacing each character on its own. *)
Fixpoint escapeHtml (text : string) : string :=
  match text with
  | EmptyString => ""
  | String c rest =>
      (if Ascii.eqb c "&"%char then "&amp;"
       else if Ascii.eqb c "<"%char then "&lt;"
       else if Ascii.eqb c ">"%char then "&gt;"
       else String c "") +:+ escapeHtml rest
  end.

Definition ErrorCode_text (c : ErrorCode) : string :=
  match c with
  | AUTH_EXPIRED => "AUTH_EXPIRED" | RATE_LIMIT => "RATE_LIMIT"
  | NETWORK => "NETWORK" | PARSE => "PARSE" | NOTION => "NOTION"
  | TELEGRAM => "TELEGRAM" | UNKNOWN => "UNKNOWN"
  end.

(** The texts with pictographs, which lie outside the alphabet of
    [string]: [getErrorEmoji] and the text of [notifyAuthExpired]. *)
Record Texts : Set := mkTexts {
  getErrorEmoji : ErrorCode -> string;
  authExpiredText : string
}.

Definition errorText (tx : Texts) (error : GrabberError) : string :=
  let retry := if retryable error then "(will retry)" else "(manual action needed)" in
  getErrorEmoji tx (code error) +:+ " <b>Grabber Error</b>" +:+ nl +:+ nl +:+
  "<b>Type:</b> " +:+ ErrorCode_text (code error) +:+ nl +:+
  "<b>Message:</b> " +:+ escapeHtml (message error) +:+ nl +:+
  "<b>Status:</b> " +:+ retry.

Definition notifyError (tx : Texts) (replies : nat -> Reply) (error : GrabberError)
    (outbox : list Sent) : Outcome Thrown unit * list Sent :=
  sendMessage replies (errorText tx error) HTML outbox.

Definition notifyAuthExpired (tx : Texts) (replies : nat -> Reply) (outbox : list Sent)
  : Outcome Thrown unit * list Sent :=
  sendMessage replies (authExpiredText tx) HTML outbox.

End Telegram.

(* ================================================================== *)
(** * AgentService *)
(* ================================================================== *)

Record Tweet : Set := mkTweet {
  id : string;
  text : string;
  authorUsername : string;
  authorName : string;
  createdAt : string;
  urls : list string;
  images : list string;
  isThread : bool;
  tweet_threadTweets : list (string * string)
}.

Module Agent.

Inductive Priority : Set := high | medium | low.
Inductive EstimatedValue : Set := value_high | value_medium | value_low | value_skip.
Inductive ContentType : Set :=
  | ct_tweet | ct_thread | ct_article_share | ct_video_share
  | ct_image_post | ct_tool_announcement | ct_discussion.

#[global] Instance EstimatedValue_eq_dec : EqDecision EstimatedValue.
Proof. solve_decision. Defined.

(** [TriageSchema] *)
Record TriageResult : Set := mkTriage {
  needsArticleScrape : list (string * string * Priority);
  needsYoutubeTranscript : list (string * string);
  needsImageAnalysis : list (string * string);
  needsThreadExpansion : bool;
  contentType : ContentType;
  estimatedValue : EstimatedValue;
  skipReason : option string
}.

Record Article : Set := mkArticle {
  article_url : string;
  article_content : string;
  article_title : option string
}.

Record Transcript : Set := mkTranscript {
  transcript_url : string;
  transcript_text : string
}.

Record ImageDescription : Set := mkImageDescription {
  image_url : string;
  image_description : string
}.

Record EnrichedContext : Set := mkContext {
  articles : list Article;
  transcripts : list Transcript;
  imageDescriptions : list ImageDescription;
  threadTweets : list (string * string)
}.

Inductive LinkType : Set := lt_article | lt_tool | lt_repo | lt_video | lt_docs | lt_other.
Inductive ActionPriority : Set := now | this_week | someday.

(** [AnalysisSchema]: the object the provider returns. *)
Record AnalysisObject : Type := mkObject {
  category : Category;
  topic : string;
  summary : string;
  tldr : string;
  forYou : string;
  topAction : option string;
  primaryLink : option string;
  hasArticle : bool;
  hasVideo : bool;
  hasThread : bool;
  keyInsights : list string;
  quotes : list string;
  extractedLinks : list (string * string * LinkType * string);
  tags : list string;
  relevanceScore : float;
  actionItems : list (string * ActionPriority * option string);
  connections : option (list string)
}.

(** [AnalysisResult] as [analyze] builds it: the properties of the
    provider's object, three of them overwritten, and three more. *)
Record AnalysisResult : Type := mkResult {
  object : AnalysisObject;
  youtubeTranscript : option string;
  articleContent : option string;
  imageAnalysis : list string
}.

(** [{ ...object, hasThread: t, hasVideo: v, hasArticle: a }] *)
Definition with_flags (o : AnalysisObject) (t v a : bool) : AnalysisObject :=
  {| category := category o; topic := topic o; summary := summary o;
     tldr := tldr o; forYou := forYou o; topAction := topAction o;
     primaryLink := primaryLink o;
     hasArticle := a; hasVideo := v; hasThread := t;
     keyInsights := keyInsights o; quotes := quotes o;
     extractedLinks := extractedLinks o; tags := tags o;
     relevanceScore := relevanceScore o; actionItems := actionItems o;
     connections := connections o |}.

(** [triage]: [reply] is the outcome of [generateObject]. *)
Definition triage (tweet : Tweet) (reply : Outcome string TriageResult)
  : Outcome string TriageResult :=
  match reply with
  | Returned obj => Returned obj
  | Threw e => Threw e
  end.

(** [analyze]: [reply] is the outcome of [generateObject] on the
    enriched prompt.  What the provider throws is an error of its own
    package, given by its message. *)
Definition analyze (tweet : Tweet) (tr : TriageResult) (context : EnrichedContext)
    (reply : Outcome string AnalysisObject) : Outcome string AnalysisResult :=
  match reply with
  | Threw e => Threw e
  | Returned obj =>
      Returned
        {| object :=
             with_flags obj
               (hasThread obj || (0 <? length (threadTweets context))%nat)
               (hasVideo obj || (0 <? length (transcripts context))%nat)
               (hasArticle obj || (0 <? length (articles context))%nat);
           youtubeTranscript := transcript_text <$> head (transcripts context);
           articleContent := article_content <$> head (articles context);
           imageAnalysis := map image_description (imageDescriptions context) |}
  end.

(** [processTweet]: triage, the caller's enrichment, analysis. *)
Definition processTweet (tweet : Tweet)
    (triage_reply : Outcome string TriageResult)
    (enrichmentFetcher : TriageResult -> Outcome string EnrichedContext)
    (analysis_reply : Outcome string AnalysisObject)
  : Outcome string (TriageResult * option AnalysisResult) :=
  match triage tweet triage_reply with
  | Threw e => Threw e
  | Returned tr =>
      if decide (estimatedValue tr = value_skip) then Returned (tr, None)
      else
        match enrichmentFetcher tr with
        | Threw e => Threw e
        | Returned context =>
            match analyze tweet tr context analysis_reply with
            | Threw e => Threw e
            | Returned analysis => Returned (tr, Some analysis)
            end
        end
  end.

(** [analyzeTweet], the legacy entry point. *)
Definition analyzeTweet (tweet : Tweet)
    (articleContent youtubeTranscript : option string)
    (imageDescriptions : option (list string))
    (reply : Outcome string AnalysisObject) : Outcome string AnalysisResult :=
  let nonempty (o : option string) : list string :=
    match o with
    | Some s => if String.eqb s "" then [] else [s]
    | None => []
    end in
  let context :=
    {| articles := map (fun c => mkArticle "" c None) (nonempty articleContent);
       transcripts := map (mkTranscript "") (nonempty youtubeTranscript);
       imageDescriptions := map (mkImageDescription "") (default [] imageDescriptions);
       threadTweets := tweet_threadTweets tweet |} in
  let tr :=
    {| needsArticleScrape := []; needsYoutubeTranscript := [];
       needsImageAnalysis := []; needsThreadExpansion := false;
       contentType := ct_tweet; estimatedValue := value_medium;
       skipReason := None |} in
  analyze tweet tr context reply.

End Agent.

(* ================================================================== *)
(** * Grabber: the orchestrator ([src/index.ts]) *)
(* ================================================================== *)

Module Grabber.
Import Db.

(** The three objects [processTweet] serialises into [raw_data]. *)
Inductive Payload : Type :=
  | SkippedPayload (tweet : Tweet) (tr : Agent.TriageResult)
  | InNotionPayload (tweet : Tweet) (tr : Agent.TriageResult) (analysis : Agent.AnalysisResult)
  | AnalysedPayload (tweet : Tweet) (tr : Agent.TriageResult) (analysis : Agent.AnalysisResult).

(** The mutable fields of [Grabber], with the ledger of its [DbService]
    and the messages its [TelegramService] has posted. *)
Record World : Set := mkWorld {
  db : Ledger;
  outbox : list Telegram.Sent;
  isFirstRun : bool;
  isProcessing : bool;
  authValid : bool
}.

Definition set_db (w : World) (d : Ledger) : World :=
  {| db := d; outbox := outbox w; isFirstRun := isFirstRun w;
     isProcessing := isProcessing w; authValid := authValid w |}.

Definition set_outbox (w : World) (o : list Telegram.Sent) : World :=
  {| db := db w; outbox := o; isFirstRun := isFirstRun w;
     isProcessing := isProcessing w; authValid := authValid w |}.

Definition set_isProcessing (w : World) (b : bool) : World :=
  {| db := db w; outbox := outbox w; isFirstRun := isFirstRun w;
     isProcessing := b; authValid := authValid w |}.

Definition set_authValid (w : World) (b : bool) : World :=
  {| db := db w; outbox := outbox w; isFirstRun := isFirstRun w;
     isProcessing := isProcessing w; authValid := b |}.

(** What the collaborators answer while one bookmark is processed:
    the clock at the claim and at the commit, [generateObject] for the
    triage and for the analysis, [fetchEnrichment] (the scraper, the
    transcript tool, the vision model and the thread expansion, all
    gathered in [enrichment]), the two calls to Notion, and
    [bird.checkAuth] should [handleError] ask.
    The model provider and the enrichment services belong to other
    packages or catch what they throw, so an error out of them is never
    a [GrabberError]; [NotionService] does throw [GrabberError]s. *)
Record ItemEnv : Type := mkItemEnv {
  claimed_at : string;
  triage_reply : Outcome string Agent.TriageResult;
  enrichment : Agent.TriageResult -> Outcome string Agent.EnrichedContext;
  analysis_reply : Outcome string Agent.AnalysisObject;
  pageExists_reply : Outcome Thrown bool;
  createPage_reply : Outcome Thrown string;
  committed_at : string;
  whoami_valid : bool
}.

Section Orchestrator.

(** [JSON.stringify] on the payloads, the texts of the notifier, and the
    answers of the Telegram API. *)
Variable JSON_stringify : Payload -> string.
Variable texts : Telegram.Texts.
Variable replies : nat -> Telegram.Reply.

(** [processTweet(tweet)]: the outcome and the ledger after it. *)
Definition processTweet (tweet : Tweet) (env : ItemEnv) (d : Ledger)
  : Outcome Thrown unit * Ledger :=
  match Agent.processTweet tweet (triage_reply env) (enrichment env) (analysis_reply env) with
  | Threw msg => (Threw (ThrownError msg), d)
  | Returned (tr, None) =>
      (Returned tt,
       markProcessed
         {| tweetId := id tweet; processedAt := committed_at env;
            rec_category := review; notionPageId := None;
            rawData := JSON_stringify (SkippedPayload tweet tr);
            rec_status := Some completed |} d)
  | Returned (tr, Some analysis) =>
      let category := Agent.category (Agent.object analysis) in
      let commit (page : option string) :=
        (Returned tt,
         markProcessed
           {| tweetId := id tweet; processedAt := committed_at env;
              rec_category := category; notionPageId := page;
              rawData := JSON_stringify (AnalysedPayload tweet tr analysis);
              rec_status := Some completed |} d) in
      match pageExists_reply env with
      | Returned true =>
          (Returned tt,
           markProcessed
             {| tweetId := id tweet; processedAt := committed_at env;
                rec_category := category; notionPageId := None;
                rawData := JSON_stringify (InNotionPayload tweet tr analysis);
                rec_status := Some completed |} d)
      | Returned false =>
          match createPage_reply env with
          | Returned page => commit (Some page)
          | Threw _ => commit None
          end
      | Threw _ => commit None
      end
  end.

(** [handleError(error, tweetId?)]: [whoami] is the [valid] flag
    [bird.checkAuth] answers with when it is asked. *)
Definition as_GrabberError (error : Thrown) : GrabberError :=
  match error with
  | ThrownGrabber e => e
  | ThrownError msg => {| message := msg; code := UNKNOWN; retryable := false |}
  end.

Definition handleError (error : Thrown) (whoami : bool) (w : World)
  : Outcome Thrown unit * World :=
  let grabberError := as_GrabberError error in
  if decide (code grabberError = AUTH_EXPIRED) then
    if whoami then (Returned tt, w)
    else
      let w1 := set_authValid w false in
      let '(r, o) := Telegram.notifyAuthExpired texts replies (outbox w1) in
      (r, set_outbox w1 o)
  else
    let '(_, o) := Telegram.notifyError texts replies grabberError (outbox w) in
    (Returned tt, set_outbox w o).

(** How one turn of the loop of [processBookmarks] ended. *)
Inductive Turn : Set := Skipped | Processed | Failed.

(** One turn of the loop over [tweets]: [Threw] when the turn ends the
    loop by throwing. *)
Definition processItem (item : Tweet * ItemEnv) (w : World)
  : Outcome Thrown Turn * World :=
  let '(tweet, env) := item in
  if isProcessed (id tweet) (db w) then (Returned Skipped, w)
  else
    let '(locked, d1) := tryLock (claimed_at env) (id tweet) (db w) in
    if negb locked then (Returned Skipped, set_db w d1)
    else
      match processTweet tweet env d1 with
      | (Returned _, d2) => (Returned Processed, set_db w d2)
      | (Threw error, d2) =>
          let w2 := set_db w (releaseLock (id tweet) failed d2) in
          match handleError error (whoami_valid env) w2 with
          | (Returned _, w3) => (Returned Failed, w3)
          | (Threw e, w3) => (Threw e, w3)
          end
      end.

(** The loop: the turns taken, and what ended it if it was a throw. *)
Fixpoint processItems (tweets : list (Tweet * ItemEnv)) (w : World)
  : list Turn * option Thrown * World :=
  match tweets with
  | [] => ([], None, w)
  | item :: rest =>
      match processItem item w with
      | (Returned turn, w1) =>
          let '(turns, thrown, w2) := processItems rest w1 in
          (turn :: turns, thrown, w2)
      | (Threw e, w1) => ([], Some e, w1)
      end
  end.

(** What the source client answers during one pass. *)
Record PassEnv : Type := mkPassEnv {
  recheck_valid : bool;
  getBookmarks_reply : nat -> Outcome Thrown (list (Tweet * ItemEnv));
  pass_whoami_valid : bool
}.

(** [processBookmarks]: the outcome and the world after the pass. *)
Definition processBookmarks (firstRunLimit : nat) (env : PassEnv) (w : World)
  : Outcome Thrown unit * World :=
  if isProcessing w then (Returned tt, w)
  else
    let w0 := if authValid w then w else set_authValid w (recheck_valid env) in
    if negb (authValid w0) then (Returned tt, w0)
    else
      let w1 := set_isProcessing w0 true in
      let limit := if isFirstRun w1 then firstRunLimit else 20%nat in
      let '(r, w3) :=
        match getBookmarks_reply env limit with
        | Threw error => handleError error (pass_whoami_valid env) w1
        | Returned tweets =>
            match processItems tweets w1 with
            | (_, None, w2) => (Returned tt, w2)
            | (_, Some error, w2) => handleError error (pass_whoami_valid env) w2
            end
        end in
      (r, set_isProcessing w3 false).

End Orchestrator.

End Grabber.

(* ================================================================== *)
(** * Concrete data used as examples *)
(* ================================================================== *)

Module Examples.
Import Db.

Definition t0 : string := "2026-01-05T10:00:00.000Z".
Definition t1 : string := "2026-01-05T10:01:00.000Z".
Definition t2 : string := "2026-01-05T10:02:00.000Z".

(** The ledger after a first claim of "T1". *)
Definition claimed_T1 : Ledger := (tryLock t0 "T1" ∅).2.

(** A ledger whose record of "T1" failed after it had been committed
    with content. *)
Definition failed_row : Row :=
  {| processed_at := t0; category := tool; notion_page_id := Some "page-1";
     raw_data := "payload-1"; status := Some failed |}.

Definition failed_T1 : Ledger := {[ "T1" := failed_row ]}.

(** A legacy record: no status value. *)
Definition legacy_row : Row :=
  {| processed_at := t0; category := article; notion_page_id := None;
     raw_data := "{}"; status := None |}.

Definition legacy_T1 : Ledger := {[ "T1" := legacy_row ]}.

(** A bookmark, a triage decision that asks for nothing, a context with
    one article, one transcript and one thread tweet, and a provider
    object whose three flags are all [false]. *)
Definition tweet_of (tid : string) : Tweet :=
  {| id := tid; text := "a bookmarked post"; authorUsername := "dev";
     authorName := "Dev"; createdAt := t0; urls := []; images := [];
     isThread := false; tweet_threadTweets := [] |}.

Definition triage_plain : Agent.TriageResult :=
  {| Agent.needsArticleScrape := []; Agent.needsYoutubeTranscript := [];
     Agent.needsImageAnalysis := []; Agent.needsThreadExpansion := false;
     Agent.contentType := Agent.ct_tweet; Agent.estimatedValue := Agent.value_medium;
     Agent.skipReason := None |}.

Definition context_empty : Agent.EnrichedContext :=
  {| Agent.articles := []; Agent.transcripts := [];
     Agent.imageDescriptions := []; Agent.threadTweets := [] |}.

Definition context_full : Agent.EnrichedContext :=
  {| Agent.articles := [Agent.mkArticle "https://example.com/a" "body" None];
     Agent.transcripts := [Agent.mkTranscript "https://youtu.be/x" "words"];
     Agent.imageDescriptions := [];
     Agent.threadTweets := [("T1b", "second tweet")] |}.

Definition object_plain : Agent.AnalysisObject :=
  {| Agent.category := tool; Agent.topic := "A tool"; Agent.summary := "A summary";
     Agent.tldr := "short"; Agent.forYou := "relevant"; Agent.topAction := None;
     Agent.primaryLink := None;
     Agent.hasArticle := false; Agent.hasVideo := false; Agent.hasThread := false;
     Agent.keyInsights := []; Agent.quotes := []; Agent.extractedLinks := [];
     Agent.tags := ["ai"]; Agent.relevanceScore := 9%float;
     Agent.actionItems := []; Agent.connections := None |}.

(** Collaborators for the examples: a serialiser that only names the
    kind of payload, plain texts, and a Telegram API that accepts every
    message or none. *)
Definition stringify_kind (p : Grabber.Payload) : string :=
  match p with
  | Grabber.SkippedPayload _ _ => "skipped"
  | Grabber.InNotionPayload _ _ _ => "already-in-notion"
  | Grabber.AnalysedPayload _ _ _ => "analysed"
  end.

Definition plain_texts : Telegram.Texts :=
  {| Telegram.getErrorEmoji := fun _ => "!";
     Telegram.authExpiredText := "Twitter Auth Expired" |}.

Definition telegram_up : nat -> Telegram.Reply := fun _ => Telegram.Response true "ok".
Definition telegram_down : nat -> Telegram.Reply := fun _ => Telegram.Response false "blocked".

(** Everything answers. *)
Definition env_ok : Grabber.ItemEnv :=
  {| Grabber.claimed_at := t1;
     Grabber.triage_reply := Returned triage_plain;
     Grabber.enrichment := fun _ => Returned context_full;
     Grabber.analysis_reply := Returned object_plain;
     Grabber.pageExists_reply := Returned false;
     Grabber.createPage_reply := Returned "page-9";
     Grabber.committed_at := t2;
     Grabber.whoami_valid := true |}.

(** The triage call raises. *)
Definition env_triage_raises : Grabber.ItemEnv :=
  {| Grabber.claimed_at := t1;
     Grabber.triage_reply := Threw "provider unavailable";
     Grabber.enrichment := fun _ => Returned context_empty;
     Grabber.analysis_reply := Returned object_plain;
     Grabber.pageExists_reply := Returned false;
     Grabber.createPage_reply := Returned "page-9";
     Grabber.committed_at := t2;
     Grabber.whoami_valid := true |}.

(** The creation of the Notion page throws. *)
Definition env_notion_down : Grabber.ItemEnv :=
  {| Grabber.claimed_at := t1;
     Grabber.triage_reply := Returned triage_plain;
     Grabber.enrichment := fun _ => Returned context_full;
     Grabber.analysis_reply := Returned object_plain;
     Grabber.pageExists_reply := Returned false;
     Grabber.createPage_reply :=
       Threw (ThrownGrabber {| message := "Failed to create Notion page: timeout";
                               code := NOTION; retryable := true |});
     Grabber.committed_at := t2;
     Grabber.whoami_valid := true |}.

(** Five bookmarks, the third of which fails in triage. *)
Definition batch5 : list (Tweet * Grabber.ItemEnv) :=
  [ (tweet_of "1", env_ok); (tweet_of "2", env_ok); (tweet_of "3", env_triage_raises);
    (tweet_of "4", env_ok); (tweet_of "5", env_ok) ].

Definition fresh_world : Grabber.World :=
  {| Grabber.db := ∅; Grabber.outbox := []; Grabber.isFirstRun := true;
     Grabber.isProcessing := false; Grabber.authValid := true |}.

(** Digests: two short lines, and a heading followed by a line of
    4097 characters. *)
Fixpoint repeat_char (c : ascii) (n : nat) : string :=
  match n with
  | O => ""
  | S n' => String c (repeat_char c n')
  end.

Definition two_lines : string := "alpha" +:+ Telegram.nl +:+ "beta".
Definition long_line : string := repeat_char "a"%char 4097.
Definition long_digest : string := "Weekly digest" +:+ Telegram.nl +:+ long_line.

(** A runtime for the examples.  Its [JSON.parse] knows three payloads
    by a stand-in for their text; its dates count days from the epoch,
    which for [setDate(getDate() - 7)] in UTC gives the date a week back,
    and its [toISOString] knows the one date the examples ask for. *)
Definition analysis_payload (tags : list string) (score : float) (summary : string)
  : Js.Value :=
  Js.Obj [("analysis",
           Js.Obj [("tags", Js.Arr (map Js.Str tags));
                   ("relevanceScore", Js.Num score);
                   ("summary", Js.Str summary)])].

Definition demo_runtime : Js.Runtime :=
  {| Js.JSON_parse := fun raw =>
       if String.eqb raw "{}" then Some (Js.Obj [])
       else if String.eqb raw "payload-ai"
         then Some (analysis_payload ["ai"; "dev"] 9%float "Great AI tool")
       else if String.eqb raw "payload-ml"
         then Some (analysis_payload ["ai"; "ml"] 7%float "ML library")
       else None;
     Js.StringToNumber := fun _ => PrimFloat.nan;
     Js.ObjectToPrimitive := fun _ => Some (Js.Str "[object Object]");
     Js.Date_getDate := fun t => (t / 86400000)%Z;
     Js.Date_setDate := fun t day => (day * 86400000 + t mod 86400000)%Z;
     Js.Date_toISOString := fun t =>
       if (t =? 1767002400000)%Z then "2025-12-29T10:00:00.000Z"
       else "1970-01-01T00:00:00.000Z" |}.

(** The time value of 2026-01-05T10:00:00.000Z. *)
Definition now_ms : Z := 1767607200000.

(** Two analysed bookmarks, one with a payload that does not parse, one
    from before the window, a placeholder and a failed record. *)
Definition demo_db : Ledger :=
  <[ "1" := mkRow t1 tool None "payload-ai" (Some completed) ]>
  (<[ "2" := mkRow t2 tool None "payload-ml" (Some completed) ]>
  (<[ "3" := mkRow t0 article None "not json" (Some completed) ]>
  (<[ "old" := mkRow "2025-12-20T09:00:00.000Z" tool None "{}" (Some completed) ]>
  (<[ "4" := placeholder t1 ]>
  (<[ "5" := failed_row ]> ∅))))).

(** The rowids of [demo_db], its rows written in the order "5", "4",
    "old", "3", "2", "1". *)
Definition demo_rowid (tid : string) : nat :=
  if String.eqb tid "5" then 1
  else if String.eqb tid "4" then 2
  else if String.eqb tid "old" then 3
  else if String.eqb tid "3" then 4
  else if String.eqb tid "2" then 5
  else if String.eqb tid "1" then 6
  else 0.

(** A table into which two bookmarks with the same [processed_at] and
    a score of nine were written, "a" before "b". *)
Definition tie_table : Table.Table :=
  Table.markProcessed (mkRecord "b" t1 tool None "payload-ai" None)
    (Table.markProcessed (mkRecord "a" t1 tool None "payload-ai" None) Table.empty).

End Examples.

(* ================================================================== *)
(** * Properties of the ledger *)
(* ================================================================== *)

Section LedgerFacts.
Import Db.

Lemma status_is_true st lit : status_is st lit = true <-> st = Some lit.
Proof.
  destruct st as [s|]; simpl.
  - rewrite bool_decide_eq_true. split; congruence.
  - split; discriminate.
Qed.

Lemma status_null_true st : status_null st = true <-> st = None.
Proof. destruct st; simpl; split; congruence. Qed.

Lemma tryLock_absent now tid (d : Ledger) :
  d !! tid = None -> tryLock now tid d = (true, <[tid := placeholder now]> d).
Proof. intros H. unfold tryLock. now rewrite H. Qed.

(** The decision of [tryLock], by the state of the existing record. *)
Lemma tryLock_present now tid (d : Ledger) row :
  d !! tid = Some row ->
  tryLock now tid d =
    match status row with
    | Some failed => (true, <[tid := placeholder now]> d)
    | _ => (false, d)
    end.
Proof.
  intros H. unfold tryLock. rewrite H.
  destruct (status row) as [[]|]; reflexivity.
Qed.

Lemma releaseLock_same tid st (d : Ledger) :
  releaseLock tid st d !! tid = set_status st <$> d !! tid.
Proof. unfold releaseLock. apply lookup_alter_eq. Qed.

Lemma releaseLock_other tid tid' st (d : Ledger) :
  tid <> tid' -> releaseLock tid st d !! tid' = d !! tid'.
Proof. intros H. unfold releaseLock. now apply lookup_alter_ne. Qed.

Lemma releaseLock_absent tid st (d : Ledger) :
  d !! tid = None -> releaseLock tid st d = d.
Proof.
  intros H. apply map_eq. intros k.
  destruct (decide (tid = k)) as [->|Hne].
  - rewrite releaseLock_same, H. reflexivity.
  - now apply releaseLock_other.
Qed.

Lemma markProcessed_same record (d : Ledger) :
  markProcessed record d !! tweetId record =
    Some {| processed_at := processedAt record; category := rec_category record;
            notion_page_id := notionPageId record; raw_data := rawData record;
            status := Some (default completed (rec_status record)) |}.
Proof. unfold markProcessed. apply lookup_insert_eq. Qed.

Lemma markProcessed_other record (d : Ledger) tid :
  tweetId record <> tid -> markProcessed record d !! tid = d !! tid.
Proof. intros H. unfold markProcessed. now apply lookup_insert_ne. Qed.

(** C1 (as amended): a record in state 'processing' blocks [tryLock],
    which returns [false] and leaves the ledger as it is; once the record
    has been released as 'failed', [tryLock] returns [true]. *)
Theorem tryLock_processing_blocked now tid (d : Ledger) row :
  d !! tid = Some row ->
  status row = Some processing ->
  tryLock now tid d = (false, d) /\
  (tryLock now tid (releaseLock tid failed d)).1 = true.
Proof.
  intros Hrow Hst. split.
  - rewrite (tryLock_present _ _ _ _ Hrow), Hst. reflexivity.
  - assert (Hrel : releaseLock tid failed d !! tid = Some (set_status failed row))
      by (rewrite releaseLock_same, Hrow; reflexivity).
    rewrite (tryLock_present _ _ _ _ Hrel). reflexivity.
Qed.

Lemma tryLock_processing_blocked_witness :
  Examples.claimed_T1 !! "T1" = Some (placeholder Examples.t0) /\
  tryLock Examples.t1 "T1" Examples.claimed_T1 = (false, Examples.claimed_T1) /\
  (tryLock Examples.t1 "T1" (releaseLock "T1" failed Examples.claimed_T1)).1 = true.
Proof.
  split; [reflexivity|].
  apply (tryLock_processing_blocked Examples.t1 "T1" Examples.claimed_T1
           (placeholder Examples.t0)); reflexivity.
Defined.

(** C1, as the specification words it, fails: after a first claim the
    record of "T1" is in state 'processing', and a second claim returns
    [false]. *)
Lemma tryLock_processing_counterexample :
  status_of "T1" Examples.claimed_T1 = Some (Some processing) /\
  (tryLock Examples.t1 "T1" Examples.claimed_T1).1 = false /\
  ~ (forall now tid (d : Ledger) row,
       d !! tid = Some row -> status row = Some processing ->
       (tryLock now tid d).1 = true).
Proof.
  split; [reflexivity|]. split; [reflexivity|].
  intros H.
  specialize (H Examples.t1 "T1" Examples.claimed_T1 (placeholder Examples.t0)
                eq_refl eq_refl).
  discriminate H.
Qed.

(** C2: [tryLock] returns [true] exactly when the identifier has no
    record or its record is 'failed'; it returns [false] on a record that
    is 'completed', 'processing' or without a status.  On the empty
    ledger a claim succeeds, a second one fails, and after a release as
    'failed' a third one succeeds. *)
Theorem tryLock_true_iff now tid (d : Ledger) :
  ((tryLock now tid d).1 = true <->
     d !! tid = None \/ exists row, d !! tid = Some row /\ status row = Some failed) /\
  (forall row, d !! tid = Some row ->
     status row = Some completed \/ status row = Some processing \/ status row = None ->
     (tryLock now tid d).1 = false) /\
  (forall t1 t2 t3,
     let d1 := (tryLock t1 tid ∅).2 in
     let d2 := (tryLock t2 tid d1).2 in
     (tryLock t1 tid ∅).1 = true /\
     (tryLock t2 tid d1).1 = false /\
     (tryLock t3 tid (releaseLock tid failed d2)).1 = true).
Proof.
  split; [|split].
  - destruct (d !! tid) as [row|] eqn:Hrow.
    + rewrite (tryLock_present _ _ _ _ Hrow). split.
      * intros H. right. exists row. split; [reflexivity|].
        destruct (status row) as [[]|]; simpl in H; congruence.
      * intros [Hno|(row' & Heq & Hst)]; [discriminate|].
        injection Heq as <-. rewrite Hst. reflexivity.
    + rewrite (tryLock_absent _ _ _ Hrow). split; [auto | reflexivity].
  - intros row Hrow Hst. rewrite (tryLock_present _ _ _ _ Hrow).
    destruct Hst as [-> | [-> | ->]]; reflexivity.
  - intros t1 t2 t3 d1 d2.
    assert (H1 : tryLock t1 tid ∅ = (true, <[tid := placeholder t1]> ∅))
      by (apply tryLock_absent, lookup_empty).
    assert (Hd1 : d1 !! tid = Some (placeholder t1))
      by (unfold d1; rewrite H1; apply lookup_insert_eq).
    assert (H2 : tryLock t2 tid d1 = (false, d1))
      by (rewrite (tryLock_present _ _ _ _ Hd1); reflexivity).
    assert (Hd2 : d2 = d1) by (unfold d2; rewrite H2; reflexivity).
    split; [now rewrite H1|]. split; [now rewrite H2|].
    rewrite Hd2.
    assert (Hrel : releaseLock tid failed d1 !! tid = Some (set_status failed (placeholder t1)))
      by (rewrite releaseLock_same, Hd1; reflexivity).
    rewrite (tryLock_present _ _ _ _ Hrel). reflexivity.
Qed.

Lemma tryLock_true_iff_witness :
  (tryLock Examples.t1 "T1" Examples.failed_T1).1 = true /\
  (tryLock Examples.t1 "T1" Examples.legacy_T1).1 = false /\
  (tryLock Examples.t1 "T1" Examples.claimed_T1).1 = false.
Proof.
  split; [|split].
  - apply (proj1 (tryLock_true_iff Examples.t1 "T1" Examples.failed_T1)).
    right. exists Examples.failed_row. split; reflexivity.
  - apply (proj1 (proj2 (tryLock_true_iff Examples.t1 "T1" Examples.legacy_T1))
             Examples.legacy_row); [reflexivity|].
    right. right. reflexivity.
  - apply (proj1 (proj2 (tryLock_true_iff Examples.t1 "T1" Examples.claimed_T1))
             (placeholder Examples.t0)); [reflexivity|].
    right. left. reflexivity.
Defined.

(** C3: [isProcessed] returns [true] exactly when a record exists and
    its status is 'completed' or missing; a record without a status
    counts as handled, one that is 'processing' or 'failed' does not. *)
Theorem isProcessed_true_iff tid (d : Ledger) :
  (isProcessed tid d = true <->
     exists row, d !! tid = Some row /\
                 (status row = Some completed \/ status row = None)) /\
  (forall row, d !! tid = Some row -> status row = None -> isProcessed tid d = true) /\
  (forall row, d !! tid = Some row ->
     status row = Some processing \/ status row = Some failed ->
     isProcessed tid d = false).
Proof.
  unfold isProcessed. split; [|split].
  - destruct (d !! tid) as [row|].
    + rewrite orb_true_iff, status_is_true, status_null_true. split.
      * intros H. exists row. auto.
      * intros (row' & Heq & H). injection Heq as <-. exact H.
    + split; [discriminate|]. intros (row & Heq & _). discriminate.
  - intros row -> ->. reflexivity.
  - intros row -> [-> | ->]; reflexivity.
Qed.

Lemma isProcessed_true_iff_witness :
  isProcessed "T1" Examples.legacy_T1 = true /\
  isProcessed "T1" Examples.failed_T1 = false /\
  isProcessed "T1" Examples.claimed_T1 = false.
Proof.
  split; [|split].
  - apply (proj1 (proj2 (isProcessed_true_iff "T1" Examples.legacy_T1))
             Examples.legacy_row); reflexivity.
  - apply (proj2 (proj2 (isProcessed_true_iff "T1" Examples.failed_T1))
             Examples.failed_row); [reflexivity|]. right. reflexivity.
  - apply (proj2 (proj2 (isProcessed_true_iff "T1" Examples.claimed_T1))
             (placeholder Examples.t0)); [reflexivity|]. left. reflexivity.
Defined.

(** C10: a successful [tryLock] over a 'failed' record replaces the whole
    row by the placeholder (category 'review', payload '{}', no Notion
    page, [processed_at] the claim time, status 'processing') and touches
    no other identifier; [releaseLock] changes the status of the record
    and nothing else, and does nothing where there is no record. *)
Theorem tryLock_replaces_releaseLock_keeps now tid (d : Ledger) :
  (forall row, d !! tid = Some row -> status row = Some failed ->
     (tryLock now tid d).1 = true /\
     (tryLock now tid d).2 !! tid =
       Some {| processed_at := now; category := review; notion_page_id := None;
               raw_data := "{}"; status := Some processing |} /\
     (forall tid', tid <> tid' -> (tryLock now tid d).2 !! tid' = d !! tid')) /\
  (forall st row, d !! tid = Some row ->
     exists row', releaseLock tid st d !! tid = Some row' /\
       status row' = Some st /\
       processed_at row' = processed_at row /\
       category row' = category row /\
       notion_page_id row' = notion_page_id row /\
       raw_data row' = raw_data row) /\
  (forall st tid', tid <> tid' -> releaseLock tid st d !! tid' = d !! tid') /\
  (forall st, d !! tid = None -> releaseLock tid st d = d).
Proof.
  split; [|split; [|split]].
  - intros row Hrow Hst. rewrite (tryLock_present _ _ _ _ Hrow), Hst. simpl.
    split; [reflexivity|]. split.
    + apply lookup_insert_eq.
    + intros tid' Hne. now apply lookup_insert_ne.
  - intros st row Hrow. exists (set_status st row).
    rewrite releaseLock_same, Hrow. simpl. repeat split.
  - intros st tid' Hne. now apply releaseLock_other.
  - intros st Hno. now apply releaseLock_absent.
Qed.

Lemma tryLock_replaces_releaseLock_keeps_witness :
  (tryLock Examples.t1 "T1" Examples.failed_T1).2 !! "T1" =
    Some {| processed_at := Examples.t1; category := review; notion_page_id := None;
            raw_data := "{}"; status := Some processing |} /\
  releaseLock "T2" completed Examples.failed_T1 = Examples.failed_T1.
Proof.
  split.
  - apply (proj1 (tryLock_replaces_releaseLock_keeps Examples.t1 "T1" Examples.failed_T1)
             Examples.failed_row); reflexivity.
  - apply (proj2 (proj2 (proj2
             (tryLock_replaces_releaseLock_keeps Examples.t1 "T2" Examples.failed_T1)))
             completed).
    reflexivity.
Defined.

End LedgerFacts.

(* ================================================================== *)
(** * Properties of the analysis step *)
(* ================================================================== *)

Section AnalyzeFacts.
Import Agent.

Lemma nonempty_length {A : Type} (l : list A) : l <> [] -> (0 <? length l)%nat = true.
Proof. destruct l; [congruence | reflexivity]. Qed.

(** The three flags of a result, in terms of the provider's object and
    the enriched context. *)
Lemma analyze_returned tweet tr context obj :
  exists res,
    analyze tweet tr context (Returned obj) = Returned res /\
    hasArticle (object res) = hasArticle obj || (0 <? length (articles context))%nat /\
    hasVideo (object res) = hasVideo obj || (0 <? length (transcripts context))%nat /\
    hasThread (object res) = hasThread obj || (0 <? length (threadTweets context))%nat.
Proof. eexists. simpl. repeat split. Qed.

(** C8: whenever [analyze] produces a result, [hasArticle] is [true] if
    the enriched context holds an article, [hasVideo] if it holds a
    transcript, [hasThread] if it holds a thread tweet, whatever flags
    the provider returned; and it produces one whenever the provider
    returns an object. *)
Theorem analyze_merges_evidence tweet tr context :
  (forall obj, exists res, analyze tweet tr context (Returned obj) = Returned res) /\
  (forall reply res,
     analyze tweet tr context reply = Returned res ->
     (articles context <> [] -> hasArticle (object res) = true) /\
     (transcripts context <> [] -> hasVideo (object res) = true) /\
     (threadTweets context <> [] -> hasThread (object res) = true)).
Proof.
  split.
  - intros obj. destruct (analyze_returned tweet tr context obj) as (res & H & _).
    now exists res.
  - intros [obj|e] res H; [|discriminate].
    destruct (analyze_returned tweet tr context obj) as (res' & H' & Ha & Hv & Ht).
    rewrite H in H'. injection H' as <-.
    rewrite Ha, Hv, Ht.
    repeat split; intros Hne; rewrite (nonempty_length _ Hne); apply orb_true_r.
Qed.

Lemma analyze_merges_evidence_witness :
  exists res,
    analyze (Examples.tweet_of "T1") Examples.triage_plain Examples.context_full
      (Returned Examples.object_plain) = Returned res /\
    hasArticle (object res) = true /\
    hasVideo (object res) = true /\
    hasThread (object res) = true.
Proof.
  destruct (proj1 (analyze_merges_evidence (Examples.tweet_of "T1") Examples.triage_plain
                     Examples.context_full) Examples.object_plain) as [res Hres].
  exists res. split; [exact Hres|].
  destruct (proj2 (analyze_merges_evidence (Examples.tweet_of "T1") Examples.triage_plain
                     Examples.context_full) _ _ Hres) as (Ha & Hv & Ht).
  split; [apply Ha; discriminate|]. split; [apply Hv; discriminate | apply Ht; discriminate].
Defined.

End AnalyzeFacts.

(* ================================================================== *)
(** * Properties of the orchestrator *)
(* ================================================================== *)

(** An identifier a pass may claim: it has no record, or a 'failed' one. *)
Definition claimable (tid : string) (d : Db.Ledger) : Prop :=
  d !! tid = None \/ exists row, d !! tid = Some row /\ Db.status row = Some failed.

(** The Notion step of [processTweet] throws: in the existence check, or
    in the creation of the page after the check answered "no". *)
Definition notion_write_throws (env : Grabber.ItemEnv) : Prop :=
  (exists e, Grabber.pageExists_reply env = Threw e) \/
  (Grabber.pageExists_reply env = Returned false /\
   exists e, Grabber.createPage_reply env = Threw e).

Section GrabberFacts.
Import Db Grabber.

Variable JSON_stringify : Payload -> string.
Variable texts : Telegram.Texts.
Variable replies : nat -> Telegram.Reply.

(** What the agent made of the bookmark. *)
Definition agent_outcome (tweet : Tweet) (env : ItemEnv)
  : Outcome string (Agent.TriageResult * option Agent.AnalysisResult) :=
  Agent.processTweet tweet (triage_reply env) (enrichment env) (analysis_reply env).

(** The message [handleError] posts for an error that is not a
    [GrabberError]. *)
Definition error_report (msg : string) : Telegram.Sent :=
  {| Telegram.sent_text :=
       Telegram.slice0 4096
         (Telegram.errorText texts {| message := msg; code := UNKNOWN; retryable := false |});
     Telegram.sent_parse_mode := Telegram.HTML |}.

Lemma claimable_isProcessed tid (d : Ledger) :
  claimable tid d -> isProcessed tid d = false.
Proof.
  unfold isProcessed. intros [-> | (row & -> & ->)]; reflexivity.
Qed.

Lemma claimable_tryLock now tid (d : Ledger) :
  claimable tid d -> tryLock now tid d = (true, <[tid := placeholder now]> d).
Proof.
  intros [Hno | (row & Hrow & Hst)].
  - now apply tryLock_absent.
  - rewrite (tryLock_present _ _ _ _ Hrow), Hst. reflexivity.
Qed.

Lemma not_claimable_skipped now tid (d : Ledger) :
  ~ claimable tid d -> isProcessed tid d = true \/ tryLock now tid d = (false, d).
Proof.
  intros Hn. destruct (d !! tid) as [row|] eqn:Hrow.
  - right. rewrite (tryLock_present _ _ _ _ Hrow).
    destruct (status row) as [[]|] eqn:Hst; try reflexivity.
    exfalso. apply Hn. right. now exists row.
  - exfalso. apply Hn. now left.
Qed.

(** [processTweet] throws only what the agent threw; otherwise it
    commits a 'completed' record under the identifier of the tweet. *)
Lemma processTweet_cases tweet env (d : Ledger) :
  match agent_outcome tweet env with
  | Threw msg => processTweet JSON_stringify tweet env d = (Threw (ThrownError msg), d)
  | Returned _ =>
      exists row,
        processTweet JSON_stringify tweet env d = (Returned tt, <[id tweet := row]> d) /\
        status row = Some completed
  end.
Proof.
  unfold agent_outcome, processTweet.
  destruct (Agent.processTweet _ _ _ _) as [[tr [analysis|]]|msg]; [| |reflexivity].
  - destruct (pageExists_reply env) as [[|]|e];
      [ | destruct (createPage_reply env) as [page|e] | ];
      (eexists; split; [reflexivity | reflexivity]).
  - eexists; split; reflexivity.
Qed.

(** An error that is not a [GrabberError] is reported as UNKNOWN, and
    [handleError] returns whether or not the message got through. *)
Lemma handleError_foreign msg whoami w :
  handleError texts replies (ThrownError msg) whoami w =
    (Returned tt, set_outbox w (outbox w ++ [error_report msg])).
Proof.
  unfold handleError, Telegram.notifyError, Telegram.sendMessage. simpl.
  destruct (replies (length (outbox w))) as [m|[|] body]; reflexivity.
Qed.

(** The one path on which [handleError] throws: an AUTH_EXPIRED error,
    credentials that do not check out, and a Telegram alert that fails. *)
Lemma handleError_throws e whoami w thrown w' :
  handleError texts replies e whoami w = (Threw thrown, w') ->
  code (as_GrabberError e) = AUTH_EXPIRED /\ whoami = false.
Proof.
  unfold handleError.
  destruct (decide (code (as_GrabberError e) = AUTH_EXPIRED)) as [Hc|Hc].
  - destruct whoami; [discriminate|]. intros _. now split.
  - destruct (Telegram.notifyError _ _ _ _). discriminate.
Qed.

(** One turn of the loop on an identifier that is not claimable:
    skipped, and the world is what it was. *)
Lemma processItem_skips tweet env w :
  ~ claimable (id tweet) (db w) ->
  exists w', processItem JSON_stringify texts replies (tweet, env) w = (Returned Skipped, w') /\
             db w' = db w /\ outbox w' = outbox w.
Proof.
  intros Hn. unfold processItem.
  destruct (not_claimable_skipped (claimed_at env) _ _ Hn) as [-> | Hlock].
  - now exists w.
  - destruct (isProcessed (id tweet) (db w)); [now exists w|].
    rewrite Hlock. simpl. eexists. split; [reflexivity|]. now split.
Qed.

(** One turn on a claimable identifier whose processing throws: the
    record is released as 'failed', the error is reported, the loop goes
    on. *)
Lemma processItem_fails tweet env w msg :
  claimable (id tweet) (db w) ->
  agent_outcome tweet env = Threw msg ->
  processItem JSON_stringify texts replies (tweet, env) w =
    (Returned Failed,
     set_outbox
       (set_db w (releaseLock (id tweet) failed
                    (<[id tweet := placeholder (claimed_at env)]> (db w))))
       (outbox w ++ [error_report msg])).
Proof.
  intros Hc Hout. unfold processItem.
  rewrite (claimable_isProcessed _ _ Hc), (claimable_tryLock (claimed_at env) _ _ Hc).
  simpl.
  pose proof (processTweet_cases tweet env
                (<[id tweet := placeholder (claimed_at env)]> (db w))) as Hp.
  rewrite Hout in Hp. rewrite Hp.
  rewrite handleError_foreign. reflexivity.
Qed.

(** One turn on a claimable identifier whose processing returns: a
    'completed' record is committed and nothing is reported. *)
Lemma processItem_completes tweet env w res :
  claimable (id tweet) (db w) ->
  agent_outcome tweet env = Returned res ->
  exists row,
    processItem JSON_stringify texts replies (tweet, env) w =
      (Returned Processed, set_db w (<[id tweet := row]> (db w))) /\
    status row = Some completed.
Proof.
  intros Hc Hout. unfold processItem.
  rewrite (claimable_isProcessed _ _ Hc), (claimable_tryLock (claimed_at env) _ _ Hc).
  simpl.
  pose proof (processTweet_cases tweet env
                (<[id tweet := placeholder (claimed_at env)]> (db w))) as Hp.
  rewrite Hout in Hp. destruct Hp as (row & Hp & Hst).
  rewrite Hp. exists row. split; [|exact Hst].
  now rewrite insert_insert_eq.
Qed.

Lemma claimable_dec tid (d : Ledger) : {claimable tid d} + {~ claimable tid d}.
Proof.
  unfold claimable. destruct (d !! tid) as [row|].
  - destruct (decide (status row = Some failed)) as [H|H].
    + left. right. now exists row.
    + right. intros [Hno | (row' & Heq & Hst)]; [discriminate|].
      injection Heq as <-. contradiction.
  - left. now left.
Defined.

(** A turn never ends the loop: it touches no record but the one of its
    tweet, and it keeps the messages posted before it. *)
Lemma processItem_turn item w :
  exists turn w',
    processItem JSON_stringify texts replies item w = (Returned turn, w') /\
    (forall tid, tid <> id item.1 -> db w' !! tid = db w !! tid) /\
    (forall m, m ∈ outbox w -> m ∈ outbox w').
Proof.
  destruct item as [tweet env]. cbn [fst].
  destruct (claimable_dec (id tweet) (db w)) as [Hc|Hn].
  - destruct (agent_outcome tweet env) as [res|msg] eqn:Hout.
    + destruct (processItem_completes tweet env w res Hc Hout) as (row & Hp & _).
      rewrite Hp. do 2 eexists. split; [reflexivity|]. simpl. split.
      * intros tid Hne. now rewrite lookup_insert_ne.
      * auto.
    + rewrite (processItem_fails tweet env w msg Hc Hout).
      do 2 eexists. split; [reflexivity|]. simpl. split.
      * intros tid Hne. rewrite releaseLock_other by congruence.
        now rewrite lookup_insert_ne.
      * intros m Hm. apply elem_of_app. now left.
  - destruct (processItem_skips tweet env w Hn) as (w' & Hp & Hdb & Hob).
    rewrite Hp. do 2 eexists. split; [reflexivity|]. rewrite Hdb, Hob. auto.
Qed.

(** The loop takes one turn for every tweet and never throws; records
    of identifiers outside the batch stay as they are. *)
Lemma processItems_runs tweets : forall w,
  (processItems JSON_stringify texts replies tweets w).1.2 = None /\
  length (processItems JSON_stringify texts replies tweets w).1.1 = length tweets /\
  (forall tid, tid ∉ map (fun item => id item.1) tweets ->
     db (processItems JSON_stringify texts replies tweets w).2 !! tid = db w !! tid) /\
  (forall m, m ∈ outbox w ->
     m ∈ outbox (processItems JSON_stringify texts replies tweets w).2).
Proof.
  induction tweets as [|item rest IH]; intros w.
  - simpl. repeat split; auto.
  - destruct (processItem_turn item w) as (turn & w1 & Hp & Hframe & Hout).
    destruct (IH w1) as (Hnone & Hlen & Hframe' & Hout').
    simpl. rewrite Hp.
    destruct (processItems JSON_stringify texts replies rest w1) as [[turns thrown] w2].
    simpl in *. split; [exact Hnone|]. split; [now rewrite Hlen|]. split.
    + intros tid Hnotin. rewrite not_elem_of_cons in Hnotin.
      destruct Hnotin as [Hne Hnotin].
      rewrite (Hframe' tid Hnotin). now apply Hframe.
    + auto.
Qed.

Lemma processItems_cons item rest w :
  processItems JSON_stringify texts replies (item :: rest) w =
    match processItem JSON_stringify texts replies item w with
    | (Returned turn, w1) =>
        let '(turns, thrown, w2) := processItems JSON_stringify texts replies rest w1 in
        (turn :: turns, thrown, w2)
    | (Threw e, w1) => ([], Some e, w1)
    end.
Proof. reflexivity. Qed.


(** A pass that is let in and gets its bookmarks runs the loop over
    them and returns. *)
Lemma processBookmarks_pass firstRunLimit env w tweets :
  isProcessing w = false -> authValid w = true ->
  getBookmarks_reply env (if isFirstRun w then firstRunLimit else 20) = Returned tweets ->
  processBookmarks JSON_stringify texts replies firstRunLimit env w =
    (Returned tt,
     set_isProcessing
       (processItems JSON_stringify texts replies tweets (set_isProcessing w true)).2 false).
Proof.
  intros Hidle Hauth Hget. unfold processBookmarks.
  rewrite Hidle, Hauth. cbn [negb]. rewrite Hauth. cbn [negb isFirstRun set_isProcessing].
  rewrite Hget.
  destruct (processItems_runs tweets (set_isProcessing w true)) as (Hnone & _).
  unfold set_isProcessing in *.
  destruct (processItems JSON_stringify texts replies tweets _) as [[turns thrown] w2].
  cbn [fst snd] in *. now subst thrown.
Qed.

(** The message [handleError] posts for what a turn threw. *)
Definition report_of (e : Thrown) : Telegram.Sent :=
  {| Telegram.sent_text := Telegram.slice0 4096 (Telegram.errorText texts (as_GrabberError e));
     Telegram.sent_parse_mode := Telegram.HTML |}.


(** C4: when the agent has produced an analysis and the Notion step
    throws (in the existence check or in the creation of the page),
    [processTweet] returns normally and commits the record as 'completed'
    with no Notion page; the turn of the loop counts the tweet as
    processed, its record is 'completed' and not 'failed', and no error is
    reported. *)
Theorem notion_failure_tolerated tweet env tr analysis :
  agent_outcome tweet env = Returned (tr, Some analysis) ->
  notion_write_throws env ->
  (forall d : Ledger, exists row,
     processTweet JSON_stringify tweet env d = (Returned tt, <[id tweet := row]> d) /\
     status row = Some completed /\
     notion_page_id row = None /\
     category row = Agent.category (Agent.object analysis) /\
     raw_data row = JSON_stringify (AnalysedPayload tweet tr analysis) /\
     processed_at row = committed_at env) /\
  (forall w, claimable (id tweet) (db w) ->
     exists w',
       processItem JSON_stringify texts replies (tweet, env) w = (Returned Processed, w') /\
       status_of (id tweet) (db w') = Some (Some completed) /\
       notion_page_id <$> db w' !! id tweet = Some None /\
       outbox w' = outbox w).
Proof.
  intros Hag Hnotion.
  assert (Hcommit : forall d : Ledger, exists row,
     processTweet JSON_stringify tweet env d = (Returned tt, <[id tweet := row]> d) /\
     status row = Some completed /\
     notion_page_id row = None /\
     category row = Agent.category (Agent.object analysis) /\
     raw_data row = JSON_stringify (AnalysedPayload tweet tr analysis) /\
     processed_at row = committed_at env).
  { intros d. unfold processTweet. unfold agent_outcome in Hag. rewrite Hag.
    destruct Hnotion as [[e He] | [Hno [e He]]].
    - rewrite He. eexists. split; [reflexivity|]. cbn. repeat split.
    - rewrite Hno, He. eexists. split; [reflexivity|]. cbn. repeat split. }
  split; [exact Hcommit|].
  intros w Hc. unfold processItem.
  rewrite (claimable_isProcessed _ _ Hc), (claimable_tryLock (claimed_at env) _ _ Hc).
  cbn [negb].
  destruct (Hcommit (<[id tweet := placeholder (claimed_at env)]> (db w)))
    as (row & Hp & Hst & Hpage & _).
  rewrite Hp. eexists. split; [reflexivity|]. cbn [db set_db outbox].
  unfold status_of. rewrite lookup_insert_eq. cbn. rewrite Hst, Hpage. now repeat split.
Qed.


End GrabberFacts.

Section GrabberWitnesses.
Import Db Grabber Examples.

Lemma notion_failure_tolerated_witness :
  exists row,
    processTweet stringify_kind (tweet_of "T1") env_notion_down ∅ =
      (Returned tt, <[ "T1" := row ]> ∅) /\
    status row = Some completed /\
    notion_page_id row = None.
Proof.
  destruct (proj1 (notion_failure_tolerated stringify_kind plain_texts telegram_up
                     (tweet_of "T1") env_notion_down triage_plain _ eq_refl
                     (or_intror (conj eq_refl (ex_intro _ _ eq_refl)))) ∅)
    as (row & Hp & Hst & Hpage & _).
  exists row. now repeat split.
Defined.


(** The branch of [handleError] that is not guarded: an AUTH_EXPIRED
    error, as [getBookmarks] raises it, with credentials that do not check
    out and a Telegram API that refuses the alert. *)
Example handleError_alert_unguarded :
  (handleError plain_texts telegram_down
     (ThrownGrabber {| message := "Twitter auth expired"; code := AUTH_EXPIRED;
                       retryable := false |})
     false fresh_world).1 =
  Threw (ThrownGrabber {| message := "Telegram send failed: blocked"; code := TELEGRAM;
                          retryable := true |}).
Proof. reflexivity. Qed.

End GrabberWitnesses.

(* ================================================================== *)
(** * Properties of the notifier *)
(* ================================================================== *)

(** The lines of a list that are not empty. *)
Definition nonblank (lines : list string) : list string :=
  filter (fun s => s <> "") lines.

(** Every line of the digest that is not empty is, whole, a line of one
    of the messages [sendDigest] posts. *)
Definition lines_sent_whole (replies : nat -> Telegram.Reply) (digest : string) : Prop :=
  forall line,
    line ∈ Telegram.split_lines digest -> line <> "" ->
    exists m, m ∈ (Telegram.sendDigest replies digest []).2 /\
              line ∈ Telegram.split_lines (Telegram.sent_text m).

Section TelegramFacts.
Import Telegram.

Lemma length_append (a b : string) :
  String.length (a +:+ b) = String.length a + String.length b.
Proof. induction a as [|c a IH]; simpl; [reflexivity | now rewrite IH]. Qed.

Lemma slice0_length n : forall s, String.length (slice0 n s) = Nat.min n (String.length s).
Proof.
  unfold slice0. induction n as [|n IH]; intros [|c s]; simpl; try reflexivity.
  now rewrite IH.
Qed.

Lemma slice0_short n : forall s, String.length s <= n -> slice0 n s = s.
Proof.
  unfold slice0. induction n as [|n IH]; intros [|c s] H; simpl in *; try reflexivity.
  - lia.
  - rewrite IH by lia. reflexivity.
Qed.

Lemma separator_length current : String.length (separator current) <= 1.
Proof. unfold separator. destruct (String.eqb current ""); simpl; lia. Qed.

(** ** Lines *)

Lemma split_lines_cons text : exists line more, split_lines text = line :: more.
Proof.
  induction text as [|c rest IH]; simpl.
  - now exists "", [].
  - destruct (Ascii.eqb c newline); [now exists "", (split_lines rest)|].
    destruct IH as (line & more & ->). now exists (String c line), more.
Qed.

(** A line of a text is a text of one line. *)
Lemma split_lines_line text :
  Forall (fun line => split_lines line = [line]) (split_lines text).
Proof.
  induction text as [|c rest IH]; simpl.
  - constructor; [reflexivity | constructor].
  - destruct (Ascii.eqb c newline) eqn:Hc.
    + constructor; [reflexivity | exact IH].
    + destruct (split_lines rest) as [|line more]; [constructor; [|constructor]|].
      * simpl. now rewrite Hc.
      * inversion IH as [|? ? Hline Hmore]; subst. constructor; [|exact Hmore].
        simpl. rewrite Hc, Hline. reflexivity.
Qed.

(** Joining two texts by a newline puts their lines one after the other. *)
Lemma split_lines_join a b :
  split_lines (a +:+ nl +:+ b) = split_lines a ++ split_lines b.
Proof.
  induction a as [|c a IH]; simpl.
  - reflexivity.
  - destruct (Ascii.eqb c newline); [now rewrite IH|].
    rewrite IH. destruct (split_lines_cons a) as (line & more & ->). reflexivity.
Qed.

Lemma nonblank_app l1 l2 : nonblank (l1 ++ l2) = nonblank l1 ++ nonblank l2.
Proof. apply filter_app. Qed.

Lemma nonblank_blank : nonblank [""] = [].
Proof. reflexivity. Qed.

(** ** The chunking loop *)

(** The lines held by a state of the loop. *)
Definition held (st : list string * string) : list string :=
  flat_map split_lines st.1 ++ split_lines st.2.

Lemma chunk_step_held n st line :
  split_lines line = [line] ->
  nonblank (held (chunk_step n st line)) = nonblank (held st) ++ nonblank [line].
Proof.
  intros Hline. destruct st as [chunks current]. unfold chunk_step, held.
  destruct (n <? _)%nat; cbn [fst snd].
  - rewrite flat_map_app. cbn [flat_map]. rewrite app_nil_r, Hline.
    rewrite !nonblank_app, <- ?app_assoc. reflexivity.
  - unfold separator. destruct (String.eqb current "") eqn:He.
    + apply String.eqb_eq in He. subst current.
      change ("" +:+ "" +:+ line) with line. change (split_lines "") with [""].
      rewrite Hline, !nonblank_app, nonblank_blank, app_nil_r. reflexivity.
    + rewrite split_lines_join, Hline. rewrite !nonblank_app, <- ?app_assoc. reflexivity.
Qed.

Lemma chunk_loop_held n lines : forall st,
  Forall (fun line => split_lines line = [line]) lines ->
  nonblank (held (fold_left (chunk_step n) lines st)) = nonblank (held st) ++ nonblank lines.
Proof.
  induction lines as [|line rest IH]; intros st Hall; simpl.
  - now rewrite app_nil_r.
  - inversion Hall as [|? ? Hline Hrest]; subst.
    rewrite (IH _ Hrest), (chunk_step_held _ _ _ Hline), <- app_assoc.
    now rewrite <- nonblank_app.
Qed.

(** The chunks cut a text at line ends only: their lines that are not
    empty are, in order, those of the text. *)
Lemma chunkMessage_lines text n :
  nonblank (flat_map split_lines (chunkMessage text n)) = nonblank (split_lines text).
Proof.
  unfold chunkMessage.
  pose proof (chunk_loop_held n (split_lines text) ([], "") (split_lines_line text)) as H.
  destruct (fold_left (chunk_step n) (split_lines text) ([], "")) as [chunks current].
  unfold held in H. cbn [fst snd flat_map app] in H.
  change (nonblank (split_lines "")) with (@nil string) in H.
  cbn [app] in H. rewrite <- H.
  destruct (String.eqb current "") eqn:He.
  - apply String.eqb_eq in He. subst current.
    change (split_lines "") with [""].
    now rewrite nonblank_app, nonblank_blank, app_nil_r.
  - rewrite flat_map_app. cbn [flat_map]. now rewrite app_nil_r.
Qed.

(** A chunk fits the limit unless it is one line of the text. *)
Definition fits (n : nat) (lines : list string) (c : string) : Prop :=
  String.length c <= n \/ c ∈ lines.

Lemma chunk_step_fits n all st line :
  line ∈ all ->
  Forall (fits n all) st.1 -> fits n all st.2 ->
  Forall (fits n all) (chunk_step n st line).1 /\ fits n all (chunk_step n st line).2.
Proof.
  intros Hin Hchunks Hcur. destruct st as [chunks current]. unfold chunk_step.
  destruct (n <? _)%nat eqn:Hlt; cbn [fst snd] in *.
  - split; [|now right]. apply Forall_app. split; [exact Hchunks|].
    constructor; [exact Hcur | constructor].
  - split; [exact Hchunks|]. left.
    apply Nat.ltb_ge in Hlt. rewrite !length_append.
    pose proof (separator_length current). lia.
Qed.

Lemma chunk_loop_fits n all lines : forall st,
  (forall line, line ∈ lines -> line ∈ all) ->
  Forall (fits n all) st.1 -> fits n all st.2 ->
  Forall (fits n all) (fold_left (chunk_step n) lines st).1 /\
  fits n all (fold_left (chunk_step n) lines st).2.
Proof.
  induction lines as [|line rest IH]; intros st Hsub Hchunks Hcur; simpl.
  - now split.
  - destruct (chunk_step_fits n all st line) as [H1 H2]; auto.
    + apply Hsub. apply list_elem_of_here.
    + apply IH; auto. intros l Hl. apply Hsub. now apply list_elem_of_further.
Qed.

Lemma chunkMessage_fits text n :
  Forall (fits n (split_lines text)) (chunkMessage text n).
Proof.
  unfold chunkMessage.
  destruct (chunk_loop_fits n (split_lines text) (split_lines text) ([], ""))
    as [H1 H2]; auto.
  - left. cbn. lia.
  - destruct (fold_left (chunk_step n) (split_lines text) ([], "")) as [chunks current].
    cbn [fst snd] in *. destruct (String.eqb current ""); [exact H1|].
    apply Forall_app. split; [exact H1|]. constructor; [exact H2 | constructor].
Qed.

(** ** Sending *)

(** The message [sendMessage] posts for a chunk of a digest. *)
Definition digest_message (chunk : string) : Sent :=
  {| sent_text := slice0 4096 chunk; sent_parse_mode := Markdown |}.

Lemma sendMessage_outbox replies text mode outbox :
  (sendMessage replies text mode outbox).2 =
    outbox ++ [ {| sent_text := slice0 4096 text; sent_parse_mode := mode |} ].
Proof.
  unfold sendMessage. destruct (replies (length outbox)) as [msg|[|] body]; reflexivity.
Qed.

(** The loop posts the chunks in order, up to the first send that throws. *)
Lemma send_chunks_outbox replies chunks : forall outbox,
  exists k,
    (send_chunks replies chunks outbox).2 = outbox ++ map digest_message (take k chunks) /\
    ((send_chunks replies chunks outbox).1 = Returned tt -> take k chunks = chunks).
Proof.
  induction chunks as [|chunk rest IH]; intros outbox.
  - exists 0. simpl. now rewrite app_nil_r.
  - simpl. pose proof (sendMessage_outbox replies chunk Markdown outbox) as Hout.
    destruct (sendMessage replies chunk Markdown outbox) as [[[]|e] outbox'];
      cbn [snd] in Hout; subst outbox'.
    + destruct (IH (outbox ++ [ {| sent_text := slice0 4096 chunk;
                                    sent_parse_mode := Markdown |} ]))
        as (k & Hk & Hall).
      exists (S k). simpl. rewrite Hk, <- app_assoc. split; [reflexivity|].
      intros Hret. now rewrite (Hall Hret).
    + exists 1. simpl. rewrite take_0. split; [reflexivity | discriminate].
Qed.

(** C7 (as amended): [sendDigest] cuts the digest at line ends only:
    the lines of the chunks that are not empty are, in order, those of
    the digest, and a chunk longer than 4000 characters is one line of the
    digest.  It posts the chunks in order, each cut to its first 4096
    characters, so no body is longer than 4096; when no line of the digest
    is longer than 4096 characters every chunk is posted whole, and, if
    every send succeeds, every line that is not empty is a line of one of
    the messages. *)
Theorem sendDigest_line_boundaries replies digest outbox :
  let chunks := chunkMessage digest 4000 in
  nonblank (flat_map split_lines chunks) = nonblank (split_lines digest) /\
  (forall c, c ∈ chunks -> String.length c <= 4000 \/ c ∈ split_lines digest) /\
  (exists k,
     (sendDigest replies digest outbox).2 = outbox ++ map digest_message (take k chunks) /\
     ((sendDigest replies digest outbox).1 = Returned tt -> take k chunks = chunks)) /\
  (forall c, String.length (sent_text (digest_message c)) <= 4096) /\
  ((forall line, line ∈ split_lines digest -> String.length line <= 4096) ->
   (forall c, c ∈ chunks ->
      digest_message c = {| sent_text := c; sent_parse_mode := Markdown |}) /\
   ((sendDigest replies digest []).1 = Returned tt -> lines_sent_whole replies digest)).
Proof.
  intros chunks.
  pose proof (chunkMessage_fits digest 4000) as Hfits.
  rewrite Forall_forall in Hfits. fold chunks in Hfits.
  pose proof (chunkMessage_lines digest 4000) as Hkeep. fold chunks in Hkeep.
  split; [exact Hkeep|]. split; [exact Hfits|].
  split; [apply send_chunks_outbox|]. split.
  - intros c. cbn [sent_text digest_message]. rewrite slice0_length. lia.
  - intros Hlines.
    assert (Hwhole : forall c, c ∈ chunks ->
              digest_message c = {| sent_text := c; sent_parse_mode := Markdown |}).
    { intros c Hc. unfold digest_message. f_equal.
      apply slice0_short. destruct (Hfits c Hc) as [Hlen | Hin]; [lia|].
      now apply Hlines. }
    split; [exact Hwhole|].
    intros Hok line Hline Hne.
    assert (Hin : line ∈ nonblank (flat_map split_lines chunks)).
    { rewrite Hkeep. unfold nonblank. apply list_elem_of_filter. now split. }
    apply list_elem_of_filter in Hin as [_ Hin].
    apply list_elem_of_In, in_flat_map in Hin as (c & Hc & Hl).
    apply list_elem_of_In in Hc, Hl.
    destruct (send_chunks_outbox replies chunks []) as (k & Hout & Hall).
    change (send_chunks replies chunks []) with (sendDigest replies digest []) in Hout, Hall.
    exists (digest_message c). split.
    + rewrite Hout, (Hall Hok). cbn [app].
      now apply (list_elem_of_fmap_2 digest_message).
    + now rewrite (Hwhole c Hc).
Qed.

End TelegramFacts.

Section TelegramWitnesses.
Import Telegram Examples.

Lemma sendDigest_line_boundaries_witness :
  (sendDigest telegram_up two_lines []).2 =
    [ {| sent_text := two_lines; sent_parse_mode := Markdown |} ] /\
  digest_message two_lines = {| sent_text := two_lines; sent_parse_mode := Markdown |} /\
  lines_sent_whole telegram_up two_lines.
Proof.
  assert (Hshort : forall line, line ∈ split_lines two_lines -> String.length line <= 4096)
    by (apply Forall_forall; apply (bool_decide_unpack _); vm_compute; reflexivity).
  destruct (proj2 (proj2 (proj2 (proj2
              (sendDigest_line_boundaries telegram_up two_lines []))))) as [Hwhole Hlines];
    [exact Hshort|].
  split; [reflexivity|]. split.
  - apply Hwhole. apply list_elem_of_here.
  - apply Hlines. reflexivity.
Defined.

(** C7, as the specification words it, fails on a digest whose second
    line has 4097 characters: the bodies posted are the first line and the
    first 4096 characters of the second, so the second line is a line of
    no message. *)
Lemma sendDigest_truncates_counterexample :
  split_lines long_digest = ["Weekly digest"; long_line] /\
  (sendDigest telegram_up long_digest []).1 = Returned tt /\
  map sent_text (sendDigest telegram_up long_digest []).2 =
    ["Weekly digest"; repeat_char "a"%char 4096] /\
  ~ lines_sent_whole telegram_up long_digest.
Proof.
  assert (Hlines : split_lines long_digest = ["Weekly digest"; long_line])
    by (vm_compute; reflexivity).
  assert (Hsent : (sendDigest telegram_up long_digest []).2 =
                    [ {| sent_text := "Weekly digest"; sent_parse_mode := Markdown |};
                      {| sent_text := repeat_char "a"%char 4096; sent_parse_mode := Markdown |} ])
    by (vm_compute; reflexivity).
  split; [exact Hlines|]. split; [vm_compute; reflexivity|].
  split; [now rewrite Hsent|].
  intros H. destruct (H long_line) as (m & Hm & Hline).
  - rewrite Hlines. apply list_elem_of_further, list_elem_of_here.
  - intros Heq. apply (f_equal String.length) in Heq. vm_compute in Heq. discriminate.
  - rewrite Hsent in Hm.
    assert (Hlen : forall m', m' ∈ split_lines (sent_text m) -> String.length m' <= 4096).
    { apply Forall_forall.
      apply elem_of_cons in Hm as [-> | Hm];
        [|apply elem_of_cons in Hm as [-> | Hm]; [|inversion Hm]];
        apply (bool_decide_unpack _); vm_compute; reflexivity. }
    specialize (Hlen _ Hline). vm_compute in Hlen. lia.
Qed.

End TelegramWitnesses.

(* ================================================================== *)
(** * Properties of the aggregates *)
(* ================================================================== *)

(** The manual tally of a tag: how many of the tags are the same [Map]
    key. *)
Definition tally (key : Js.Value) (tags : list Js.Value) : nat :=
  length (filter (fun t => Js.sameValueZero t key = true) tags).

(** The tags [getWeeklyStats] counts for a row: those of its payload
    when the payload parses and its tags can be iterated. *)
Definition counted_tags (rt : Js.Runtime) (row : string * Db.Row) : list Js.Value :=
  match Stats.payload_analysis rt (Stats.row_raw_data row) with
  | Some analysis => default [] (Stats.analysis_tags analysis)
  | None => []
  end.

(** The highlight a row qualifies for: its payload parses, its tags can
    be iterated, and its [relevanceScore] compares [>= 8]. *)
Definition row_highlight (rt : Js.Runtime) (row : string * Db.Row) : option Stats.Highlight :=
  match Stats.payload_analysis rt (Stats.row_raw_data row) with
  | Some analysis =>
      match Stats.analysis_tags analysis, Js.ge rt (Js.get_opt analysis "relevanceScore") 8%float with
      | Some _, Some true =>
          Some {| Stats.h_tweetId := Stats.row_tweet_id row;
                  Stats.h_summary := Js.or_else (Js.property analysis "summary") (Js.Str "");
                  Stats.h_category := Stats.row_category row |}
      | _, _ => None
      end
  | None => None
  end.

(** The entries of a [Map] under a key. *)
Definition entries_of (key : Js.Value) (m : list (Js.Value * nat)) : list (Js.Value * nat) :=
  filter (fun e => Js.sameValueZero e.1 key = true) m.

(** A key that only equals itself: a string, for one. *)
Definition exact_key (key : Js.Value) : Prop :=
  Js.sameValueZero key key = true /\
  (forall other, Js.sameValueZero other key = true -> other = key) /\
  (forall other, Js.sameValueZero key other = true -> other = key).

(** An entry list that holds the count [c] for a key: no entry when [c]
    is zero, one entry otherwise. *)
Definition holds (key : Js.Value) (c : nat) (m : list (Js.Value * nat)) : Prop :=
  (c = 0 /\ entries_of key m = []) \/ (c <> 0 /\ entries_of key m = [(key, c)]).

(** The order of [topTags]: counts do not increase. *)
Definition by_count (a b : Js.Value * nat) : Prop := b.2 <= a.2.

Section StatsFacts.
Import Db Stats.

(** ** Plain objects keyed by category *)

Lemma read_assign_same {V : Type} c (n : V) acc : read c (assign c n acc) = Some n.
Proof.
  induction acc as [|[k m] rest IH]; simpl.
  - now rewrite decide_True.
  - destruct (decide (k = c)) as [->|Hne]; simpl.
    + now rewrite decide_True.
    + now rewrite decide_False.
Qed.

Lemma read_assign_other {V : Type} c c' (n : V) acc :
  c <> c' -> read c (assign c' n acc) = read c acc.
Proof.
  intros Hne. induction acc as [|[k m] rest IH]; simpl.
  - now rewrite decide_False by congruence.
  - destruct (decide (k = c')) as [->|Hk]; simpl.
    + now rewrite !decide_False by congruence.
    + destruct (decide (k = c)); [reflexivity | exact IH].
Qed.

Lemma count_category_cons c r rows :
  count_category c (r :: rows) =
    (if decide (row_category r = c) then 1 else 0) + count_category c rows.
Proof.
  unfold count_category. rewrite filter_cons.
  destruct (decide (row_category r = c)); reflexivity.
Qed.

(** The counting loop: what [byCategory] holds under a category is the
    number of rows of that category, on top of what it held. *)
Lemma count_categories_read c rows : forall acc,
  default 0 (read c (fold_left count_row_category (map row_category rows) acc)) =
    default 0 (read c acc) + count_category c rows /\
  (read c (fold_left count_row_category (map row_category rows) acc) = None <->
     read c acc = None /\ count_category c rows = 0).
Proof.
  induction rows as [|r rest IH]; intros acc.
  - cbn. split; [lia|]. intuition.
  - cbn [map fold_left]. destruct (IH (count_row_category acc (row_category r))) as [IH1 IH2].
    rewrite IH1, IH2, count_category_cons. unfold count_row_category.
    destruct (decide (row_category r = c)) as [->|Hne].
    + rewrite read_assign_same. cbn. split; [lia|]. split; [intros [? _]; discriminate | lia].
    + rewrite read_assign_other by congruence. cbn. split; [lia|]. intuition.
Qed.

Lemma count_categories_from_empty c rows :
  read c (fold_left count_row_category (map row_category rows) []) =
    if decide (count_category c rows = 0) then None else Some (count_category c rows).
Proof.
  destruct (count_categories_read c rows []) as [H1 H2]. cbn in H1, H2.
  destruct (decide (count_category c rows = 0)) as [Hz|Hnz].
  - apply H2. now split.
  - destruct (read c _) as [n|] eqn:Hr.
    + cbn in H1. now subst n.
    + exfalso. apply Hnz. now apply H2.
Qed.

(** ** The loop of [getWeeklyStats], one component at a time *)

Variable rt : Js.Runtime.

Lemma try_body_tags row tc hl :
  (try_body rt row tc hl).1 = fold_left count_tag (counted_tags rt row) tc.
Proof.
  unfold try_body, counted_tags.
  destruct (payload_analysis rt (row_raw_data row)) as [analysis|]; [|reflexivity].
  destruct (analysis_tags analysis) as [tags|]; [|reflexivity].
  destruct (Js.ge rt _ _) as [[|]|]; cbn [default]; try reflexivity.
  destruct (length hl <? 10)%nat; reflexivity.
Qed.

Lemma try_body_highlights row tc hl :
  (try_body rt row tc hl).2 =
    match row_highlight rt row with
    | Some h => if (length hl <? 10)%nat then hl ++ [h] else hl
    | None => hl
    end.
Proof.
  unfold try_body, row_highlight.
  destruct (payload_analysis rt (row_raw_data row)) as [analysis|]; [|reflexivity].
  destruct (analysis_tags analysis) as [tags|]; [|reflexivity].
  destruct (Js.ge rt _ _) as [[|]|]; try reflexivity.
  cbn [andb]. destruct (length hl <? 10)%nat; reflexivity.
Qed.

Lemma loop_body_components acc row :
  acc_byCategory (loop_body rt acc row) =
    count_row_category (acc_byCategory acc) (row_category row) /\
  acc_tagCounts (loop_body rt acc row) =
    fold_left count_tag (counted_tags rt row) (acc_tagCounts acc) /\
  acc_highlights (loop_body rt acc row) =
    match row_highlight rt row with
    | Some h =>
        if (length (acc_highlights acc) <? 10)%nat
        then acc_highlights acc ++ [h] else acc_highlights acc
    | None => acc_highlights acc
    end.
Proof.
  unfold loop_body.
  rewrite <- try_body_tags with (hl := acc_highlights acc).
  rewrite <- try_body_highlights with (tc := acc_tagCounts acc).
  destruct (try_body rt row (acc_tagCounts acc) (acc_highlights acc)) as [tc hl].
  now repeat split.
Qed.

Lemma loop_byCategory rows : forall acc,
  acc_byCategory (fold_left (loop_body rt) rows acc) =
    fold_left count_row_category (map row_category rows) (acc_byCategory acc).
Proof.
  induction rows as [|row rest IH]; intros acc; [reflexivity|].
  cbn [fold_left map]. rewrite IH.
  now destruct (loop_body_components acc row) as (-> & _ & _).
Qed.

Lemma loop_tagCounts rows : forall acc,
  acc_tagCounts (fold_left (loop_body rt) rows acc) =
    fold_left count_tag (flat_map (counted_tags rt) rows) (acc_tagCounts acc).
Proof.
  induction rows as [|row rest IH]; intros acc; [reflexivity|].
  cbn [fold_left flat_map]. rewrite IH, fold_left_app.
  now destruct (loop_body_components acc row) as (_ & -> & _).
Qed.

(** The highlights grow by the qualifying rows, in the order of the
    rows, until there are ten. *)
Lemma loop_highlights rows : forall acc,
  length (acc_highlights acc) <= 10 ->
  acc_highlights (fold_left (loop_body rt) rows acc) =
    acc_highlights acc ++
    take (10 - length (acc_highlights acc)) (omap (row_highlight rt) rows).
Proof.
  induction rows as [|row rest IH]; intros acc Hlen.
  - cbn. now rewrite take_nil, app_nil_r.
  - cbn [fold_left omap list_omap].
    destruct (loop_body_components acc row) as (_ & _ & Hh).
    destruct (row_highlight rt row) as [h|].
    + destruct (length (acc_highlights acc) <? 10)%nat eqn:Hlt.
      * apply Nat.ltb_lt in Hlt.
        rewrite IH by (rewrite Hh, length_app; cbn; lia).
        rewrite Hh, length_app. cbn [length].
        replace (10 - length (acc_highlights acc))
          with (S (10 - (length (acc_highlights acc) + 1))) by lia.
        cbn [take]. now rewrite <- app_assoc.
      * apply Nat.ltb_ge in Hlt.
        rewrite IH by (rewrite Hh; lia). rewrite Hh.
        replace (10 - length (acc_highlights acc)) with 0 by lia.
        now rewrite !take_0.
    + rewrite IH by (rewrite Hh; lia). now rewrite Hh.
Qed.

(** ** The [Map] of tag counts *)

Lemma exact_key_Str s : exact_key (Js.Str s).
Proof.
  unfold exact_key. cbn. split; [apply String.eqb_refl|]. split.
  - intros [] H; try discriminate. f_equal. now apply String.eqb_eq.
  - intros [] H; try discriminate. f_equal. symmetry. now apply String.eqb_eq.
Qed.

Lemma exact_key_differs key t :
  exact_key key -> Js.sameValueZero t key = false ->
  forall e, Js.sameValueZero e t = true -> Js.sameValueZero e key = false.
Proof.
  intros (Hrefl & Hl & Hr) Hne e He.
  destruct (Js.sameValueZero e key) eqn:Hek; [|reflexivity].
  apply Hl in Hek. subst e. apply Hr in He. subst t. congruence.
Qed.

Lemma map_get_entries key m : map_get key m = snd <$> head (entries_of key m).
Proof.
  unfold entries_of. induction m as [|[k n] rest IH]; [reflexivity|].
  cbn [map_get]. rewrite filter_cons. cbn [fst].
  destruct (Js.sameValueZero k key) eqn:Hk.
  - rewrite decide_True by reflexivity. reflexivity.
  - rewrite decide_False by discriminate. exact IH.
Qed.

Lemma entries_map_set_other key t n m :
  exact_key key -> Js.sameValueZero t key = false ->
  entries_of key (map_set t n m) = entries_of key m.
Proof.
  intros Hkey Hne. unfold entries_of.
  induction m as [|[k c] rest IH]; cbn [map_set].
  - rewrite filter_cons. cbn [fst]. now rewrite decide_False by congruence.
  - destruct (Js.sameValueZero k t) eqn:Hkt.
    + pose proof (exact_key_differs key t Hkey Hne k Hkt) as Hk.
      rewrite !filter_cons. cbn [fst]. now rewrite !decide_False by congruence.
    + rewrite !filter_cons. cbn [fst]. now rewrite IH.
Qed.

Lemma entries_map_set_same key n m :
  exact_key key ->
  entries_of key (map_set key n m) =
    match entries_of key m with
    | [] => [(key, n)]
    | _ :: rest => (key, n) :: rest
    end.
Proof.
  intros (Hrefl & Hl & Hr). unfold entries_of.
  induction m as [|[k c] rest IH]; cbn [map_set].
  - rewrite filter_cons. cbn [fst]. now rewrite decide_True.
  - destruct (Js.sameValueZero k key) eqn:Hk.
    + rewrite (Hl k Hk). rewrite !filter_cons. cbn [fst].
      now rewrite !decide_True.
    + rewrite !filter_cons. cbn [fst]. rewrite !decide_False by congruence.
      exact IH.
Qed.

Lemma holds_get key c m : holds key c m -> default 0 (map_get key m) = c.
Proof.
  rewrite map_get_entries. intros [[-> ->] | [_ ->]]; reflexivity.
Qed.

Lemma tally_cons key t tags :
  tally key (t :: tags) = (if Js.sameValueZero t key then 1 else 0) + tally key tags.
Proof.
  unfold tally. rewrite filter_cons.
  destruct (Js.sameValueZero t key).
  - now rewrite decide_True.
  - now rewrite decide_False by discriminate.
Qed.

Lemma count_tag_holds key c m t :
  exact_key key -> holds key c m ->
  holds key (c + if Js.sameValueZero t key then 1 else 0) (count_tag m t).
Proof.
  intros Hkey Hm. unfold count_tag.
  destruct (Js.sameValueZero t key) eqn:Ht.
  - destruct Hkey as (Hrefl & Hl & Hr). rewrite (Hl t Ht).
    right. split; [lia|].
    rewrite entries_map_set_same by (repeat split; assumption).
    rewrite (holds_get key c m Hm).
    destruct Hm as [[_ ->] | [_ ->]]; reflexivity.
  - rewrite Nat.add_0_r. unfold holds.
    now rewrite entries_map_set_other.
Qed.

Lemma count_tags_hold key tags : forall c m,
  exact_key key -> holds key c m ->
  holds key (c + tally key tags) (fold_left count_tag tags m).
Proof.
  induction tags as [|t rest IH]; intros c m Hkey Hm.
  - cbn. now rewrite Nat.add_0_r.
  - cbn [fold_left]. rewrite tally_cons, Nat.add_assoc.
    apply IH; [exact Hkey|]. now apply count_tag_holds.
Qed.

(** What the [Map] holds under an exact key is the tally of that key. *)
Lemma tagCounts_tally key tags n :
  exact_key key ->
  (key, n) ∈ fold_left count_tag tags [] ->
  n = tally key tags /\ n <> 0.
Proof.
  intros Hkey Hin.
  pose proof (count_tags_hold key tags 0 [] Hkey (or_introl (conj eq_refl eq_refl))) as H.
  cbn [Nat.add] in H.
  assert (Hent : (key, n) ∈ entries_of key (fold_left count_tag tags [])).
  { apply list_elem_of_filter. split; [|exact Hin]. apply Hkey. }
  destruct H as [[_ Hnil] | [Hnz Hone]].
  - rewrite Hnil in Hent. inversion Hent.
  - rewrite Hone in Hent. apply list_elem_of_singleton in Hent.
    injection Hent as ->. now split.
Qed.

(** ** Sorting the entries *)

Lemma elem_of_insert_by_count x e l :
  x ∈ insert_by_count e l <-> x = e \/ x ∈ l.
Proof.
  induction l as [|y rest IH]; cbn [insert_by_count].
  - rewrite list_elem_of_singleton. split; [auto|]. intros [H|H]; [exact H | inversion H].
  - destruct (e.2 <? y.2)%nat.
    + rewrite !elem_of_cons, IH. tauto.
    + rewrite !elem_of_cons. tauto.
Qed.

Lemma elem_of_sort_by_count x l : x ∈ sort_by_count l <-> x ∈ l.
Proof.
  unfold sort_by_count. induction l as [|y rest IH]; cbn [fold_right]; [reflexivity|].
  rewrite elem_of_insert_by_count, IH, elem_of_cons. tauto.
Qed.

Lemma insert_by_count_sorted e l :
  StronglySorted by_count l -> StronglySorted by_count (insert_by_count e l).
Proof.
  induction 1 as [|y rest Hs IH Hall]; cbn [insert_by_count].
  - repeat constructor.
  - destruct (e.2 <? y.2)%nat eqn:Hlt.
    + apply Nat.ltb_lt in Hlt. constructor; [exact IH|].
      apply Forall_forall. intros x Hx. apply elem_of_insert_by_count in Hx as [->|Hx].
      * unfold by_count. lia.
      * rewrite Forall_forall in Hall. now apply Hall.
    + apply Nat.ltb_ge in Hlt. constructor; [now constructor|].
      constructor; [unfold by_count; lia|].
      eapply Forall_impl; [exact Hall|]. unfold by_count. intros x Hx. lia.
Qed.

Lemma sort_by_count_sorted l : StronglySorted by_count (sort_by_count l).
Proof.
  unfold sort_by_count. induction l as [|y rest IH]; cbn [fold_right].
  - constructor.
  - now apply insert_by_count_sorted.
Qed.

Lemma StronglySorted_take {A : Type} (R : A -> A -> Prop) n : forall l,
  StronglySorted R l -> StronglySorted R (take n l).
Proof.
  induction n as [|n IH]; intros l Hs; [constructor|].
  destruct Hs as [|x l Hs Hall]; cbn [take]; [constructor|].
  constructor; [now apply IH|].
  apply Forall_forall. intros y Hy. rewrite Forall_forall in Hall.
  apply Hall. now apply elem_of_take in Hy as (i & Hy & _); apply list_elem_of_lookup_2 in Hy.
Qed.

(** ** The rows of the window *)

#[local] Instance newer_first_total rowid : Total (newer_first rowid).
Proof.
  intros a b. unfold newer_first.
  rewrite (String.eqb_sym (row_processed_at b) (row_processed_at a)).
  destruct (String.eqb (row_processed_at a) (row_processed_at b)).
  - apply Nat.le_ge_cases.
  - destruct (String.leb_total (row_processed_at b) (row_processed_at a)); auto.
Qed.

Lemma select_since_Permutation cutoff rowid (d : Ledger) :
  select_since cutoff rowid d ≡ₚ filter (in_window cutoff) (map_to_list d).
Proof. unfold select_since. apply merge_sort_Permutation. Qed.

Lemma elem_of_select_since cutoff rowid (d : Ledger) tid row :
  (tid, row) ∈ select_since cutoff rowid d <->
  d !! tid = Some row /\ String.leb cutoff (processed_at row) = true.
Proof.
  rewrite select_since_Permutation, list_elem_of_filter, elem_of_map_to_list.
  unfold in_window, row_processed_at. cbn [snd]. tauto.
Qed.

Lemma select_since_NoDup cutoff rowid (d : Ledger) : NoDup (select_since cutoff rowid d).
Proof.
  rewrite select_since_Permutation. apply NoDup_filter, NoDup_map_to_list.
Qed.

Lemma compare_not_Gt_trans a : forall b c,
  String.compare a b <> Gt -> String.compare b c <> Gt -> String.compare a c <> Gt.
Proof.
  induction a as [|x a IH]; intros [|y b] [|z c]; cbn; try congruence.
  unfold Ascii.compare.
  destruct (N.compare_spec (N_of_ascii x) (N_of_ascii y)),
           (N.compare_spec (N_of_ascii y) (N_of_ascii z)),
           (N.compare_spec (N_of_ascii x) (N_of_ascii z));
    try lia; try congruence.
  apply IH.
Qed.

Lemma leb_trans a b c :
  String.leb a b = true -> String.leb b c = true -> String.leb a c = true.
Proof.
  unfold String.leb. intros Hab Hbc.
  pose proof (compare_not_Gt_trans a b c) as H.
  destruct (String.compare a b), (String.compare b c), (String.compare a c);
    try reflexivity; try discriminate; exfalso; apply H; congruence.
Qed.

#[local] Instance newer_first_trans rowid : Transitive (newer_first rowid).
Proof.
  intros a b c. unfold newer_first.
  destruct (String.eqb_spec (row_processed_at a) (row_processed_at b)) as [Hab|Hab];
    destruct (String.eqb_spec (row_processed_at b) (row_processed_at c)) as [Hbc|Hbc];
    destruct (String.eqb_spec (row_processed_at a) (row_processed_at c)) as [Hac|Hac];
    intros H1 H2; try congruence; try lia.
  - exfalso. apply Hab. apply String.leb_antisym; [|exact H1]. now rewrite Hac.
  - now apply (leb_trans _ (row_processed_at b)).
Qed.

(** The rows come newest first, and among rows of equal [processed_at]
    the one of the higher rowid first. *)
Lemma select_since_Sorted cutoff rowid (d : Ledger) :
  StronglySorted (newer_first rowid) (select_since cutoff rowid d).
Proof.
  apply Sorted_StronglySorted; [apply _|].
  unfold select_since. apply Sorted_merge_sort. apply _.
Qed.

(** In a sorted list an element is among the first [n], or the first
    [n] are all there and all come before it. *)
Lemma take_or_beyond {A : Type} (R : A -> A -> Prop) n (l : list A) x :
  StronglySorted R l -> x ∈ l ->
  x ∈ take n l \/ (length (take n l) = n /\ forall e, e ∈ take n l -> R e x).
Proof.
  intros Hs Hx. rewrite <- (take_drop n l) in Hx, Hs.
  apply elem_of_app in Hx as [Hx|Hx]; [now left|]. right. split.
  - rewrite length_take. apply Nat.min_l.
    destruct (Nat.le_gt_cases n (length l)) as [Hle|Hgt]; [exact Hle|].
    rewrite drop_ge in Hx by lia. inversion Hx.
  - revert Hs. generalize (take n l) as front. intros front.
    induction front as [|y front IH]; intros Hs e He; [inversion He|].
    cbn [app] in Hs. apply StronglySorted_inv in Hs as [Hs Hall].
    apply elem_of_cons in He as [->|He]; [|now apply IH].
    rewrite Forall_forall in Hall. apply Hall. apply elem_of_app. now right.
Qed.

(** ** The aggregate over the rows of a query *)

Lemma aggregate_spec rows :
  totalProcessed (aggregate rt rows) = length rows /\
  (forall c, read c (byCategory (aggregate rt rows)) =
     if decide (count_category c rows = 0) then None else Some (count_category c rows)) /\
  (forall key n, exact_key key -> (key, n) ∈ topTags (aggregate rt rows) ->
     n = tally key (flat_map (counted_tags rt) rows)) /\
  length (topTags (aggregate rt rows)) <= 10 /\
  StronglySorted by_count (topTags (aggregate rt rows)) /\
  highlights (aggregate rt rows) = take 10 (omap (row_highlight rt) rows).
Proof.
  unfold aggregate. cbn [totalProcessed byCategory topTags highlights].
  split; [reflexivity|]. split; [|split; [|split; [|split]]].
  - intros c. rewrite loop_byCategory. apply count_categories_from_empty.
  - intros key n Hkey Hin. rewrite loop_tagCounts in Hin.
    apply elem_of_take in Hin as (i & Hin & _). apply list_elem_of_lookup_2 in Hin.
    apply (proj1 (elem_of_sort_by_count _ _)) in Hin. cbn [acc_tagCounts] in Hin.
    now apply tagCounts_tally in Hin as [-> _].
  - rewrite length_take. lia.
  - apply StronglySorted_take, sort_by_count_sorted.
  - rewrite loop_highlights by (cbn; lia). reflexivity.
Qed.

(** The tags listed carry their tally, and a tag that was counted is
    listed unless ten entries with counts no lower are. *)
Lemma aggregate_tags rows key :
  exact_key key ->
  let n := tally key (flat_map (counted_tags rt) rows) in
  (forall m, (key, m) ∈ topTags (aggregate rt rows) -> m = n /\ 0 < m) /\
  (0 < n ->
   (key, n) ∈ topTags (aggregate rt rows) \/
   (length (topTags (aggregate rt rows)) = 10 /\
    forall e, e ∈ topTags (aggregate rt rows) -> n <= e.2)).
Proof.
  intros Hkey n. unfold aggregate. cbn [topTags]. rewrite loop_tagCounts.
  cbn [acc_tagCounts]. fold n. split.
  - intros m Hin.
    apply elem_of_take in Hin as (i & Hin & _). apply list_elem_of_lookup_2 in Hin.
    apply (proj1 (elem_of_sort_by_count _ _)) in Hin.
    apply tagCounts_tally in Hin as [-> Hnz]; [|exact Hkey]. split; [reflexivity|].
    fold n in Hnz. lia.
  - intros Hpos.
    pose proof (count_tags_hold key (flat_map (counted_tags rt) rows) 0 [] Hkey
                  (or_introl (conj eq_refl eq_refl))) as Hholds.
    cbn [Nat.add] in Hholds. fold n in Hholds.
    destruct Hholds as [[Hz _] | [_ Hone]]; [lia|].
    assert (Hin : (key, n) ∈ fold_left count_tag (flat_map (counted_tags rt) rows) []).
    { assert (He : (key, n) ∈ entries_of key
                     (fold_left count_tag (flat_map (counted_tags rt) rows) []))
        by (rewrite Hone; apply list_elem_of_here).
      now apply list_elem_of_filter in He as [_ He]. }
    apply (proj2 (elem_of_sort_by_count _ _)) in Hin.
    destruct (take_or_beyond by_count 10 _ _ (sort_by_count_sorted _) Hin)
      as [Hlisted | [Hlen Hall]]; [now left|].
    right. split; [exact Hlen|]. intros e He. exact (Hall e He).
Qed.

Lemma row_highlight_Some row h :
  row_highlight rt row = Some h ->
  h_tweetId h = row.1 /\ h_category h = row_category row /\
  exists analysis,
    payload_analysis rt (row_raw_data row) = Some analysis /\
    Js.ge rt (Js.get_opt analysis "relevanceScore") 8%float = Some true.
Proof.
  unfold row_highlight.
  destruct (payload_analysis rt (row_raw_data row)) as [analysis|]; [|discriminate].
  destruct (analysis_tags analysis); [|discriminate].
  destruct (Js.ge rt _ _) as [[|]|] eqn:Hge; try discriminate.
  intros [= <-]. cbn. split; [reflexivity|]. split; [reflexivity|]. now exists analysis.
Qed.

(** C6: [getWeeklyStats] works on the records whose [processed_at] is
    not before the ISO text of the date seven days back, and on no
    others, in the order of the query: newest first, and among records of
    equal [processed_at] the one written last first.  [totalProcessed] is
    their number and [byCategory] holds for each category the number of
    them with that category.  Each string tag listed in [topTags] carries
    the tally of that tag over the payloads that parse, and each string
    tag of those payloads is listed with its tally, unless ten entries
    with counts no lower are listed; [topTags] has at most ten entries, by
    falling count.  [highlights] are the first ten, in the order of the
    rows, of the rows whose [relevanceScore] compares [>= 8]; on a number
    that comparison is the one of the floating-point numbers. *)
Theorem getWeeklyStats_window now rowid (d : Ledger) :
  let cutoff := Js.Date_toISOString rt (Js.Date_setDate rt now (Js.Date_getDate rt now - 7)) in
  let rows := select_since cutoff rowid d in
  let ws := getWeeklyStats rt now rowid d in
  let tags := flat_map (counted_tags rt) rows in
  (forall tid row,
     (tid, row) ∈ rows <->
     d !! tid = Some row /\ String.leb cutoff (processed_at row) = true) /\
  NoDup rows /\
  StronglySorted (newer_first rowid) rows /\
  totalProcessed ws = length rows /\
  (forall c, read c (byCategory ws) =
     if decide (count_category c rows = 0) then None else Some (count_category c rows)) /\
  (forall s n, (Js.Str s, n) ∈ topTags ws -> n = tally (Js.Str s) tags /\ 0 < n) /\
  (forall s, 0 < tally (Js.Str s) tags ->
     (Js.Str s, tally (Js.Str s) tags) ∈ topTags ws \/
     (length (topTags ws) = 10 /\
      forall e, e ∈ topTags ws -> tally (Js.Str s) tags <= e.2)) /\
  length (topTags ws) <= 10 /\
  StronglySorted by_count (topTags ws) /\
  highlights ws = take 10 (omap (row_highlight rt) rows) /\
  length (highlights ws) <= 10 /\
  (forall h, h ∈ highlights ws ->
     exists row analysis,
       row ∈ rows /\ h_tweetId h = row.1 /\ h_category h = row_category row /\
       payload_analysis rt (row_raw_data row) = Some analysis /\
       Js.ge rt (Js.get_opt analysis "relevanceScore") 8%float = Some true) /\
  (forall x, Js.ge rt (Js.Num x) 8%float = Some (PrimFloat.leb 8%float x)).
Proof.
  intros cutoff rows ws tags.
  destruct (aggregate_spec rows) as (Htot & Hcat & _ & Hlen & Hsorted & Hhl).
  fold (weekAgoStr rt now) in cutoff. fold cutoff rows in ws.
  change (getWeeklyStats rt now rowid d) with (aggregate rt rows) in ws. subst ws.
  split; [intros tid row; apply elem_of_select_since|].
  split; [apply select_since_NoDup|].
  split; [apply select_since_Sorted|].
  split; [exact Htot|]. split; [exact Hcat|].
  split; [intros s n; apply (aggregate_tags rows (Js.Str s) (exact_key_Str s))|].
  split; [intros s; apply (aggregate_tags rows (Js.Str s) (exact_key_Str s))|].
  split; [exact Hlen|]. split; [exact Hsorted|]. split; [exact Hhl|].
  split; [rewrite Hhl, length_take; lia|].
  split; [|reflexivity].
  intros h Hh. rewrite Hhl in Hh.
  apply elem_of_take in Hh as (i & Hh & _). apply list_elem_of_lookup_2 in Hh.
  apply list_elem_of_omap in Hh as (row & Hrow & Hsome).
  destruct (row_highlight_Some row h Hsome) as (Hid & Hc & analysis & Hpa & Hge).
  exists row, analysis. now repeat split.
Qed.

End StatsFacts.

(** ** The aggregates and the lifecycle state *)

Section StatusBlindFacts.
Import Db Stats.

Variable rt : Js.Runtime.

(** Counting the rows of a ledger that satisfy a predicate. *)
Definition count_rows (P : string * Row -> Prop) `{!forall r, Decision (P r)}
    (d : Ledger) : nat :=
  length (filter P (map_to_list d)).

Lemma count_rows_insert_fresh (P : string * Row -> Prop) `{!forall r, Decision (P r)}
    (d : Ledger) tid x :
  d !! tid = None ->
  count_rows P (<[tid := x]> d) = (if decide (P (tid, x)) then 1 else 0) + count_rows P d.
Proof.
  intros Hfresh. unfold count_rows.
  rewrite (map_to_list_insert d tid x Hfresh), filter_cons.
  destruct (decide (P (tid, x))); reflexivity.
Qed.

Lemma releaseLock_present tid st (d : Ledger) x :
  d !! tid = Some x ->
  releaseLock tid st d = <[tid := set_status st x]> (delete tid d).
Proof.
  intros Hx. apply map_eq. intros k. destruct (decide (tid = k)) as [<-|Hne].
  - rewrite releaseLock_same, Hx, lookup_insert_eq. reflexivity.
  - rewrite releaseLock_other, lookup_insert_ne, lookup_delete_ne by assumption.
    reflexivity.
Qed.

(** A predicate that does not look at the status counts the same rows
    before and after [releaseLock]. *)
Lemma count_rows_releaseLock (P : string * Row -> Prop) `{!forall r, Decision (P r)}
    (d : Ledger) tid st :
  (forall x, P (tid, set_status st x) <-> P (tid, x)) ->
  count_rows P (releaseLock tid st d) = count_rows P d.
Proof.
  intros Hblind. destruct (d !! tid) as [x|] eqn:Hx.
  - rewrite (releaseLock_present _ _ _ _ Hx).
    rewrite count_rows_insert_fresh by apply lookup_delete_eq.
    rewrite <- (insert_delete_id d tid x Hx) at 2.
    rewrite count_rows_insert_fresh by apply lookup_delete_eq.
    destruct (decide (P (tid, set_status st x))) as [Hp|Hp];
      destruct (decide (P (tid, x))) as [Hp'|Hp']; try reflexivity;
      exfalso; apply Hp || apply Hp'; now apply Hblind.
  - now rewrite releaseLock_absent.
Qed.

(** ** [getStats] *)

Lemma read_fold_assign c (groups : list (Category * nat)) : forall acc,
  NoDup (map fst groups) ->
  (forall n, (c, n) ∈ groups ->
     read c (fold_left (fun acc row => assign row.1 row.2 acc) groups acc) = Some n) /\
  (c ∉ map fst groups ->
     read c (fold_left (fun acc row => assign row.1 row.2 acc) groups acc) = read c acc).
Proof.
  induction groups as [|[k m] rest IH]; intros acc Hnd.
  - split; [intros n H; inversion H | reflexivity].
  - cbn [map fst] in Hnd. apply NoDup_cons in Hnd as [Hfresh Hnd].
    cbn [fold_left fst snd]. destruct (IH (assign k m acc) Hnd) as [IHin IHout].
    split.
    + intros n Hin. apply elem_of_cons in Hin as [[= -> ->] | Hin].
      * rewrite (IHout Hfresh). apply read_assign_same.
      * now apply IHin.
    + intros Hnotin. cbn [map fst] in Hnotin. apply not_elem_of_cons in Hnotin as [Hne Hnotin].
      rewrite (IHout Hnotin). now apply read_assign_other.
Qed.

Lemma group_keys (d : Ledger) :
  map fst (group_by_category d) =
    filter (fun c => count_category c (map_to_list d) <> 0) all_categories.
Proof.
  unfold group_by_category. induction all_categories as [|c rest IH]; [reflexivity|].
  cbn [map]. rewrite !filter_cons. cbn [snd].
  destruct (decide (count_category c (map_to_list d) <> 0)); cbn [map fst]; now rewrite IH.
Qed.

Lemma all_categories_complete c : c ∈ all_categories.
Proof. destruct c; unfold all_categories; set_solver. Qed.

Lemma filter_all {A : Type} (l : list A) : filter (fun _ => True) l = l.
Proof.
  induction l as [|x rest IH]; [reflexivity|].
  rewrite filter_cons_True by exact I. now rewrite IH.
Qed.

Lemma getStats_spec (d : Ledger) :
  total (getStats d) = count_rows (fun _ => True) d /\
  forall c, read c (stats_byCategory (getStats d)) =
    if decide (count_rows (fun r => row_category r = c) d = 0) then None
    else Some (count_rows (fun r => row_category r = c) d).
Proof.
  split.
  - cbn. unfold count_rows. rewrite <- length_map_to_list. f_equal.
    symmetry. apply filter_all.
  - intros c. cbn [getStats stats_byCategory].
    assert (Hnd : NoDup (map fst (group_by_category d))).
    { rewrite group_keys. apply NoDup_filter.
      apply (bool_decide_unpack _). vm_compute. reflexivity. }
    destruct (read_fold_assign c (group_by_category d) [] Hnd) as [Hin Hout].
    change (count_rows (fun r => row_category r = c) d)
      with (count_category c (map_to_list d)).
    destruct (decide (count_category c (map_to_list d) = 0)) as [Hz|Hnz].
    + rewrite Hout; [reflexivity|]. rewrite group_keys, list_elem_of_filter. tauto.
    + apply Hin. unfold group_by_category. apply list_elem_of_filter. split; [exact Hnz|].
      apply (list_elem_of_fmap_2 (fun c => (c, count_category c (map_to_list d)))).
      apply all_categories_complete.
Qed.

(** ** [getWeeklyStats] *)

Lemma getWeeklyStats_counts now rowid (d : Ledger) :
  totalProcessed (getWeeklyStats rt now rowid d) = count_rows (in_window (weekAgoStr rt now)) d /\
  forall c, read c (byCategory (getWeeklyStats rt now rowid d)) =
    if decide (count_rows (fun r => row_category r = c /\ in_window (weekAgoStr rt now) r) d = 0)
    then None
    else Some (count_rows (fun r => row_category r = c /\ in_window (weekAgoStr rt now) r) d).
Proof.
  unfold getWeeklyStats.
  destruct (aggregate_spec rt (select_since (weekAgoStr rt now) rowid d)) as (Htot & Hcat & _).
  split.
  - rewrite Htot. unfold count_rows. now rewrite select_since_Permutation.
  - intros c. rewrite Hcat.
    assert (Heq : count_category c (select_since (weekAgoStr rt now) rowid d) =
                  count_rows (fun r => row_category r = c /\ in_window (weekAgoStr rt now) r) d).
    { unfold count_category, count_rows.
      rewrite select_since_Permutation, list_filter_filter. reflexivity. }
    now rewrite Heq.
Qed.

Lemma default_count (r : option nat) n :
  r = (if decide (n = 0) then None else Some n) -> default 0 r = n.
Proof. intros ->. destruct (decide (n = 0)) as [->|]; reflexivity. Qed.

(** C9: neither aggregate looks at the status.  Every record of the
    window is among the rows of [getWeeklyStats], whatever its state;
    [getStats] counts all records and [getWeeklyStats] all records of the
    window, in total and by category.  The placeholder [tryLock] writes
    for a new identifier adds one to the total and to the count of
    'review' (in the weekly figures when the claim time lies in the
    window), and [releaseLock], to 'failed' or any other state, leaves
    every total and every count as it was, whatever rowids the rows have
    before and after. *)
Theorem stats_count_every_state now rowid rowid' (d : Ledger) :
  let cutoff := weekAgoStr rt now in
  (forall tid row,
     d !! tid = Some row -> String.leb cutoff (processed_at row) = true ->
     (tid, row) ∈ select_since cutoff rowid d) /\
  total (getStats d) = size d /\
  (forall c, default 0 (read c (stats_byCategory (getStats d))) =
             count_rows (fun r => row_category r = c) d) /\
  totalProcessed (getWeeklyStats rt now rowid d) = count_rows (in_window cutoff) d /\
  (forall c, default 0 (read c (byCategory (getWeeklyStats rt now rowid d))) =
             count_rows (fun r => row_category r = c /\ in_window cutoff r) d) /\
  (forall t tid, d !! tid = None ->
     let d' := (tryLock t tid d).2 in
     d' !! tid = Some (placeholder t) /\
     total (getStats d') = S (total (getStats d)) /\
     default 0 (read review (stats_byCategory (getStats d'))) =
       S (default 0 (read review (stats_byCategory (getStats d)))) /\
     (String.leb cutoff t = true ->
      totalProcessed (getWeeklyStats rt now rowid' d') = S (totalProcessed (getWeeklyStats rt now rowid d)) /\
      default 0 (read review (byCategory (getWeeklyStats rt now rowid' d'))) =
        S (default 0 (read review (byCategory (getWeeklyStats rt now rowid d)))))) /\
  (forall tid st,
     let d' := releaseLock tid st d in
     total (getStats d') = total (getStats d) /\
     (forall c, read c (stats_byCategory (getStats d')) = read c (stats_byCategory (getStats d))) /\
     totalProcessed (getWeeklyStats rt now rowid' d') = totalProcessed (getWeeklyStats rt now rowid d) /\
     (forall c, read c (byCategory (getWeeklyStats rt now rowid' d')) =
                read c (byCategory (getWeeklyStats rt now rowid d)))).
Proof.
  intros cutoff.
  split; [intros tid row Hrow Hwin; now apply elem_of_select_since|].
  split; [reflexivity|].
  split; [intros c; apply default_count, getStats_spec|].
  split; [apply getWeeklyStats_counts|].
  split; [intros c; apply default_count, getWeeklyStats_counts|].
  split.
  - intros t tid Hfresh d'. unfold d'. rewrite (tryLock_absent _ _ _ Hfresh). cbn [snd].
    split; [apply lookup_insert_eq|].
    split; [cbn; now apply map_size_insert_None|].
    split.
    + rewrite !(default_count _ _ (proj2 (getStats_spec _) review)).
      rewrite count_rows_insert_fresh by exact Hfresh.
      now rewrite decide_True by reflexivity.
    + intros Hwin.
      destruct (getWeeklyStats_counts now rowid' (<[tid := placeholder t]> d)) as [Ht' Hc'].
      destruct (getWeeklyStats_counts now rowid d) as [Ht Hc].
      rewrite Ht', Ht, (default_count _ _ (Hc' review)), (default_count _ _ (Hc review)).
      rewrite !count_rows_insert_fresh by exact Hfresh.
      rewrite !decide_True; [split; reflexivity | | ]; try split; try reflexivity; exact Hwin.
  - intros tid st d'. unfold d'.
    destruct (getStats_spec (releaseLock tid st d)) as [Ht' Hc'].
    destruct (getStats_spec d) as [Ht Hc].
    destruct (getWeeklyStats_counts now rowid' (releaseLock tid st d)) as [Hwt' Hwc'].
    destruct (getWeeklyStats_counts now rowid d) as [Hwt Hwc].
    split; [rewrite Ht', Ht; now apply count_rows_releaseLock|].
    split; [intros c; rewrite Hc', Hc, count_rows_releaseLock; [reflexivity | reflexivity]|].
    split; [rewrite Hwt', Hwt; now apply count_rows_releaseLock|].
    intros c. rewrite Hwc', Hwc, count_rows_releaseLock; [reflexivity | reflexivity].
Qed.

End StatusBlindFacts.

Section StatsWitnesses.
Import Db Stats Examples.

Lemma getWeeklyStats_window_witness :
  totalProcessed (getWeeklyStats demo_runtime now_ms demo_rowid demo_db) = 5 /\
  highlights (getWeeklyStats demo_runtime now_ms demo_rowid demo_db) =
    [ {| h_tweetId := "1"; h_summary := Js.Str "Great AI tool"; h_category := tool |} ] /\
  (Js.Str "ai", 2) ∈ topTags (getWeeklyStats demo_runtime now_ms demo_rowid demo_db) /\
  map h_tweetId (highlights (Table.getWeeklyStats demo_runtime now_ms tie_table)) =
    ["b"; "a"].
Proof.
  destruct (getWeeklyStats_window demo_runtime now_ms demo_rowid demo_db)
    as (_ & _ & _ & Htot & _ & _ & Hlisted & _ & _ & Hhl & _).
  destruct (getWeeklyStats_window demo_runtime now_ms (Table.rowid tie_table)
              (Table.ledger tie_table))
    as (_ & _ & _ & _ & _ & _ & _ & _ & _ & Htie & _).
  split; [|split; [|split]].
  - rewrite Htot. vm_compute. reflexivity.
  - rewrite Hhl. vm_compute. reflexivity.
  - destruct (Hlisted "ai") as [Hin | [Hlen _]].
    + vm_compute. lia.
    + vm_compute in Hin |- *. exact Hin.
    + vm_compute in Hlen. discriminate Hlen.
  - unfold Table.getWeeklyStats. rewrite Htie. vm_compute. reflexivity.
Defined.

Lemma stats_count_every_state_witness :
  total (getStats (tryLock t1 "9" demo_db).2) = S (total (getStats demo_db)) /\
  totalProcessed (getWeeklyStats demo_runtime now_ms demo_rowid (releaseLock "4" failed demo_db)) =
    totalProcessed (getWeeklyStats demo_runtime now_ms demo_rowid demo_db) /\
  ("5", failed_row) ∈ select_since (weekAgoStr demo_runtime now_ms) demo_rowid demo_db.
Proof.
  destruct (stats_count_every_state demo_runtime now_ms demo_rowid demo_rowid demo_db)
    as (Hin & _ & _ & _ & _ & Hlock & Hrel).
  split; [|split].
  - apply (Hlock t1 "9"). reflexivity.
  - apply (Hrel "4" failed).
  - apply Hin; reflexivity.
Defined.

End StatsWitnesses.

(* ================================================================== *)
(** * Further properties of the ledger *)
(* ================================================================== *)

Section LedgerLifecycle.
Import Db.

(** X1: after [markProcessed(record)] the identifier of the record is
    handled exactly when the record carries no status or 'completed', it
    is locked exactly when the record says 'processing', and nothing
    changes for any other identifier. *)
Theorem markProcessed_then_isProcessed record (d : Ledger) :
  (isProcessed (tweetId record) (markProcessed record d) = true <->
     rec_status record = None \/ rec_status record = Some completed) /\
  (isLocked (tweetId record) (markProcessed record d) = true <->
     rec_status record = Some processing) /\
  (forall tid, tid <> tweetId record ->
     markProcessed record d !! tid = d !! tid /\
     isProcessed tid (markProcessed record d) = isProcessed tid d /\
     isLocked tid (markProcessed record d) = isLocked tid d).
Proof.
  split; [|split].
  - unfold isProcessed. rewrite markProcessed_same. cbn [status].
    destruct (rec_status record) as [[]|]; cbn; split; intros H; try discriminate;
      auto; destruct H as [H|H]; discriminate.
  - unfold isLocked. rewrite markProcessed_same. cbn [status].
    destruct (rec_status record) as [[]|]; cbn; split; intros H; try discriminate; auto.
  - intros tid Hne. unfold isProcessed, isLocked.
    rewrite (markProcessed_other record d tid) by congruence. auto.
Qed.

Lemma markProcessed_then_isProcessed_witness :
  isProcessed "new" (markProcessed (mkRecord "new" Examples.t1 tool None "{}" None)
                       Examples.failed_T1) = true /\
  isProcessed "T1" (markProcessed (mkRecord "new" Examples.t1 tool None "{}" None)
                      Examples.failed_T1) = false.
Proof.
  split.
  - apply (proj1 (markProcessed_then_isProcessed
                    (mkRecord "new" Examples.t1 tool None "{}" None) Examples.failed_T1)).
    left. reflexivity.
  - destruct (proj2 (proj2 (markProcessed_then_isProcessed
                       (mkRecord "new" Examples.t1 tool None "{}" None) Examples.failed_T1))
                "T1") as (_ & -> & _); [discriminate | reflexivity].
Defined.

(** X2: a claim is exclusive.  When [tryLock] returns [true] the
    identifier is locked and not handled, and the next [tryLock] on it
    returns [false], whatever the ledger was; when [tryLock] returns
    [false] the ledger is untouched; and no identifier is ever both locked
    and handled. *)
Theorem tryLock_exclusive now later tid (d : Ledger) :
  ((tryLock now tid d).1 = true ->
     isLocked tid (tryLock now tid d).2 = true /\
     isProcessed tid (tryLock now tid d).2 = false /\
     tryLock later tid (tryLock now tid d).2 = (false, (tryLock now tid d).2)) /\
  ((tryLock now tid d).1 = false -> (tryLock now tid d).2 = d) /\
  (isLocked tid d = true -> isProcessed tid d = false).
Proof.
  split; [|split].
  - intros Htrue.
    assert (Hd : (tryLock now tid d).2 = <[tid := placeholder now]> d).
    { unfold tryLock in *.
      destruct (match d !! tid with Some _ => _ | None => _ end); [discriminate | reflexivity]. }
    rewrite Hd.
    assert (Hrow : (<[tid := placeholder now]> d) !! tid = Some (placeholder now))
      by apply lookup_insert_eq.
    unfold isLocked, isProcessed. rewrite Hrow. cbn.
    rewrite (tryLock_present _ _ _ _ Hrow). auto.
  - unfold tryLock.
    destruct (match d !! tid with Some _ => _ | None => _ end); [reflexivity | discriminate].
  - unfold isLocked, isProcessed. destruct (d !! tid) as [row|]; [|discriminate].
    destruct (status row) as [[]|]; cbn; intros H; try reflexivity; discriminate H.
Qed.

Lemma tryLock_exclusive_witness :
  isLocked "T1" (tryLock Examples.t1 "T1" Examples.failed_T1).2 = true /\
  (tryLock Examples.t2 "T1" (tryLock Examples.t1 "T1" Examples.failed_T1).2).1 = false.
Proof.
  destruct (proj1 (tryLock_exclusive Examples.t1 Examples.t2 "T1" Examples.failed_T1) eq_refl)
    as (Hlocked & _ & Hnext).
  split; [exact Hlocked|]. now rewrite Hnext.
Defined.

(** X3: what a release decides.  After [releaseLock(id, st)] on an
    existing record the identifier is handled exactly for 'completed',
    locked exactly for 'processing', claimable exactly for 'failed'; and of
    two releases in a row the later one stands. *)
Theorem releaseLock_decides tid st (d : Ledger) :
  (forall row now, d !! tid = Some row ->
     isProcessed tid (releaseLock tid st d) = bool_decide (st = completed) /\
     isLocked tid (releaseLock tid st d) = bool_decide (st = processing) /\
     (tryLock now tid (releaseLock tid st d)).1 = bool_decide (st = failed)) /\
  (forall st', releaseLock tid st (releaseLock tid st' d) = releaseLock tid st d).
Proof.
  split.
  - intros row now Hrow.
    assert (Hrel : releaseLock tid st d !! tid = Some (set_status st row))
      by (rewrite releaseLock_same, Hrow; reflexivity).
    unfold isProcessed, isLocked. rewrite Hrel, (tryLock_present _ _ _ _ Hrel).
    destruct st; cbn; auto.
  - intros st'. apply map_eq. intros k. destruct (decide (tid = k)) as [<-|Hne].
    + rewrite !releaseLock_same. destruct (d !! tid); reflexivity.
    + rewrite !releaseLock_other by assumption. reflexivity.
Qed.

Lemma releaseLock_decides_witness :
  isProcessed "T1" (releaseLock "T1" completed Examples.claimed_T1) = true /\
  (tryLock Examples.t2 "T1" (releaseLock "T1" completed Examples.claimed_T1)).1 = false.
Proof.
  destruct (proj1 (releaseLock_decides "T1" completed Examples.claimed_T1)
              (placeholder Examples.t0) Examples.t2 eq_refl) as (Hp & _ & Hl).
  split; [exact Hp | exact Hl].
Defined.

End LedgerLifecycle.

(* ================================================================== *)
(** * Further properties of the aggregates *)
(* ================================================================== *)

(** The whole [Map] of tag counts [getWeeklyStats] builds over its rows,
    in insertion order, before sorting and cutting. *)
Definition all_tag_counts (rt : Js.Runtime) (rows : list (string * Db.Row))
  : list (Js.Value * nat) :=
  fold_left Stats.count_tag (flat_map (counted_tags rt) rows) [].

(** The rows whose payload [JSON.parse] accepts. *)
Definition parses (rt : Js.Runtime) (row : string * Db.Row) : Prop :=
  is_Some (Js.JSON_parse rt (Stats.row_raw_data row)).

Section StatsSums.
Import Db Stats.

Lemma assign_fresh {V : Type} c (n : V) acc :
  c ∉ map fst acc -> assign c n acc = acc ++ [(c, n)].
Proof.
  induction acc as [|[k m] rest IH]; intros Hnotin; [reflexivity|].
  cbn [map fst] in Hnotin. apply not_elem_of_cons in Hnotin as [Hne Hnotin].
  cbn [assign]. rewrite decide_False by congruence. cbn [app]. now rewrite IH.
Qed.

Lemma fold_assign_fresh (groups : list (Category * nat)) : forall acc,
  NoDup (map fst (acc ++ groups)) ->
  fold_left (fun acc row => assign row.1 row.2 acc) groups acc = acc ++ groups.
Proof.
  induction groups as [|[k m] rest IH]; intros acc Hnd.
  - now rewrite app_nil_r.
  - cbn [fold_left fst snd].
    assert (Hk : k ∉ map fst acc).
    { rewrite map_app in Hnd. apply NoDup_app in Hnd as (_ & Hdisj & _).
      intros Hin. apply (Hdisj k Hin). cbn. apply list_elem_of_here. }
    rewrite (assign_fresh k m acc Hk), IH; rewrite <- app_assoc; [reflexivity | exact Hnd].
Qed.

(** The object [getStats] returns lists the categories that occur, in
    the order of the groups, each with its count. *)
Lemma getStats_byCategory (d : Ledger) :
  stats_byCategory (getStats d) = group_by_category d.
Proof.
  cbn [getStats stats_byCategory]. rewrite fold_assign_fresh; [reflexivity|].
  cbn [app]. rewrite group_keys. apply NoDup_filter.
  apply (bool_decide_unpack _). vm_compute. reflexivity.
Qed.

Lemma one_category (r : string * Row) :
  sum_list (map (fun c => if decide (row_category r = c) then 1 else 0) all_categories) = 1.
Proof. destruct (row_category r); reflexivity. Qed.

Lemma sum_list_map_add {A : Type} (f g : A -> nat) l :
  sum_list (map (fun x => f x + g x) l) = sum_list (map f l) + sum_list (map g l).
Proof. induction l as [|x rest IH]; cbn; [reflexivity | rewrite IH; lia]. Qed.

Lemma counts_add_up (rows : list (string * Row)) :
  sum_list (map (fun c => count_category c rows) all_categories) = length rows.
Proof.
  induction rows as [|r rest IH].
  - reflexivity.
  - rewrite (map_ext _ (fun c => (if decide (row_category r = c) then 1 else 0)
                                 + count_category c rest))
      by (intros c; apply count_category_cons).
    rewrite sum_list_map_add, one_category, IH. reflexivity.
Qed.

Lemma sum_nonzero (gs : list (Category * nat)) :
  sum_list (map snd (filter (fun g => g.2 <> 0) gs)) = sum_list (map snd gs).
Proof.
  induction gs as [|[k m] rest IH]; [reflexivity|].
  rewrite filter_cons. cbn [snd]. destruct (decide (m <> 0)) as [Hm|Hm]; cbn; [now rewrite IH|].
  rewrite IH. lia.
Qed.

Lemma count_bump_sum c acc :
  sum_list (map snd (count_row_category acc c)) = S (sum_list (map snd acc)).
Proof.
  unfold count_row_category. induction acc as [|[k m] rest IH]; [reflexivity|].
  cbn [read assign]. destruct (decide (k = c)) as [->|Hne]; cbn; [lia|].
  cbn in IH. rewrite IH. lia.
Qed.

Lemma count_loop_sum cats : forall acc,
  sum_list (map snd (fold_left count_row_category cats acc)) =
    sum_list (map snd acc) + length cats.
Proof.
  induction cats as [|c rest IH]; intros acc; cbn; [lia|].
  rewrite IH, count_bump_sum. lia.
Qed.

Variable rt : Js.Runtime.

(** X4: the counts by category add up to the total, in [getStats] and
    in [getWeeklyStats]; the weekly total is at most the overall total,
    and it is zero exactly when no record lies in the window. *)
Theorem byCategory_adds_up now rowid (d : Ledger) :
  sum_list (map snd (stats_byCategory (getStats d))) = total (getStats d) /\
  sum_list (map snd (byCategory (getWeeklyStats rt now rowid d))) =
    totalProcessed (getWeeklyStats rt now rowid d) /\
  totalProcessed (getWeeklyStats rt now rowid d) <= total (getStats d) /\
  (totalProcessed (getWeeklyStats rt now rowid d) = 0 <->
   forall tid row, d !! tid = Some row ->
     String.leb (weekAgoStr rt now) (processed_at row) = false).
Proof.
  split; [|split; [|split]].
  - rewrite getStats_byCategory. unfold group_by_category.
    rewrite sum_nonzero, map_map. cbn [snd]. rewrite counts_add_up.
    cbn. now rewrite length_map_to_list.
  - unfold getWeeklyStats, aggregate. cbn [byCategory totalProcessed].
    rewrite loop_byCategory. cbn [acc_byCategory].
    rewrite count_loop_sum, length_map. reflexivity.
  - destruct (getWeeklyStats_counts rt now rowid d) as [-> _].
    cbn. rewrite <- length_map_to_list. apply length_filter.
  - destruct (getWeeklyStats_counts rt now rowid d) as [-> _]. unfold count_rows.
    rewrite length_zero_iff_nil. split.
    + intros Hnil tid row Hrow.
      destruct (String.leb (weekAgoStr rt now) (processed_at row)) eqn:Hw; [|reflexivity].
      assert (Hin : (tid, row) ∈ filter (in_window (weekAgoStr rt now)) (map_to_list d)).
      { apply list_elem_of_filter. split; [exact Hw|]. now apply elem_of_map_to_list. }
      rewrite Hnil in Hin. inversion Hin.
    + intros Hall.
      destruct (filter (in_window (weekAgoStr rt now)) (map_to_list d)) as [|[tid row] rest] eqn:Hf;
        [reflexivity|].
      assert (Hin : (tid, row) ∈ filter (in_window (weekAgoStr rt now)) (map_to_list d))
        by (rewrite Hf; apply list_elem_of_here).
      apply list_elem_of_filter in Hin as [Hw Hin]. apply elem_of_map_to_list in Hin.
      unfold in_window, row_processed_at in Hw. cbn [snd] in Hw.
      rewrite (Hall tid row Hin) in Hw. discriminate.
Qed.

End StatsSums.

Lemma byCategory_adds_up_witness :
  sum_list (map snd (Stats.byCategory (Stats.getWeeklyStats Examples.demo_runtime Examples.now_ms
                                   Examples.demo_rowid
                                   Examples.demo_db))) = 5 /\
  Stats.totalProcessed (Stats.getWeeklyStats Examples.demo_runtime Examples.now_ms Examples.demo_rowid ∅) = 0.
Proof.
  split.
  - rewrite (proj1 (proj2 (byCategory_adds_up Examples.demo_runtime Examples.now_ms Examples.demo_rowid Examples.demo_db))).
    vm_compute. reflexivity.
  - apply (proj2 (proj2 (proj2 (byCategory_adds_up Examples.demo_runtime Examples.now_ms Examples.demo_rowid ∅)))).
    intros tid row Hrow. rewrite lookup_empty in Hrow. discriminate.
Defined.


Section StatsMore.
Import Db Stats.

(** The count [getStats] reports for a category, zero for a category
    that is not listed. *)
Definition category_count (c : Category) (d : Ledger) : nat :=
  default 0 (read c (stats_byCategory (getStats d))).

Lemma category_count_rows c (d : Ledger) :
  category_count c d = count_rows (fun r => row_category r = c) d.
Proof. unfold category_count. apply default_count, getStats_spec. Qed.

(** X5: [markProcessed] keeps one record per identifier.  For a new
    identifier the total and the count of the record's category grow by
    one; for an identifier already in the ledger the total stays, and the
    record moves from the count of its old category to that of its new
    one. *)
Theorem markProcessed_getStats record (d : Ledger) :
  (d !! tweetId record = None ->
     total (getStats (markProcessed record d)) = S (total (getStats d)) /\
     forall c, category_count c (markProcessed record d) =
               (if decide (rec_category record = c) then 1 else 0) + category_count c d) /\
  (forall old, d !! tweetId record = Some old ->
     total (getStats (markProcessed record d)) = total (getStats d) /\
     forall c, category_count c (markProcessed record d)
                 + (if decide (category old = c) then 1 else 0) =
               category_count c d
                 + (if decide (rec_category record = c) then 1 else 0)).
Proof.
  split.
  - intros Hnew. split.
    + cbn. unfold markProcessed. now apply map_size_insert_None.
    + intros c. rewrite !category_count_rows. unfold markProcessed.
      rewrite count_rows_insert_fresh by exact Hnew. reflexivity.
  - intros old Hold. split.
    + cbn. unfold markProcessed. apply map_size_insert_Some. now exists old.
    + intros c. rewrite !category_count_rows. unfold markProcessed.
      rewrite <- (insert_delete_id d _ old Hold) at 2.
      rewrite <- insert_delete_eq.
      rewrite !count_rows_insert_fresh by apply lookup_delete_eq.
      unfold row_category. cbn [snd category]. lia.
Qed.

Lemma markProcessed_getStats_witness :
  total (getStats (markProcessed (mkRecord "1" Examples.t2 article (Some "page-456") "{}" None)
                     Examples.demo_db)) = total (getStats Examples.demo_db) /\
  category_count article
    (markProcessed (mkRecord "1" Examples.t2 article (Some "page-456") "{}" None)
       Examples.demo_db) = 2.
Proof.
  destruct (proj2 (markProcessed_getStats
                     (mkRecord "1" Examples.t2 article (Some "page-456") "{}" None)
                     Examples.demo_db)
              (mkRow Examples.t1 tool None "payload-ai" (Some completed)) eq_refl)
    as [Htotal Hcount].
  split; [exact Htotal|].
  specialize (Hcount article). cbn [category rec_category] in Hcount.
  rewrite decide_False, decide_True in Hcount by (reflexivity || discriminate).
  rewrite Nat.add_0_r in Hcount. rewrite Hcount. vm_compute. reflexivity.
Defined.

(** ** The top tags *)

Lemma insert_by_count_Permutation e l : insert_by_count e l ≡ₚ e :: l.
Proof.
  induction l as [|x rest IH]; cbn [insert_by_count]; [reflexivity|].
  destruct (e.2 <? x.2)%nat; [|reflexivity].
  rewrite IH. apply Permutation_swap.
Qed.

Lemma sort_by_count_Permutation l : sort_by_count l ≡ₚ l.
Proof.
  unfold sort_by_count. induction l as [|x rest IH]; cbn [fold_right]; [reflexivity|].
  now rewrite insert_by_count_Permutation, IH.
Qed.

Lemma StronglySorted_app_cross {A : Type} (R : A -> A -> Prop) l1 : forall l2,
  StronglySorted R (l1 ++ l2) -> forall x y, x ∈ l1 -> y ∈ l2 -> R x y.
Proof.
  induction l1 as [|a rest IH]; intros l2 Hs x y Hx Hy; [inversion Hx|].
  cbn [app] in Hs. apply StronglySorted_inv in Hs as [Hs Hall].
  apply elem_of_cons in Hx as [->|Hx].
  - rewrite Forall_forall in Hall. apply Hall. apply elem_of_app. now right.
  - now apply (IH l2).
Qed.

Variable rt : Js.Runtime.

Lemma topTags_all rows :
  topTags (aggregate rt rows) = take 10 (sort_by_count (all_tag_counts rt rows)).
Proof.
  unfold aggregate, all_tag_counts. cbn [topTags]. now rewrite loop_tagCounts.
Qed.

(** X6: [topTags] are the ten most frequent tags.  Its entries are
    entries of the [Map] of tag counts, in order of falling count; there
    are ten of them, or as many as the [Map] has; every entry of the [Map]
    that is left out has a count no higher than any entry listed; and a
    string tag has at most one entry. *)
Theorem topTags_are_top rows :
  let ws := aggregate rt rows in
  (forall e, e ∈ topTags ws -> e ∈ all_tag_counts rt rows) /\
  length (topTags ws) = Nat.min 10 (length (all_tag_counts rt rows)) /\
  StronglySorted by_count (topTags ws) /\
  (forall e e', e ∈ all_tag_counts rt rows -> e ∉ topTags ws -> e' ∈ topTags ws ->
     e.2 <= e'.2) /\
  (forall s n m, (Js.Str s, n) ∈ all_tag_counts rt rows ->
                 (Js.Str s, m) ∈ all_tag_counts rt rows -> n = m).
Proof.
  intros ws. unfold ws. rewrite topTags_all.
  split; [|split; [|split; [|split]]].
  - intros e He. apply elem_of_take in He as (i & He & _).
    apply list_elem_of_lookup_2 in He. now apply (proj1 (elem_of_sort_by_count _ _)).
  - rewrite length_take, sort_by_count_Permutation. reflexivity.
  - apply StronglySorted_take, sort_by_count_sorted.
  - intros e e' He Hout He'.
    pose proof (sort_by_count_sorted (all_tag_counts rt rows)) as Hs.
    rewrite <- (take_drop 10 (sort_by_count (all_tag_counts rt rows))) in Hs.
    apply (StronglySorted_app_cross by_count _ _ Hs e' e He').
    apply (proj2 (elem_of_sort_by_count _ _)) in He.
    rewrite <- (take_drop 10 (sort_by_count (all_tag_counts rt rows))) in He.
    apply elem_of_app in He as [He|He]; [contradiction | exact He].
  - intros s n m Hn Hm. unfold all_tag_counts in *.
    apply (tagCounts_tally _ _ _ (exact_key_Str s)) in Hn as [-> _].
    now apply (tagCounts_tally _ _ _ (exact_key_Str s)) in Hm as [-> _].
Qed.

Lemma unparsed_row r :
  ~ parses rt r -> counted_tags rt r = [] /\ row_highlight rt r = None.
Proof.
  intros Hr. unfold counted_tags, row_highlight, payload_analysis, parses in *.
  destruct (Js.JSON_parse rt (row_raw_data r)); [|now split].
  exfalso. apply Hr. now eexists.
Qed.

Lemma counted_tags_parsed rows :
  flat_map (counted_tags rt) rows = flat_map (counted_tags rt) (filter (parses rt) rows).
Proof.
  induction rows as [|r rest IH]; [reflexivity|].
  rewrite filter_cons. destruct (decide (parses rt r)) as [Hp|Hp]; cbn [flat_map].
  - now rewrite IH.
  - now rewrite (proj1 (unparsed_row r Hp)), IH.
Qed.

Lemma row_highlights_parsed (rows : list (string * Row)) :
  omap (row_highlight rt) rows = omap (row_highlight rt) (filter (parses rt) rows).
Proof.
  induction rows as [|r rest IH]; [reflexivity|].
  rewrite filter_cons. destruct (decide (parses rt r)) as [Hp|Hp]; cbn [omap list_omap].
  - now rewrite IH.
  - now rewrite (proj2 (unparsed_row r Hp)), IH.
Qed.

(** X7: a payload that does not parse costs nothing but itself.  Its
    row is counted in [totalProcessed] and under its category, and the tags
    and the highlights are those of the rows whose payload parses. *)
Theorem malformed_payload_skipped rows :
  let good := filter (parses rt) rows in
  totalProcessed (aggregate rt rows) = length rows /\
  (forall c, default 0 (read c (byCategory (aggregate rt rows))) = count_category c rows) /\
  topTags (aggregate rt rows) = topTags (aggregate rt good) /\
  highlights (aggregate rt rows) = highlights (aggregate rt good).
Proof.
  intros good.
  destruct (aggregate_spec rt rows) as (Htot & Hcat & _ & _ & _ & Hhl).
  destruct (aggregate_spec rt good) as (_ & _ & _ & _ & _ & Hhl').
  split; [exact Htot|]. split; [intros c; apply default_count, Hcat|].
  split.
  - rewrite !topTags_all. unfold all_tag_counts, good.
    now rewrite <- counted_tags_parsed.
  - rewrite Hhl, Hhl'. unfold good. now rewrite <- row_highlights_parsed.
Qed.

End StatsMore.

(* ================================================================== *)
(** * Further properties of the notifier *)
(* ================================================================== *)

(** [text.replace(/c/g, by)] for a pattern of one character. *)
Fixpoint replace_all (c : ascii) (by_ : string) (text : string) : string :=
  match text with
  | EmptyString => ""
  | String x rest =>
      (if Ascii.eqb x c then by_ else String x "") +:+ replace_all c by_ rest
  end.

(** [escapeHtml] as the source writes it: three replacements in a row. *)
Definition escapeHtml_chain (text : string) : string :=
  replace_all ">"%char "&gt;" (replace_all "<"%char "&lt;" (replace_all "&"%char "&amp;" text)).

(** Whether a character occurs in a text. *)
Fixpoint occurs (c : ascii) (text : string) : bool :=
  match text with
  | EmptyString => false
  | String x rest => Ascii.eqb x c || occurs c rest
  end.

(** Whether [fetch] resolved to a response that is [ok]. *)
Definition accepted (r : Telegram.Reply) : bool :=
  match r with
  | Telegram.Response true _ => true
  | _ => false
  end.

(** What [sendMessage] throws on a reply that is not accepted. *)
Definition refusal (r : Telegram.Reply) : Thrown :=
  match r with
  | Telegram.FetchRejects msg => ThrownError msg
  | Telegram.Response _ body =>
      ThrownGrabber {| message := "Telegram send failed: " +:+ body;
                       code := TELEGRAM; retryable := true |}
  end.

Section TelegramMore.
Import Telegram.

Lemma append_assoc (a b c : string) : (a +:+ b) +:+ c = a +:+ (b +:+ c).
Proof.
  induction a as [|x a IH]; [reflexivity|].
  change (String x ((a +:+ b) +:+ c) = String x (a +:+ (b +:+ c))). now rewrite IH.
Qed.

Lemma append_nil_r (a : string) : a +:+ "" = a.
Proof.
  induction a as [|x a IH]; [reflexivity|].
  change (String x (a +:+ "") = String x a). now rewrite IH.
Qed.

(** ** [split('\n')] and [join('\n')] *)

Lemma concat_cons line more :
  String.concat nl (line :: more) =
    line +:+ match more with [] => "" | _ => nl +:+ String.concat nl more end.
Proof. destruct more; cbn [String.concat]; [now rewrite append_nil_r | reflexivity]. Qed.

(** Joining the lines of a text by newlines gives the text back. *)
Lemma concat_split_lines text : String.concat nl (split_lines text) = text.
Proof.
  induction text as [|c rest IH]; [reflexivity|].
  cbn [split_lines]. destruct (Ascii.eqb c newline) eqn:Hc.
  - apply Ascii.eqb_eq in Hc. subst c.
    destruct (split_lines_cons rest) as (line & more & Hs). rewrite Hs in *.
    change (String.concat nl ("" :: line :: more))
      with (nl +:+ String.concat nl (line :: more)).
    now rewrite IH.
  - destruct (split_lines_cons rest) as (line & more & Hs). rewrite Hs in *.
    rewrite concat_cons. rewrite concat_cons in IH.
    change (String c line +:+ match more with
                              | [] => ""
                              | _ :: _ => nl +:+ String.concat nl more
                              end)
      with (String c (line +:+ match more with
                               | [] => ""
                               | _ :: _ => nl +:+ String.concat nl more
                               end)).
    now rewrite IH.
Qed.

(** ** The chunking loop on texts that fit *)

Lemma chunk_loop_fitting n lines : forall chunks current,
  current <> "" ->
  String.length (String.concat nl (current :: lines)) + 1 <= n ->
  fold_left (chunk_step n) lines (chunks, current) =
    (chunks, String.concat nl (current :: lines)).
Proof.
  induction lines as [|line rest IH]; intros chunks current Hne Hlen; [reflexivity|].
  cbn [fold_left]. unfold chunk_step at 2.
  assert (Heq : String.concat nl (current :: line :: rest) =
                String.concat nl ((current +:+ nl +:+ line) :: rest)).
  { rewrite !concat_cons. destruct rest; rewrite ?append_nil_r, ?append_assoc; reflexivity. }
  assert (Hfit : (n <? String.length current + String.length line + 1)%nat = false).
  { apply Nat.ltb_ge. rewrite (concat_cons current), (concat_cons line) in Hlen.
    rewrite !length_append in Hlen. cbn [String.length nl] in Hlen. lia. }
  rewrite Hfit. unfold separator.
  assert (Hcur : String.eqb current "" = false) by now apply String.eqb_neq.
  rewrite Hcur, Heq. apply IH.
  - destruct current; [congruence | discriminate].
  - now rewrite <- Heq.
Qed.

Lemma chunk_loop_blank n lines :
  1 <= n -> (forall line, line ∈ lines -> line = "") ->
  fold_left (chunk_step n) lines ([], "") = ([], "").
Proof.
  intros Hn. induction lines as [|line rest IH]; intros Hall; [reflexivity|].
  rewrite (Hall line) by apply list_elem_of_here. cbn [fold_left].
  unfold chunk_step at 2.
  replace (n <? String.length "" + String.length "" + 1)%nat with false
    by (symmetry; apply Nat.ltb_ge; cbn; lia).
  cbn. apply IH. intros l Hl. apply Hall. now apply list_elem_of_further.
Qed.

Lemma chunk_loop_keeps n lines : forall chunks current,
  exists more, (fold_left (chunk_step n) lines (chunks, current)).1 = chunks ++ more.
Proof.
  induction lines as [|line rest IH]; intros chunks current.
  - exists []. cbn. now rewrite app_nil_r.
  - cbn [fold_left]. unfold chunk_step at 2.
    destruct (n <? _)%nat.
    + destruct (IH (chunks ++ [current]) line) as [more Hm].
      exists (current :: more). rewrite Hm, <- app_assoc. reflexivity.
    + apply IH.
Qed.

(** X8: the edges of [chunkMessage].  A text whose lines are all empty
    (the empty text, for one) gives no chunk.  A text that does not begin
    with a newline and is shorter than the limit is its own single chunk.
    A text whose first line has the length of the limit or more gives an
    empty first chunk. *)
Theorem chunkMessage_edges text n :
  (1 <= n -> (forall line, line ∈ split_lines text -> line = "") ->
     chunkMessage text n = []) /\
  (forall c rest, text = String c rest -> c <> newline ->
     String.length text + 1 <= n -> chunkMessage text n = [text]) /\
  (forall line more, split_lines text = line :: more -> n <= String.length line ->
     exists chunks, chunkMessage text n = "" :: chunks).
Proof.
  split; [|split].
  - intros Hn Hblank. unfold chunkMessage. now rewrite chunk_loop_blank.
  - intros c rest -> Hc Hlen. unfold chunkMessage.
    pose proof (concat_split_lines (String c rest)) as Hjoin.
    destruct (split_lines (String c rest)) as [|line more] eqn:Hs;
      [destruct (split_lines_cons (String c rest)) as (? & ? & ?); congruence|].
    assert (Hline : line <> "").
    { cbn [split_lines] in Hs.
      assert (Hcb : Ascii.eqb c newline = false) by now apply Ascii.eqb_neq.
      rewrite Hcb in Hs. destruct (split_lines rest); injection Hs as <- _; discriminate. }
    cbn [fold_left]. unfold chunk_step at 2.
    assert (Hfit : (n <? String.length "" + String.length line + 1)%nat = false).
    { apply Nat.ltb_ge. rewrite <- Hjoin, concat_cons, length_append in Hlen.
      cbn [String.length]. lia. }
    rewrite Hfit. cbn [separator String.eqb]. change ("" +:+ "" +:+ line) with line.
    rewrite chunk_loop_fitting by (assumption || now rewrite Hjoin).
    rewrite Hjoin. cbn [String.eqb app]. reflexivity.
  - intros line more Hs Hlong. unfold chunkMessage. rewrite Hs. cbn [fold_left].
    unfold chunk_step at 2.
    replace (n <? String.length "" + String.length line + 1)%nat with true
      by (symmetry; apply Nat.ltb_lt; cbn; lia).
    destruct (chunk_loop_keeps n more ([] ++ [""]) line) as [rest Hrest].
    destruct (fold_left (chunk_step n) more ([] ++ [""], line)) as [chunks current].
    cbn [fst] in Hrest. subst chunks. cbn [app].
    destruct (String.eqb current ""); eexists; reflexivity.
Qed.

End TelegramMore.

Section EscapeFacts.
Import Telegram.

Lemma append_cons x (a b : string) : String x a +:+ b = String x (a +:+ b).
Proof. reflexivity. Qed.

Lemma replace_all_cons c by_ x rest :
  replace_all c by_ (String x rest) =
    (if Ascii.eqb x c then by_ else String x "") +:+ replace_all c by_ rest.
Proof. reflexivity. Qed.

Lemma replace_all_app c by_ (a b : string) :
  replace_all c by_ (a +:+ b) = replace_all c by_ a +:+ replace_all c by_ b.
Proof.
  induction a as [|x a IH]; [reflexivity|].
  rewrite append_cons, !replace_all_cons, IH. now rewrite append_assoc.
Qed.

Lemma occurs_cons c x rest : occurs c (String x rest) = Ascii.eqb x c || occurs c rest.
Proof. reflexivity. Qed.

Lemma occurs_app c (a b : string) : occurs c (a +:+ b) = occurs c a || occurs c b.
Proof.
  induction a as [|x a IH]; [reflexivity|].
  rewrite append_cons, !occurs_cons, IH. now rewrite orb_assoc.
Qed.

(** What [escapeHtml] makes of one character. *)
Definition escaped (x : ascii) : string :=
  if Ascii.eqb x "&"%char then "&amp;"
  else if Ascii.eqb x "<"%char then "&lt;"
  else if Ascii.eqb x ">"%char then "&gt;"
  else String x "".

Lemma escapeHtml_cons x rest : escapeHtml (String x rest) = escaped x +:+ escapeHtml rest.
Proof. reflexivity. Qed.

Lemma escaped_chain x :
  replace_all ">"%char "&gt;"
    (replace_all "<"%char "&lt;" (if Ascii.eqb x "&"%char then "&amp;" else String x "")) =
  escaped x.
Proof.
  unfold escaped. destruct (Ascii.eqb x "&"%char); [reflexivity|].
  rewrite replace_all_cons. change (replace_all "<"%char "&lt;" "") with "".
  rewrite append_nil_r.
  destruct (Ascii.eqb x "<"%char); [reflexivity|].
  rewrite replace_all_cons. change (replace_all ">"%char "&gt;" "") with "".
  rewrite append_nil_r. reflexivity.
Qed.

Lemma escaped_no_angle x :
  occurs "<"%char (escaped x) = false /\ occurs ">"%char (escaped x) = false.
Proof.
  unfold escaped. destruct (Ascii.eqb x "&"%char); [split; reflexivity|].
  destruct (Ascii.eqb x "<"%char) eqn:Hlt; [split; reflexivity|].
  destruct (Ascii.eqb x ">"%char) eqn:Hgt; [split; reflexivity|].
  rewrite !occurs_cons, Hlt, Hgt. split; reflexivity.
Qed.

Lemma escaped_length x : 1 <= String.length (escaped x).
Proof.
  unfold escaped.
  destruct (Ascii.eqb x "&"%char); [cbn; lia|].
  destruct (Ascii.eqb x "<"%char); [cbn; lia|].
  destruct (Ascii.eqb x ">"%char); cbn; lia.
Qed.

(** X9: [escapeHtml], three replacements in a row with the ampersand
    first, replaces each character of the text once: the entities it
    writes are not escaped again.  Its result holds no angle bracket, is
    no shorter than the text, and is the text itself when the text holds
    none of the three characters. *)
Theorem escapeHtml_escapes text :
  escapeHtml_chain text = escapeHtml text /\
  occurs "<"%char (escapeHtml text) = false /\
  occurs ">"%char (escapeHtml text) = false /\
  String.length text <= String.length (escapeHtml text) /\
  (occurs "&"%char text = false -> occurs "<"%char text = false ->
   occurs ">"%char text = false -> escapeHtml text = text).
Proof.
  induction text as [|x rest (IHc & IHlt & IHgt & IHlen & IHid)].
  - repeat split; reflexivity.
  - split; [|split; [|split; [|split]]].
    + unfold escapeHtml_chain in *.
      rewrite (replace_all_cons "&"%char), !replace_all_app, IHc, escaped_chain.
      now rewrite escapeHtml_cons.
    + rewrite escapeHtml_cons, occurs_app, IHlt.
      now rewrite (proj1 (escaped_no_angle x)).
    + rewrite escapeHtml_cons, occurs_app, IHgt.
      now rewrite (proj2 (escaped_no_angle x)).
    + rewrite escapeHtml_cons, length_append. pose proof (escaped_length x).
      cbn [String.length]. lia.
    + rewrite !occurs_cons. intros Ha Hl Hg.
      apply orb_false_iff in Ha as [Ha Ha'], Hl as [Hl Hl'], Hg as [Hg Hg'].
      rewrite escapeHtml_cons, IHid by assumption.
      unfold escaped. now rewrite Ha, Hl, Hg.
Qed.

End EscapeFacts.

Section DeliveryFacts.
Import Telegram.

Lemma sendMessage_reply replies text mode outbox :
  sendMessage replies text mode outbox =
    (if accepted (replies (length outbox)) then Returned tt
     else Threw (refusal (replies (length outbox))),
     outbox ++ [ {| sent_text := slice0 4096 text; sent_parse_mode := mode |} ]).
Proof.
  unfold sendMessage. destruct (replies (length outbox)) as [msg|[|] body]; reflexivity.
Qed.

Lemma send_chunks_cons replies chunk rest outbox :
  send_chunks replies (chunk :: rest) outbox =
    if accepted (replies (length outbox))
    then send_chunks replies rest (outbox ++ [digest_message chunk])
    else (Threw (refusal (replies (length outbox))), outbox ++ [digest_message chunk]).
Proof.
  cbn [send_chunks]. rewrite sendMessage_reply.
  destruct (accepted (replies (length outbox))); reflexivity.
Qed.

Lemma send_chunks_all replies chunks : forall outbox,
  (forall i, i < length chunks -> accepted (replies (length outbox + i)) = true) ->
  send_chunks replies chunks outbox = (Returned tt, outbox ++ map digest_message chunks).
Proof.
  induction chunks as [|chunk rest IH]; intros outbox Hall.
  - cbn. now rewrite app_nil_r.
  - rewrite send_chunks_cons.
    specialize (Hall 0 ltac:(cbn; lia)) as H0. rewrite Nat.add_0_r in H0. rewrite H0.
    rewrite IH.
    + cbn [map]. now rewrite <- app_assoc.
    + intros i Hi. rewrite length_app. cbn [length].
      replace (length outbox + 1 + i) with (length outbox + S i) by lia.
      apply Hall. cbn. lia.
Qed.

Lemma send_chunks_refused replies chunks : forall outbox i,
  i < length chunks ->
  (forall j, j < i -> accepted (replies (length outbox + j)) = true) ->
  accepted (replies (length outbox + i)) = false ->
  send_chunks replies chunks outbox =
    (Threw (refusal (replies (length outbox + i))),
     outbox ++ map digest_message (take (S i) chunks)).
Proof.
  induction chunks as [|chunk rest IH]; intros outbox i Hi Hbefore Hno; [cbn in Hi; lia|].
  rewrite send_chunks_cons. destruct i as [|i].
  - rewrite Nat.add_0_r in *. rewrite Hno. cbn. now rewrite take_0.
  - specialize (Hbefore 0 ltac:(lia)) as H0. rewrite Nat.add_0_r in H0. rewrite H0.
    rewrite (IH _ i).
    + rewrite length_app. cbn [length].
      replace (length outbox + 1 + i) with (length outbox + S i) by lia.
      cbn [take map]. now rewrite <- app_assoc.
    + cbn in Hi. lia.
    + intros j Hj. rewrite length_app. cbn [length].
      replace (length outbox + 1 + j) with (length outbox + S j) by lia.
      apply Hbefore. lia.
    + rewrite length_app. cbn [length].
      now replace (length outbox + 1 + i) with (length outbox + S i) by lia.
Qed.

Lemma send_chunks_returned replies chunks : forall outbox,
  (send_chunks replies chunks outbox).1 = Returned tt ->
  forall i, i < length chunks -> accepted (replies (length outbox + i)) = true.
Proof.
  induction chunks as [|chunk rest IH]; intros outbox Hret i Hi; [cbn in Hi; lia|].
  rewrite send_chunks_cons in Hret.
  destruct (accepted (replies (length outbox))) eqn:Hacc; [|discriminate Hret].
  destruct i as [|i]; [now rewrite Nat.add_0_r|].
  specialize (IH _ Hret i ltac:(cbn in Hi; lia)).
  rewrite length_app in IH. cbn [length] in IH.
  now replace (length outbox + S i) with (length outbox + 1 + i) by lia.
Qed.

(** X10: what [sendDigest] delivers.  It returns exactly when Telegram
    accepts every chunk, and then all the chunks have been posted, in
    order.  Otherwise it stops at the first chunk that is not accepted:
    that chunk is the last one posted, and the error thrown is the one of
    that reply, a retryable TELEGRAM error carrying the response body when
    the response is not ok, the error of [fetch] when it rejects. *)
Theorem sendDigest_delivery replies digest outbox :
  let chunks := chunkMessage digest 4000 in
  let reply i := replies (length outbox + i) in
  ((sendDigest replies digest outbox).1 = Returned tt <->
     forall i, i < length chunks -> accepted (reply i) = true) /\
  ((forall i, i < length chunks -> accepted (reply i) = true) ->
     (sendDigest replies digest outbox).2 = outbox ++ map digest_message chunks) /\
  (forall i, i < length chunks ->
     (forall j, j < i -> accepted (reply j) = true) ->
     accepted (reply i) = false ->
     sendDigest replies digest outbox =
       (Threw (refusal (reply i)), outbox ++ map digest_message (take (S i) chunks))).
Proof.
  intros chunks reply. unfold sendDigest. fold chunks. split; [split|split].
  - apply send_chunks_returned.
  - intros Hall. now rewrite send_chunks_all.
  - intros Hall. now rewrite send_chunks_all.
  - intros i Hi Hbefore Hno. now apply send_chunks_refused.
Qed.

End DeliveryFacts.

(* ================================================================== *)
(** * The pacing of the notifier *)
(* ================================================================== *)

(** [sendMessage] against the clock.  Times are readings of [Date.now()],
    in milliseconds.  The calls follow one another, as in the loop of
    [sendDigest], where each is awaited. *)
Module Pace.

Definition minIntervalMs : Z := 1000.

(** [rateLimitWait]: the pause it asks of [setTimeout], if it asks one,
    when [Date.now()] reads [now]. *)
Definition rateLimitWait (now lastSentAt : Z) : option Z :=
  let elapsed := (now - lastSentAt)%Z in
  if (elapsed <? minIntervalMs)%Z then Some (minIntervalMs - elapsed)%Z else None.

(** What one call meets: the reading of the clock in [rateLimitWait]; how
    long after that, the pause apart, the POST leaves; and how long after
    the POST the response is there and the clock is read again, [None]
    when [fetch] rejects. *)
Record Call : Set := mkCall {
  entered : Z;
  delay : Z;
  answered_after : option Z
}.

(** One call: the time of its POST and [lastSentAt] afterwards. *)
Definition sendMessage (lastSentAt : Z) (c : Call) : Z * Z :=
  let woken :=
    match rateLimitWait (entered c) lastSentAt with
    | Some ms => (entered c + ms)%Z
    | None => entered c
    end in
  let posted := (woken + delay c)%Z in
  (posted,
   match answered_after c with
   | Some d => (posted + d)%Z
   | None => lastSentAt
   end).

(** The times of the POSTs of a run of calls. *)
Fixpoint posts (lastSentAt : Z) (calls : list Call) : list Z :=
  match calls with
  | [] => []
  | c :: rest =>
      let '(posted, lastSentAt') := sendMessage lastSentAt c in
      posted :: posts lastSentAt' rest
  end.

(** Timers do not fire early and the clock does not run backwards while
    a call is under way. *)
Definition punctual (c : Call) : Prop :=
  (0 <= delay c)%Z /\ forall d, answered_after c = Some d -> (0 <= d)%Z.

Definition answered (c : Call) : Prop := answered_after c <> None.

End Pace.

Section PaceFacts.
Import Pace.

Lemma sendMessage_posted lastSentAt c :
  (sendMessage lastSentAt c).1 =
    (Z.max (entered c) (lastSentAt + minIntervalMs) + delay c)%Z.
Proof.
  unfold sendMessage, rateLimitWait, minIntervalMs. cbn [fst].
  destruct (Z.ltb_spec (entered c - lastSentAt) 1000); lia.
Qed.

Lemma sendMessage_lastSentAt lastSentAt c :
  punctual c ->
  (lastSentAt <= (sendMessage lastSentAt c).2)%Z /\
  (answered c -> ((sendMessage lastSentAt c).1 <= (sendMessage lastSentAt c).2)%Z).
Proof.
  intros [Hdelay Hd]. pose proof (sendMessage_posted lastSentAt c) as Hp.
  unfold sendMessage, answered in *. cbn [fst snd] in *. unfold minIntervalMs in *.
  destruct (answered_after c) as [d|].
  - specialize (Hd d eq_refl). lia.
  - split; [lia | congruence].
Qed.

Lemma posts_after lastSentAt calls : forall last,
  Forall punctual calls -> (lastSentAt <= last)%Z ->
  Forall (fun t => (lastSentAt + minIntervalMs <= t)%Z) (posts last calls).
Proof.
  induction calls as [|c rest IH]; intros last Hall Hle; [constructor|].
  inversion Hall as [|? ? Hc Hrest]; subst.
  cbn [posts]. pose proof (sendMessage_posted last c) as Hp.
  pose proof (sendMessage_lastSentAt last c Hc) as [Hlast _].
  destruct (sendMessage last c) as [posted last']. cbn [fst snd] in *.
  constructor.
  - destruct Hc as [Hdelay _]. lia.
  - apply IH; [assumption | lia].
Qed.

(** X11: the pacing of [sendMessage].  No POST of a run of calls leaves
    sooner than [minIntervalMs], a second, after the [lastSentAt] the run
    began with.  In a run of calls that are all answered, every POST
    leaves at least a second after each of the POSTs before it. *)
Theorem posts_paced lastSentAt calls :
  Forall punctual calls ->
  Forall (fun t => (lastSentAt + 1000 <= t)%Z) (posts lastSentAt calls) /\
  (Forall answered calls ->
   StronglySorted (fun earlier later => (earlier + 1000 <= later)%Z)
     (posts lastSentAt calls)).
Proof.
  intros Hall. split; [apply (posts_after lastSentAt calls lastSentAt Hall); lia|].
  revert lastSentAt. induction Hall as [|c rest Hc Hrest IH]; intros lastSentAt Hans;
    [constructor|].
  inversion Hans as [|? ? Hca Hra]; subst.
  cbn [posts].
  pose proof (sendMessage_lastSentAt lastSentAt c Hc) as [_ Hlast].
  specialize (Hlast Hca).
  destruct (sendMessage lastSentAt c) as [posted last']. cbn [fst snd] in *.
  constructor; [now apply IH|].
  apply (posts_after posted rest last' Hrest Hlast).
Qed.

End PaceFacts.

(** Further examples: the rows of three bookmarks of the week, the third
    with a payload that does not parse; a text with the three characters
    [escapeHtml] replaces; three calls of [sendMessage] a tenth of a second
    apart, each answered after forty milliseconds. *)
Module MoreExamples.
Import Db Examples.

Definition week_rows : list (string * Row) :=
  [ ("2", mkRow t2 tool None "payload-ml" (Some completed));
    ("1", mkRow t1 tool None "payload-ai" (Some completed));
    ("3", mkRow t0 article None "not json" (Some completed)) ].

Definition markup : string := "a<b>&c".

Definition quick_calls : list Pace.Call :=
  [ Pace.mkCall 1767607200000 0 (Some 40%Z);
    Pace.mkCall 1767607200100 2 (Some 40%Z);
    Pace.mkCall 1767607200200 0 (Some 40%Z) ].

End MoreExamples.

Section NotifierWitnesses.
Import Telegram Examples MoreExamples.

Lemma topTags_are_top_witness :
  length (Stats.topTags (Stats.aggregate demo_runtime week_rows)) = 3.
Proof.
  rewrite (proj1 (proj2 (topTags_are_top demo_runtime week_rows))).
  vm_compute. reflexivity.
Defined.

Lemma malformed_payload_skipped_witness :
  Stats.totalProcessed (Stats.aggregate demo_runtime week_rows) = 3 /\
  Stats.highlights (Stats.aggregate demo_runtime week_rows) =
    Stats.highlights (Stats.aggregate demo_runtime (take 2 week_rows)).
Proof.
  split.
  - rewrite (proj1 (malformed_payload_skipped demo_runtime week_rows)). reflexivity.
  - rewrite (proj2 (proj2 (proj2 (malformed_payload_skipped demo_runtime week_rows)))).
    vm_compute. reflexivity.
Defined.

Lemma chunkMessage_edges_witness :
  chunkMessage nl 4000 = [] /\
  chunkMessage two_lines 4000 = [two_lines] /\
  exists chunks, chunkMessage long_line 4000 = "" :: chunks.
Proof.
  split; [|split].
  - apply (proj1 (chunkMessage_edges nl 4000)); [lia|].
    apply Forall_forall. apply (bool_decide_unpack _). vm_compute. reflexivity.
  - apply (proj1 (proj2 (chunkMessage_edges two_lines 4000)) "a"%char
             ("lpha" +:+ nl +:+ "beta")).
    + reflexivity.
    + discriminate.
    + vm_compute. lia.
  - apply (proj2 (proj2 (chunkMessage_edges long_line 4000)) long_line []).
    + vm_compute. reflexivity.
    + apply Nat.leb_le. vm_compute. reflexivity.
Defined.

Lemma escapeHtml_escapes_witness :
  escapeHtml_chain markup = "a&lt;b&gt;&amp;c" /\ escapeHtml "plain text" = "plain text".
Proof.
  split.
  - rewrite (proj1 (escapeHtml_escapes markup)). reflexivity.
  - apply (proj2 (proj2 (proj2 (proj2 (escapeHtml_escapes "plain text"))))); reflexivity.
Defined.

Lemma sendDigest_delivery_witness :
  (sendDigest telegram_up two_lines []).2 = [digest_message two_lines] /\
  sendDigest telegram_down two_lines [] =
    (Threw (ThrownGrabber {| message := "Telegram send failed: blocked";
                             code := TELEGRAM; retryable := true |}),
     [digest_message two_lines]).
Proof.
  split.
  - rewrite (proj1 (proj2 (sendDigest_delivery telegram_up two_lines [])));
      [reflexivity | intros i _; reflexivity].
  - rewrite (proj2 (proj2 (sendDigest_delivery telegram_down two_lines [])) 0);
      [reflexivity | vm_compute; lia | intros j Hj; lia | reflexivity].
Defined.

Lemma posts_paced_witness :
  Pace.posts 0 quick_calls = [1767607200000; 1767607201042; 1767607202082]%Z /\
  StronglySorted (fun earlier later => (earlier + 1000 <= later)%Z) (Pace.posts 0 quick_calls).
Proof.
  split; [reflexivity|].
  apply (proj2 (posts_paced 0 quick_calls
                  ltac:(repeat constructor; cbn; try lia; intros d [= <-]; lia))).
  repeat constructor; discriminate.
Defined.

End NotifierWitnesses.

(* ================================================================== *)
(** * Further properties of the agent *)
(* ================================================================== *)

(** A legacy option that is given: a string that is not empty. *)
Definition given (o : option string) : bool :=
  match o with
  | Some s => negb (String.eqb s "")
  | None => false
  end.

Section AgentMore.
Import Agent.

Lemma with_flags_back (o : AnalysisObject) t v a :
  with_flags (with_flags o t v a) (hasThread o) (hasVideo o) (hasArticle o) = o.
Proof. destruct o; reflexivity. Qed.

Lemma positive_length {A} (l : list A) : (0 <? length l)%nat = true <-> l <> [].
Proof.
  destruct l; cbn; split; intros H; congruence || reflexivity.
Qed.

(** X12: what [analyze] changes in the object of the provider.  Each of
    the three flags is set exactly when the provider set it or the context
    holds evidence of that kind; every other property of the object is
    returned as the provider gave it; of the articles and the transcripts
    only the first is carried, and none when there is none; every image
    description is carried; an error of the provider is passed on. *)
Theorem analyze_changes_flags_only tweet tr context :
  (forall obj, exists res,
     analyze tweet tr context (Returned obj) = Returned res /\
     (hasArticle (object res) = true <-> hasArticle obj = true \/ articles context <> []) /\
     (hasVideo (object res) = true <-> hasVideo obj = true \/ transcripts context <> []) /\
     (hasThread (object res) = true <->
        hasThread obj = true \/ threadTweets context <> []) /\
     with_flags (object res) (hasThread obj) (hasVideo obj) (hasArticle obj) = obj /\
     articleContent res = article_content <$> head (articles context) /\
     youtubeTranscript res = transcript_text <$> head (transcripts context) /\
     (articleContent res = None <-> articles context = []) /\
     (youtubeTranscript res = None <-> transcripts context = []) /\
     imageAnalysis res = map image_description (imageDescriptions context)) /\
  (forall e, analyze tweet tr context (Threw e) = Threw e).
Proof.
  split; [|reflexivity].
  intros obj. eexists. split; [reflexivity|]. cbn [object hasArticle hasVideo hasThread
    with_flags articleContent youtubeTranscript imageAnalysis].
  rewrite !orb_true_iff, !positive_length.
  split; [reflexivity|]. split; [reflexivity|]. split; [reflexivity|].
  split; [apply with_flags_back|]. split; [reflexivity|]. split; [reflexivity|].
  split; [|split; [|reflexivity]].
  - destruct (articles context); cbn; split; congruence.
  - destruct (transcripts context); cbn; split; congruence.
Qed.

(** X13: the three stages of the agent's [processTweet].  It returns
    without an analysis exactly when the triage says 'skip', whatever the
    enrichment and the analysis would have answered; it returns an
    analysis exactly when the triage does not say 'skip' and the
    enrichment and the provider both answer, and the analysis is that of
    [analyze] on the fetched context; and it throws the error of the first
    stage that throws. *)
Theorem processTweet_stages tweet triage_reply fetcher analysis_reply :
  let result := Agent.processTweet tweet triage_reply fetcher analysis_reply in
  (forall tr, result = Returned (tr, None) <->
     triage_reply = Returned tr /\ estimatedValue tr = value_skip) /\
  (forall tr analysis, result = Returned (tr, Some analysis) <->
     triage_reply = Returned tr /\ estimatedValue tr <> value_skip /\
     exists context obj,
       fetcher tr = Returned context /\ analysis_reply = Returned obj /\
       analyze tweet tr context (Returned obj) = Returned analysis) /\
  (forall e, result = Threw e <->
     triage_reply = Threw e \/
     exists tr, triage_reply = Returned tr /\ estimatedValue tr <> value_skip /\
       (fetcher tr = Threw e \/
        exists context, fetcher tr = Returned context /\ analysis_reply = Threw e)).
Proof.
  intros result. unfold result, Agent.processTweet, triage.
  destruct triage_reply as [tr|e0].
  - destruct (decide (estimatedValue tr = value_skip)) as [Hs|Hs].
    + split; [|split].
      * intros tr'. split.
        -- intros [= <-]. now split.
        -- intros [[= <-] _]. reflexivity.
      * intros tr' analysis. split; [discriminate|].
        intros ([= <-] & Hne & _). contradiction.
      * intros e. split; [discriminate|].
        intros [Habs | (tr' & [= <-] & Hne & _)]; [discriminate | contradiction].
    + destruct (fetcher tr) as [context|e1] eqn:Hf.
      * destruct analysis_reply as [obj|e2]; cbn [analyze].
        -- split; [|split].
           ++ intros tr'. split; [discriminate|]. intros [[= <-] Habs]. contradiction.
           ++ intros tr' analysis. split.
              ** intros [= <- <-]. split; [reflexivity|]. split; [assumption|].
                 exists context, obj. rewrite Hf. now repeat split.
              ** intros ([= <-] & _ & context' & obj' & Hf' & [= <-] & Han).
                 rewrite Hf in Hf'. injection Hf' as <-. cbn [analyze] in Han.
                 injection Han as <-. reflexivity.
           ++ intros e. split; [discriminate|].
              intros [Habs | (tr' & [= <-] & _ & [Habs | (c & _ & Habs)])];
                try discriminate. rewrite Hf in Habs. discriminate.
        -- split; [|split].
           ++ intros tr'. split; [discriminate|]. intros [[= <-] Habs]. contradiction.
           ++ intros tr' analysis. split; [discriminate|].
              intros (_ & _ & c & o & _ & Habs & _). discriminate.
           ++ intros e. split.
              ** intros [= <-]. right. exists tr. split; [reflexivity|].
                 split; [assumption|]. right. exists context. now rewrite Hf.
              ** intros [Habs | (tr' & [= <-] & _ & [Habs | (c & _ & [= <-])])];
                   try discriminate; [|reflexivity].
                 rewrite Hf in Habs. discriminate.
      * split; [|split].
        -- intros tr'. split; [discriminate|]. intros [[= <-] Habs]. contradiction.
        -- intros tr' analysis. split; [discriminate|].
           intros ([= <-] & _ & c & o & Habs & _). rewrite Hf in Habs. discriminate.
        -- intros e. split.
           ++ intros [= <-]. right. exists tr. split; [reflexivity|].
              split; [assumption|]. left. exact Hf.
           ++ intros [Habs | (tr' & [= <-] & _ & [Habs | (c & Habs & _)])];
                try discriminate; rewrite Hf in Habs; [now injection Habs as <- | discriminate].
  - split; [|split].
    + intros tr. split; [discriminate|]. intros [Habs _]. discriminate.
    + intros tr analysis. split; [discriminate|]. intros [Habs _]. discriminate.
    + intros e. split.
      * intros [= <-]. now left.
      * intros [[= <-] | (tr & Habs & _)]; [reflexivity | discriminate].
Qed.

Lemma given_list (o : option string) :
  match o with
  | Some s => if String.eqb s "" then [] else [s]
  | None => []
  end = if given o then option_list o else [].
Proof. destruct o as [s|]; cbn; [destruct (String.eqb s ""); reflexivity | reflexivity]. Qed.

(** X14: the legacy entry point [analyzeTweet].  The article text and
    the transcript it is given come back in the result, and set their
    flag, unless they are absent or empty; the image descriptions come
    back as they are; the thread flag is set by the thread tweets the
    tweet carries. *)
Theorem analyzeTweet_options tweet article transcript images obj :
  exists res,
    analyzeTweet tweet article transcript images (Returned obj) = Returned res /\
    articleContent res = (if given article then article else None) /\
    youtubeTranscript res = (if given transcript then transcript else None) /\
    imageAnalysis res = default [] images /\
    hasArticle (object res) = hasArticle obj || given article /\
    hasVideo (object res) = hasVideo obj || given transcript /\
    hasThread (object res) = hasThread obj || (0 <? length (tweet_threadTweets tweet))%nat /\
    with_flags (object res) (hasThread obj) (hasVideo obj) (hasArticle obj) = obj.
Proof.
  unfold analyzeTweet. cbv zeta. rewrite !given_list.
  eexists. split; [reflexivity|].
  cbn [analyze object hasArticle hasVideo hasThread with_flags articleContent
       youtubeTranscript imageAnalysis articles transcripts imageDescriptions threadTweets].
  split; [destruct article as [s|]; cbn; [destruct (String.eqb s "")|]; reflexivity|].
  split; [destruct transcript as [s|]; cbn; [destruct (String.eqb s "")|]; reflexivity|].
  split; [rewrite map_map; cbn; apply map_id|].
  split; [destruct article as [s|]; cbn; [destruct (String.eqb s "")|]; reflexivity|].
  split; [destruct transcript as [s|]; cbn; [destruct (String.eqb s "")|]; reflexivity|].
  split; [reflexivity | apply with_flags_back].
Qed.

End AgentMore.

(* ================================================================== *)
(** * Further properties of the orchestrator *)
(* ================================================================== *)

(** An identifier whose record is settled: 'completed' or 'failed'. *)
Definition settled (tid : string) (d : Db.Ledger) : Prop :=
  Db.status_of tid d = Some (Some completed) \/ Db.status_of tid d = Some (Some failed).

(** The alert [notifyAuthExpired] posts. *)
Definition auth_alert (texts : Telegram.Texts) : Telegram.Sent :=
  {| Telegram.sent_text := Telegram.slice0 4096 (Telegram.authExpiredText texts);
     Telegram.sent_parse_mode := Telegram.HTML |}.

Section GrabberMore.
Import Db Grabber.

Variable JSON_stringify : Payload -> string.
Variable texts : Telegram.Texts.
Variable replies : nat -> Telegram.Reply.

Abbreviation processItem := (Grabber.processItem JSON_stringify texts replies).
Abbreviation processItems := (Grabber.processItems JSON_stringify texts replies).
Abbreviation processBookmarks := (Grabber.processBookmarks JSON_stringify texts replies).
Abbreviation handleError := (Grabber.handleError texts replies).

(** X15: what [processTweet] records.  A bookmark the agent skipped is
    recorded as 'completed' under 'review', with no Notion page.  A
    bookmark the agent analysed is recorded as 'completed' under the
    category of the analysis, at the time of the commit; the record names
    a Notion page exactly when Notion answered that no page existed and
    then created that page; and the payload says [alreadyInNotion]
    exactly when Notion answered that a page existed. *)
Theorem processTweet_records tweet env (d : Ledger) :
  (forall tr, agent_outcome tweet env = Returned (tr, None) ->
     Grabber.processTweet JSON_stringify tweet env d =
       (Returned tt,
        <[id tweet := mkRow (committed_at env) review None
                        (JSON_stringify (SkippedPayload tweet tr)) (Some completed)]> d)) /\
  (forall tr analysis, agent_outcome tweet env = Returned (tr, Some analysis) ->
     exists row,
       Grabber.processTweet JSON_stringify tweet env d = (Returned tt, <[id tweet := row]> d) /\
       status row = Some completed /\
       category row = Agent.category (Agent.object analysis) /\
       processed_at row = committed_at env /\
       (forall page, notion_page_id row = Some page <->
          pageExists_reply env = Returned false /\ createPage_reply env = Returned page) /\
       raw_data row =
         JSON_stringify match pageExists_reply env with
                        | Returned true => InNotionPayload tweet tr analysis
                        | _ => AnalysedPayload tweet tr analysis
                        end).
Proof.
  unfold agent_outcome, Grabber.processTweet. split.
  - intros tr ->. reflexivity.
  - intros tr analysis ->.
    destruct (pageExists_reply env) as [[|]|e] eqn:Hex;
      [ | destruct (createPage_reply env) as [page|e] eqn:Hcr | ];
      (eexists; split; [reflexivity|]);
      cbn [markProcessed status category processed_at notion_page_id raw_data
           tweetId processedAt rec_category notionPageId rawData rec_status default];
      (split; [reflexivity|]); (split; [reflexivity|]); (split; [reflexivity|]).
    + split; [|reflexivity].
      intros page. split; [discriminate | intros [Habs _]; discriminate].
    + split; [|reflexivity].
      intros page'. split; [intros [= <-]; now split | intros [_ [= <-]]; reflexivity].
    + split; [|reflexivity].
      intros page. split; [discriminate | intros [_ Habs]; discriminate].
    + split; [|reflexivity].
      intros page. split; [discriminate | intros [Habs _]; discriminate].
Qed.

(** ** Turns of the loop *)

Lemma claimable_lookup tid (d d' : Ledger) :
  d' !! tid = d !! tid -> claimable tid d -> claimable tid d'.
Proof. unfold claimable. now intros ->. Qed.

Lemma processItem_other item w tid :
  tid <> id item.1 -> db (processItem item w).2 !! tid = db w !! tid.
Proof.
  intros Hne. destruct (processItem_turn JSON_stringify texts replies item w)
    as (turn & w' & Hp & Hframe & _).
  rewrite Hp. now apply Hframe.
Qed.

Lemma processItem_settled_stays item w tid :
  ~ claimable tid (db w) -> db (processItem item w).2 !! tid = db w !! tid.
Proof.
  intros Hn. destruct (decide (tid = id item.1)) as [->|Hne].
  - destruct item as [tweet env]. cbn [fst] in *.
    destruct (processItem_skips JSON_stringify texts replies tweet env w Hn)
      as (w' & Hp & Hdb & _).
    rewrite Hp. cbn [snd]. now rewrite Hdb.
  - now apply processItem_other.
Qed.

Lemma processItem_settles tweet env w :
  claimable (id tweet) (db w) -> settled (id tweet) (db (processItem (tweet, env) w).2).
Proof.
  intros Hc. unfold settled, status_of.
  destruct (agent_outcome tweet env) as [res|msg] eqn:Hag.
  - destruct (processItem_completes JSON_stringify texts replies tweet env w res Hc Hag)
      as (row & Hp & Hst).
    rewrite Hp. cbn [snd db set_db]. rewrite lookup_insert_eq. cbn. rewrite Hst. now left.
  - rewrite (processItem_fails JSON_stringify texts replies tweet env w msg Hc Hag).
    cbn [snd db set_db set_outbox]. rewrite releaseLock_same, lookup_insert_eq. now right.
Qed.

Lemma settled_not_locked tid (d : Ledger) : settled tid d -> isLocked tid d = false.
Proof.
  unfold settled, status_of, isLocked.
  destruct (d !! tid) as [row|]; cbn; [|reflexivity].
  intros [[= ->] | [= ->]]; reflexivity.
Qed.

Lemma processItem_no_new_lock item w tid :
  isLocked tid (db (processItem item w).2) = true -> isLocked tid (db w) = true.
Proof.
  destruct (claimable_dec tid (db w)) as [Hc|Hn].
  - destruct (decide (tid = id item.1)) as [->|Hne].
    + destruct item as [tweet env]. cbn [fst] in *.
      rewrite (settled_not_locked _ _ (processItem_settles tweet env w Hc)). discriminate.
    + unfold isLocked. now rewrite processItem_other.
  - unfold isLocked. now rewrite processItem_settled_stays.
Qed.

Lemma processItem_keeps_settled item w tid :
  settled tid (db w) -> settled tid (db (processItem item w).2).
Proof.
  intros Hs. destruct (claimable_dec tid (db w)) as [Hc|Hn].
  - destruct (decide (tid = id item.1)) as [->|Hne].
    + destruct item as [tweet env]. now apply processItem_settles.
    + unfold settled, status_of in *. now rewrite processItem_other.
  - unfold settled, status_of in *. now rewrite processItem_settled_stays.
Qed.

Lemma processItems_step item rest w :
  (processItems (item :: rest) w).2 = (processItems rest (processItem item w).2).2.
Proof.
  rewrite processItems_cons.
  destruct (processItem_turn JSON_stringify texts replies item w) as (turn & w' & Hp & _).
  rewrite Hp. cbn [snd].
  destruct (processItems rest w') as [[turns thrown] w2]. reflexivity.
Qed.

Lemma processItems_settles tweets : forall w tid,
  (tid ∈ map (fun item => id item.1) tweets /\ claimable tid (db w)) \/ settled tid (db w) ->
  settled tid (db (processItems tweets w).2).
Proof.
  induction tweets as [|item rest IH]; intros w tid H.
  - destruct H as [[Hin _] | Hs]; [inversion Hin | exact Hs].
  - rewrite processItems_step. apply IH.
    destruct H as [[Hin Hc] | Hs].
    + destruct (decide (tid = id item.1)) as [->|Hne].
      * right. destruct item as [tweet env]. now apply processItem_settles.
      * left. cbn [map] in Hin. apply elem_of_cons in Hin as [Heq | Hin]; [contradiction|].
        split; [exact Hin|]. apply (claimable_lookup tid (db w)); [|exact Hc].
        now apply processItem_other.
    + right. now apply processItem_keeps_settled.
Qed.

(** X16: a pass leaves settled work alone.  The record of an
    identifier that is not claimable, because it is handled or locked, is
    the same after the loop as before it, whether or not the identifier is
    in the batch; and a batch with nothing claimable in it is skipped tweet
    by tweet, with nothing written and nothing posted. *)
Theorem settled_records_stay tweets w :
  let result := processItems tweets w in
  (forall tid, ~ claimable tid (db w) -> db result.2 !! tid = db w !! tid) /\
  ((forall item, item ∈ tweets -> ~ claimable (id item.1) (db w)) ->
   result.1.1 = List.repeat Skipped (length tweets) /\
   db result.2 = db w /\ outbox result.2 = outbox w).
Proof.
  cbv zeta. split.
  - revert w. induction tweets as [|item rest IH]; intros w tid Hn; [reflexivity|].
    rewrite processItems_step.
    pose proof (processItem_settled_stays item w tid Hn) as Hstay.
    rewrite IH; [exact Hstay|].
    intros Hc. apply Hn. apply (claimable_lookup tid (db (processItem item w).2)); auto.
  - revert w. induction tweets as [|[tweet env] rest IH]; intros w Hall;
      [now repeat split|].
    destruct (processItem_skips JSON_stringify texts replies tweet env w)
      as (w' & Hp & Hdb & Hout).
    { apply (Hall (tweet, env)), list_elem_of_here. }
    rewrite processItems_cons, Hp.
    destruct (IH w') as (Hturns & Hdb' & Hout').
    { intros item Hin. rewrite Hdb. apply Hall. now apply list_elem_of_further. }
    destruct (processItems rest w') as [[turns thrown] w2]. cbn [fst snd length] in *.
    rewrite Hturns, Hdb', Hout', Hdb, Hout. now repeat split.
Qed.

(** X17: a pass leaves no lock behind.  No identifier is locked after
    the loop that was not locked before it; an identifier of the batch
    that was claimable ends 'completed' or 'failed', also when the batch
    names it more than once; and a settled identifier stays settled. *)
Theorem no_lock_left_behind tweets w :
  let w' := (processItems tweets w).2 in
  (forall tid, isLocked tid (db w') = true -> isLocked tid (db w) = true) /\
  (forall item, item ∈ tweets -> claimable (id item.1) (db w) -> settled (id item.1) (db w')) /\
  (forall tid, settled tid (db w) -> settled tid (db w')).
Proof.
  cbv zeta. split; [|split].
  - revert w. induction tweets as [|item rest IH]; intros w tid; [trivial|].
    rewrite processItems_step. intros Hl.
    apply (processItem_no_new_lock item w), IH, Hl.
  - intros item Hin Hc. apply processItems_settles. left. split; [|exact Hc].
    apply (list_elem_of_fmap_2 (fun it : Tweet * ItemEnv => id it.1) tweets item Hin).
  - intros tid Hs. apply processItems_settles. now right.
Qed.

End GrabberMore.

Section GrabberPass.
Import Db Grabber.

Variable JSON_stringify : Payload -> string.
Variable texts : Telegram.Texts.
Variable replies : nat -> Telegram.Reply.

Abbreviation processItem := (Grabber.processItem JSON_stringify texts replies).
Abbreviation processItems := (Grabber.processItems JSON_stringify texts replies).
Abbreviation processBookmarks := (Grabber.processBookmarks JSON_stringify texts replies).
Abbreviation handleError := (Grabber.handleError texts replies).

(** ** [handleError], branch by branch *)

Lemma handleError_reports error whoami w :
  code (as_GrabberError error) <> AUTH_EXPIRED ->
  handleError error whoami w =
    (Returned tt, set_outbox w (outbox w ++ [report_of texts error])).
Proof.
  intros Hc. unfold Grabber.handleError.
  destruct (decide (code (as_GrabberError error) = AUTH_EXPIRED)); [contradiction|].
  unfold Telegram.notifyError. rewrite sendMessage_reply. reflexivity.
Qed.

Lemma handleError_rechecks error w :
  code (as_GrabberError error) = AUTH_EXPIRED ->
  handleError error true w = (Returned tt, w).
Proof.
  intros Hc. unfold Grabber.handleError.
  destruct (decide (code (as_GrabberError error) = AUTH_EXPIRED)); [reflexivity|contradiction].
Qed.

Lemma handleError_alerts error w :
  code (as_GrabberError error) = AUTH_EXPIRED ->
  handleError error false w =
    (if accepted (replies (length (outbox w))) then Returned tt
     else Threw (refusal (replies (length (outbox w)))),
     set_outbox (set_authValid w false) (outbox w ++ [auth_alert texts])).
Proof.
  intros Hc. unfold Grabber.handleError.
  destruct (decide (code (as_GrabberError error) = AUTH_EXPIRED)); [|contradiction].
  unfold Telegram.notifyAuthExpired. rewrite sendMessage_reply. reflexivity.
Qed.

Lemma handleError_keeps error whoami w :
  db (handleError error whoami w).2 = db w /\
  isFirstRun (handleError error whoami w).2 = isFirstRun w /\
  isProcessing (handleError error whoami w).2 = isProcessing w.
Proof.
  destruct (decide (code (as_GrabberError error) = AUTH_EXPIRED)) as [Hc|Hc].
  - destruct whoami.
    + rewrite handleError_rechecks by assumption. now repeat split.
    + rewrite handleError_alerts by assumption. now repeat split.
  - rewrite handleError_reports by assumption. now repeat split.
Qed.

Lemma processItem_keeps_flags item w :
  isFirstRun (processItem item w).2 = isFirstRun w /\
  isProcessing (processItem item w).2 = isProcessing w.
Proof.
  destruct item as [tweet env]. unfold Grabber.processItem.
  destruct (isProcessed (id tweet) (db w)); [now split|].
  destruct (tryLock (claimed_at env) (id tweet) (db w)) as [locked d1].
  destruct locked; cbn [negb]; [|now split].
  destruct (Grabber.processTweet JSON_stringify tweet env d1) as [[[]|error] d2]; [now split|].
  pose proof (handleError_keeps error (whoami_valid env)
                (set_db w (releaseLock (id tweet) failed d2))) as (_ & Hf & Hp).
  destruct (handleError error (whoami_valid env) _) as [[[]|e] w3]; now split.
Qed.

Lemma processItems_keeps_flags tweets : forall w,
  isFirstRun (processItems tweets w).2 = isFirstRun w /\
  isProcessing (processItems tweets w).2 = isProcessing w.
Proof.
  induction tweets as [|item rest IH]; intros w; [now split|].
  rewrite processItems_cons.
  pose proof (processItem_keeps_flags item w) as [Hf Hp].
  destruct (processItem item w) as [[turn|e] w1]; cbn [snd] in *.
  - destruct (IH w1) as [Hf' Hp'].
    destruct (processItems rest w1) as [[turns thrown] w2]. cbn [snd] in *.
    split; congruence.
  - now split.
Qed.

(** The bookmarks a pass asks for: [firstRunLimit] on the first run,
    twenty afterwards. *)
Definition pass_limit (firstRunLimit : nat) (w : World) : nat :=
  if isFirstRun w then firstRunLimit else 20.

(** X18: the guards of [processBookmarks].  A pass that finds another
    pass under way does nothing.  Otherwise [isProcessing] is [false]
    again when the pass ends, however it ends.  A pass without valid
    credentials whose recheck fails returns with the ledger and the
    outbox as they were.  No pass changes [isFirstRun]. *)
Theorem processBookmarks_guards firstRunLimit env w :
  let result := processBookmarks firstRunLimit env w in
  (isProcessing w = true -> result = (Returned tt, w)) /\
  (isProcessing w = false -> isProcessing result.2 = false) /\
  (isProcessing w = false -> authValid w = false -> recheck_valid env = false ->
     result.1 = Returned tt /\ db result.2 = db w /\ outbox result.2 = outbox w /\
     authValid result.2 = false) /\
  isFirstRun result.2 = isFirstRun w.
Proof.
  cbv zeta. split; [|split; [|split]].
  - intros Hbusy. unfold Grabber.processBookmarks. now rewrite Hbusy.
  - intros Hidle. unfold Grabber.processBookmarks. rewrite Hidle.
    destruct (negb (authValid (if authValid w then w else _))); [|].
    + destruct (authValid w); exact Hidle.
    + destruct (match getBookmarks_reply env _ with Returned _ => _ | Threw _ => _ end)
        as [r w3]. reflexivity.
  - intros Hidle Hauth Hre. unfold Grabber.processBookmarks.
    rewrite Hidle, Hauth. cbn [authValid set_authValid]. rewrite Hre. now repeat split.
  - unfold Grabber.processBookmarks.
    destruct (isProcessing w); [reflexivity|].
    destruct (authValid w) eqn:Hauth.
    + rewrite Hauth. cbn [negb].
      destruct (getBookmarks_reply env _) as [tweets|error].
      * pose proof (processItems_keeps_flags tweets (set_isProcessing w true)) as [Hf _].
        destruct (processItems tweets (set_isProcessing w true)) as [[turns [error|]] w2];
          cbn [snd] in Hf.
        -- pose proof (handleError_keeps error (pass_whoami_valid env) w2) as (_ & Hf' & _).
           destruct (handleError error (pass_whoami_valid env) w2) as [r w3].
           cbn in *. congruence.
        -- cbn in *. exact Hf.
      * pose proof (handleError_keeps error (pass_whoami_valid env) (set_isProcessing w true))
          as (_ & Hf' & _).
        destruct (handleError error (pass_whoami_valid env) _) as [r w3].
        cbn in *. exact Hf'.
    + cbn [authValid set_authValid]. destruct (recheck_valid env); cbn [negb]; [|reflexivity].
      destruct (getBookmarks_reply env _) as [tweets|error].
      * pose proof (processItems_keeps_flags tweets
                      (set_isProcessing (set_authValid w true) true)) as [Hf _].
        destruct (processItems tweets _) as [[turns [error|]] w2]; cbn [snd] in Hf.
        -- pose proof (handleError_keeps error (pass_whoami_valid env) w2) as (_ & Hf' & _).
           destruct (handleError error (pass_whoami_valid env) w2) as [r w3].
           cbn in *. congruence.
        -- cbn in *. exact Hf.
      * pose proof (handleError_keeps error (pass_whoami_valid env)
                      (set_isProcessing (set_authValid w true) true)) as (_ & Hf' & _).
        destruct (handleError error (pass_whoami_valid env) _) as [r w3].
        cbn in *. exact Hf'.
Qed.



(** X20: the one way [processBookmarks] throws.  It throws only when
    [getBookmarks] threw an AUTH_EXPIRED error, the recheck of the
    credentials failed, and Telegram did not accept the alert; what it
    throws is the error of that send.  The processing of the bookmarks
    themselves never makes a pass throw. *)
Theorem processBookmarks_throws firstRunLimit env w e :
  (processBookmarks firstRunLimit env w).1 = Threw e ->
  isProcessing w = false /\
  (exists error,
     getBookmarks_reply env (pass_limit firstRunLimit w) = Threw error /\
     code (as_GrabberError error) = AUTH_EXPIRED) /\
  pass_whoami_valid env = false /\
  accepted (replies (length (outbox w))) = false /\
  e = refusal (replies (length (outbox w))).
Proof.
  unfold Grabber.processBookmarks, pass_limit.
  destruct (isProcessing w) eqn:Hidle; [discriminate|].
  assert (Hcase : forall w1,
    isFirstRun w1 = isFirstRun w -> outbox w1 = outbox w ->
    (let '(r, w3) :=
       match getBookmarks_reply env (if isFirstRun w1 then firstRunLimit else 20) with
       | Threw error => handleError error (pass_whoami_valid env) w1
       | Returned tweets =>
           match processItems tweets w1 with
           | (_, None, w2) => (Returned tt, w2)
           | (_, Some error, w2) => handleError error (pass_whoami_valid env) w2
           end
       end in (r, set_isProcessing w3 false)).1 = Threw e ->
    false = false /\
    (exists error,
       getBookmarks_reply env (if isFirstRun w then firstRunLimit else 20) = Threw error /\
       code (as_GrabberError error) = AUTH_EXPIRED) /\
    pass_whoami_valid env = false /\
    accepted (replies (length (outbox w))) = false /\
    e = refusal (replies (length (outbox w)))).
  { intros w1 Hf Ho. rewrite Hf.
    destruct (getBookmarks_reply env _) as [tweets|error].
    - destruct (processItems_runs JSON_stringify texts replies tweets w1) as (Hnone & _).
      destruct (processItems tweets w1) as [[turns thrown] w2]. cbn [fst snd] in Hnone.
      subst thrown. discriminate.
    - destruct (decide (code (as_GrabberError error) = AUTH_EXPIRED)) as [Hc|Hc].
      + destruct (pass_whoami_valid env).
        * rewrite handleError_rechecks by assumption. discriminate.
        * rewrite handleError_alerts by assumption. rewrite Ho. cbn [fst].
          destruct (accepted (replies (length (outbox w)))); [discriminate|].
          intros [= <-]. split; [reflexivity|]. split; [now exists error|]. now repeat split.
      + rewrite handleError_reports by assumption. discriminate. }
  destruct (authValid w) eqn:Hauth.
  - rewrite Hauth. cbn [negb]. apply Hcase; reflexivity.
  - cbn [authValid set_authValid]. destruct (recheck_valid env); cbn [negb]; [|discriminate].
    apply Hcase; reflexivity.
Qed.

End GrabberPass.

(* ================================================================== *)
(** * ScraperService and the enrichment step *)
(* ================================================================== *)

(** An optional string that JavaScript takes for true: present and not
    empty. *)
Definition truthy_string (o : option string) : option string :=
  match o with
  | Some s => if String.eqb s "" then None else Some s
  | None => None
  end.

Module Scraper.

(** What Firecrawl answers: the markdown and the metadata it found. *)
Record Doc : Set := mkDoc {
  markdown : option string;
  meta_title : option string;
  meta_description : option string;
  meta_ogSiteName : option string;
  meta_url : option string
}.

Record ScrapedArticle : Set := mkScraped {
  sa_url : string;
  sa_title : string;
  sa_content : string;
  sa_excerpt : option string;
  sa_siteName : option string
}.

(** The service and what it leans on: the Firecrawl client, absent
    without an API key, whose [scrape] may reject; [new URL(u).hostname],
    [None] when the constructor throws; and the two helpers that work by
    regular expressions on the parsed URL. *)
Record Env : Type := mkEnv {
  firecrawl : option (string -> Outcome string Doc);
  hostname : string -> option string;
  extractTitleFromUrl : string -> string;
  isScrapableUrl : string -> bool
}.

(** [ogSiteName || (metadata.url ? new URL(metadata.url).hostname : undefined)]:
    [None] when the constructor throws. *)
Definition siteName (env : Env) (doc : Doc) : option (option string) :=
  match truthy_string (meta_ogSiteName doc) with
  | Some name => Some (Some name)
  | None =>
      match truthy_string (meta_url doc) with
      | Some u =>
          match hostname env u with
          | Some h => Some (Some h)
          | None => None
          end
      | None => Some None
      end
  end.

Definition scrapeArticle (env : Env) (url : string) : option ScrapedArticle :=
  match firecrawl env with
  | None => None
  | Some scrape =>
      match scrape url with
      | Threw _ => None
      | Returned doc =>
          match truthy_string (markdown doc) with
          | None => None
          | Some content =>
              let title :=
                default (extractTitleFromUrl env url) (truthy_string (meta_title doc)) in
              match siteName env doc with
              | None => None
              | Some site =>
                  Some {| sa_url := url; sa_title := title; sa_content := content;
                          sa_excerpt := meta_description doc; sa_siteName := site |}
              end
          end
      end
  end.

(** [scrapeMultiple]: the scrapes that settled with an article, in the
    order of the URLs. *)
Definition scrapeMultiple (env : Env) (urls : list string) : list ScrapedArticle :=
  omap (scrapeArticle env) urls.

End Scraper.

Module Enrich.
Import Agent.

(** The services [fetchEnrichment] calls.  [getTranscript] answers
    [None] for [null]; [analyzeImage] answers the empty string when the
    vision model fails; [getThread] answers the empty list when the
    command fails. *)
Record Services : Type := mkServices {
  scraper : Scraper.Env;
  getTranscript : string -> option string;
  analyzeImage : string -> string;
  getThread : string -> list Tweet
}.

Definition fetchEnrichment (sv : Services) (tweet : Tweet) (tr : TriageResult)
  : EnrichedContext :=
  let articles :=
    if (0 <? length (needsArticleScrape tr))%nat then
      let urls :=
        map (fun a : string * string * Priority => a.1.1)
          (filter (fun a : string * string * Priority =>
                     Scraper.isScrapableUrl (scraper sv) a.1.1 = true)
             (needsArticleScrape tr)) in
      if (0 <? length urls)%nat then
        map (fun a => mkArticle (Scraper.sa_url a) (Scraper.sa_content a)
                        (Some (Scraper.sa_title a)))
          (Scraper.scrapeMultiple (scraper sv) urls)
      else []
    else [] in
  let transcripts :=
    if (0 <? length (needsYoutubeTranscript tr))%nat then
      omap (fun yt : string * string =>
              mkTranscript yt.1 <$> truthy_string (getTranscript sv yt.1))
        (needsYoutubeTranscript tr)
    else [] in
  let imageDescriptions :=
    if (0 <? length (needsImageAnalysis tr))%nat then
      omap (fun img : string * string =>
              mkImageDescription img.1 <$> truthy_string (Some (analyzeImage sv img.1)))
        (needsImageAnalysis tr)
    else [] in
  let threadTweets :=
    if needsThreadExpansion tr || isThread tweet then
      map (fun t => (id t, text t))
        (filter (fun t => id t <> id tweet) (getThread sv (id tweet)))
    else [] in
  {| articles := articles; transcripts := transcripts;
     imageDescriptions := imageDescriptions; threadTweets := threadTweets |}.

End Enrich.

Section EnrichFacts.
Import Agent Enrich.

Lemma truthy_string_Some o s : truthy_string o = Some s -> o = Some s /\ s <> "".
Proof.
  destruct o as [x|]; cbn; [|discriminate].
  destruct (String.eqb_spec x ""); [discriminate|]. intros [= <-]. now split.
Qed.

Lemma scrapeArticle_Some env url a :
  Scraper.scrapeArticle env url = Some a ->
  Scraper.sa_url a = url /\ Scraper.sa_content a <> "" /\ Scraper.firecrawl env <> None.
Proof.
  unfold Scraper.scrapeArticle.
  destruct (Scraper.firecrawl env) as [scrape|]; [|discriminate].
  destruct (scrape url) as [doc|e]; [|discriminate].
  destruct (truthy_string (Scraper.markdown doc)) as [content|] eqn:Hmd; [|discriminate].
  destruct (Scraper.siteName env doc) as [site|]; [|discriminate].
  intros [= <-]. cbn. apply truthy_string_Some in Hmd as [_ Hne]. now repeat split.
Qed.

Lemma length_omap {A B} (f : A -> option B) (l : list A) :
  length (omap f l) <= length l.
Proof.
  induction l as [|x l IH]; [reflexivity|]. cbn.
  destruct (f x); cbn; lia.
Qed.

(** [fetchEnrichment] without the guards on empty lists, which change
    nothing. *)
Lemma fetchEnrichment_unguarded sv tweet tr :
  fetchEnrichment sv tweet tr =
    {| articles :=
         map (fun a => mkArticle (Scraper.sa_url a) (Scraper.sa_content a)
                         (Some (Scraper.sa_title a)))
           (Scraper.scrapeMultiple (scraper sv)
              (map (fun a : string * string * Priority => a.1.1)
                 (filter (fun a : string * string * Priority =>
                            Scraper.isScrapableUrl (scraper sv) a.1.1 = true)
                    (needsArticleScrape tr))));
       transcripts :=
         omap (fun yt : string * string =>
                 mkTranscript yt.1 <$> truthy_string (getTranscript sv yt.1))
           (needsYoutubeTranscript tr);
       imageDescriptions :=
         omap (fun img : string * string =>
                 mkImageDescription img.1 <$> truthy_string (Some (analyzeImage sv img.1)))
           (needsImageAnalysis tr);
       threadTweets :=
         if needsThreadExpansion tr || isThread tweet then
           map (fun t => (id t, text t))
             (filter (fun t => id t <> id tweet) (getThread sv (id tweet)))
         else [] |}.
Proof.
  unfold fetchEnrichment. cbv zeta. f_equal.
  - destruct (needsArticleScrape tr) as [|a l] eqn:Hl; [reflexivity|].
    cbn [length Nat.ltb Nat.leb].
    match goal with |- context [Scraper.scrapeMultiple _ ?u] => generalize u end.
    intros [|u us]; reflexivity.
  - destruct (needsYoutubeTranscript tr); reflexivity.
  - destruct (needsImageAnalysis tr); reflexivity.
Qed.

(** X21: where the enriched context comes from.  Every article is the
    scrape of a URL the triage asked for and [isScrapableUrl] let through,
    with the content and the title of that scrape, and there is none
    without a Firecrawl key; every transcript and every
    image description belongs to a URL the triage asked for; none of the
    three has empty content, and none outnumbers the requests.  The thread
    tweets are tweets of the expanded thread, never the bookmark itself,
    and there are none unless the triage or the tweet says thread. *)
Theorem fetchEnrichment_provenance sv tweet tr :
  let context := fetchEnrichment sv tweet tr in
  (forall a, a ∈ articles context ->
     article_content a <> "" /\ Scraper.isScrapableUrl (scraper sv) (article_url a) = true /\
     Scraper.firecrawl (scraper sv) <> None /\
     (exists request, request ∈ needsArticleScrape tr /\ request.1.1 = article_url a) /\
     exists scraped,
       Scraper.scrapeArticle (scraper sv) (article_url a) = Some scraped /\
       article_content a = Scraper.sa_content scraped /\
       article_title a = Some (Scraper.sa_title scraped)) /\
  (forall t, t ∈ transcripts context ->
     transcript_text t <> "" /\ getTranscript sv (transcript_url t) = Some (transcript_text t) /\
     exists request, request ∈ needsYoutubeTranscript tr /\ request.1 = transcript_url t) /\
  (forall d, d ∈ imageDescriptions context ->
     image_description d <> "" /\ analyzeImage sv (image_url d) = image_description d /\
     exists request, request ∈ needsImageAnalysis tr /\ request.1 = image_url d) /\
  (forall t, t ∈ threadTweets context ->
     t.1 <> id tweet /\ (needsThreadExpansion tr = true \/ isThread tweet = true) /\
     exists full, full ∈ getThread sv (id tweet) /\ t = (id full, text full)) /\
  length (articles context) <= length (needsArticleScrape tr) /\
  length (transcripts context) <= length (needsYoutubeTranscript tr) /\
  length (imageDescriptions context) <= length (needsImageAnalysis tr).
Proof.
  cbv zeta. rewrite fetchEnrichment_unguarded.
  cbn [articles transcripts imageDescriptions threadTweets].
  split; [|split; [|split; [|split; [|split; [|split]]]]].
  - intros a Ha. apply list_elem_of_fmap in Ha as (sa & -> & Hsa).
    apply list_elem_of_omap in Hsa as (url & Hurl & Hsc).
    pose proof (scrapeArticle_Some _ _ _ Hsc) as (Hu & Hc & Hkey).
    apply list_elem_of_fmap in Hurl as (request & -> & Hreq).
    apply list_elem_of_filter in Hreq as [Hok Hreq].
    cbn [article_url article_content article_title]. rewrite Hu.
    split; [exact Hc|]. split; [exact Hok|]. split; [exact Hkey|].
    split; [now exists request|]. now exists sa.
  - intros t Ht. apply list_elem_of_omap in Ht as (request & Hreq & Hsome).
    destruct (truthy_string (getTranscript sv request.1)) as [s|] eqn:Hs; [|discriminate].
    injection Hsome as <-. apply truthy_string_Some in Hs as [Hs Hne].
    cbn. split; [exact Hne|]. split; [exact Hs|]. now exists request.
  - intros d Hd. apply list_elem_of_omap in Hd as (request & Hreq & Hsome).
    destruct (truthy_string (Some (analyzeImage sv request.1))) as [s|] eqn:Hs; [|discriminate].
    injection Hsome as <-. apply truthy_string_Some in Hs as [[= Hs] Hne].
    cbn. split; [exact Hne|]. split; [exact Hs|]. now exists request.
  - intros t Ht.
    destruct (needsThreadExpansion tr || isThread tweet) eqn:Hflag; [|inversion Ht].
    apply list_elem_of_fmap in Ht as (full & -> & Hfull).
    apply list_elem_of_filter in Hfull as [Hne Hfull].
    split; [exact Hne|]. split; [now apply orb_true_iff|]. now exists full.
  - rewrite length_map. unfold Scraper.scrapeMultiple.
    etransitivity; [apply length_omap|]. rewrite length_map. apply length_filter.
  - apply length_omap.
  - apply length_omap.
Qed.

End EnrichFacts.

Section PipelineFacts.
Import Agent Enrich.

Lemma nonempty_elem {A} (l : list A) : l <> [] <-> exists x, x ∈ l.
Proof.
  destruct l as [|x l]; split.
  - congruence.
  - intros [x Hx]. inversion Hx.
  - intros _. exists x. apply list_elem_of_here.
  - discriminate.
Qed.

Lemma articles_fetched sv tweet tr :
  articles (fetchEnrichment sv tweet tr) <> [] <->
  exists request, request ∈ needsArticleScrape tr /\
    Scraper.isScrapableUrl (scraper sv) request.1.1 = true /\
    is_Some (Scraper.scrapeArticle (scraper sv) request.1.1).
Proof.
  rewrite fetchEnrichment_unguarded. cbn [articles]. rewrite nonempty_elem. split.
  - intros [a Ha]. apply list_elem_of_fmap in Ha as (sa & -> & Hsa).
    apply list_elem_of_omap in Hsa as (url & Hurl & Hsc).
    apply list_elem_of_fmap in Hurl as (request & -> & Hreq).
    apply list_elem_of_filter in Hreq as [Hok Hreq].
    exists request. split; [exact Hreq|]. split; [exact Hok|]. now exists sa.
  - intros (request & Hreq & Hok & sa & Hsa).
    eexists. apply list_elem_of_fmap. exists sa. split; [reflexivity|].
    apply list_elem_of_omap. exists request.1.1. split; [|exact Hsa].
    apply list_elem_of_fmap. exists request. split; [reflexivity|].
    apply list_elem_of_filter. now split.
Qed.

Lemma transcripts_fetched sv tweet tr :
  transcripts (fetchEnrichment sv tweet tr) <> [] <->
  exists request s, request ∈ needsYoutubeTranscript tr /\
    getTranscript sv request.1 = Some s /\ s <> "".
Proof.
  rewrite fetchEnrichment_unguarded. cbn [transcripts]. rewrite nonempty_elem. split.
  - intros [t Ht]. apply list_elem_of_omap in Ht as (request & Hreq & Hsome).
    destruct (truthy_string (getTranscript sv request.1)) as [s|] eqn:Hs; [|discriminate].
    apply truthy_string_Some in Hs as [Hs Hne]. now exists request, s.
  - intros (request & s & Hreq & Hs & Hne).
    exists (mkTranscript request.1 s). apply list_elem_of_omap. exists request.
    split; [exact Hreq|]. rewrite Hs. cbn.
    destruct (String.eqb_spec s ""); [contradiction | reflexivity].
Qed.

Lemma thread_fetched sv tweet tr :
  threadTweets (fetchEnrichment sv tweet tr) <> [] <->
  (needsThreadExpansion tr = true \/ isThread tweet = true) /\
  exists t, t ∈ getThread sv (id tweet) /\ id t <> id tweet.
Proof.
  rewrite fetchEnrichment_unguarded. cbn [threadTweets]. rewrite nonempty_elem.
  rewrite <- orb_true_iff.
  destruct (needsThreadExpansion tr || isThread tweet); split.
  - intros [t Ht]. apply list_elem_of_fmap in Ht as (full & -> & Hfull).
    apply list_elem_of_filter in Hfull as [Hne Hfull]. split; [reflexivity|]. now exists full.
  - intros (_ & t & Ht & Hne). exists (id t, text t).
    apply list_elem_of_fmap. exists t. split; [reflexivity|].
    apply list_elem_of_filter. now split.
  - intros [t Ht]. inversion Ht.
  - intros [Habs _]. discriminate.
Qed.

(** X22: the flags of an analysis, through the whole pipeline of the
    agent with [fetchEnrichment] as its fetcher.  [hasArticle] is set
    exactly when the provider set it or a URL the triage asked for was let
    through and scraped; [hasVideo] exactly when the provider set it or a
    requested transcript came back with text; [hasThread] exactly when the
    provider set it or the expansion, asked for by the triage or by the
    tweet, found a tweet other than the bookmark.  A request of the triage
    that fetched nothing sets no flag.  Without a Firecrawl key the
    analysis carries no article text. *)
Theorem pipeline_flags sv tweet triage_reply analysis_reply tr analysis :
  Agent.processTweet tweet triage_reply
    (fun tr => Returned (fetchEnrichment sv tweet tr)) analysis_reply =
    Returned (tr, Some analysis) ->
  exists obj, analysis_reply = Returned obj /\
    (hasArticle (object analysis) = true <->
       hasArticle obj = true \/
       exists request, request ∈ needsArticleScrape tr /\
         Scraper.isScrapableUrl (scraper sv) request.1.1 = true /\
         is_Some (Scraper.scrapeArticle (scraper sv) request.1.1)) /\
    (hasVideo (object analysis) = true <->
       hasVideo obj = true \/
       exists request s, request ∈ needsYoutubeTranscript tr /\
         getTranscript sv request.1 = Some s /\ s <> "") /\
    (hasThread (object analysis) = true <->
       hasThread obj = true \/
       ((needsThreadExpansion tr = true \/ isThread tweet = true) /\
        exists t, t ∈ getThread sv (id tweet) /\ id t <> id tweet)) /\
    (Scraper.firecrawl (scraper sv) = None -> articleContent analysis = None).
Proof.
  unfold Agent.processTweet, triage.
  destruct triage_reply as [tr0|e]; [|discriminate].
  destruct (decide (estimatedValue tr0 = value_skip)); [discriminate|].
  destruct analysis_reply as [obj|e]; [|discriminate].
  pose proof (articles_fetched sv tweet tr0) as Ha.
  pose proof (transcripts_fetched sv tweet tr0) as Hv.
  pose proof (thread_fetched sv tweet tr0) as Ht.
  assert (Hkey : Scraper.firecrawl (scraper sv) = None ->
                 articles (fetchEnrichment sv tweet tr0) = []).
  { intros Hnone.
    destruct (articles (fetchEnrichment sv tweet tr0)) as [|a rest] eqn:Hart; [reflexivity|].
    assert (Hne : a :: rest <> []) by discriminate.
    apply Ha in Hne as (request & _ & _ & sa & Hsa).
    apply scrapeArticle_Some in Hsa as (_ & _ & Hsome). contradiction. }
  revert Ha Hv Ht Hkey. generalize (fetchEnrichment sv tweet tr0). intros context Ha Hv Ht Hkey.
  unfold analyze. intros [= <- <-]. exists obj. split; [reflexivity|].
  cbn [object with_flags hasArticle hasVideo hasThread articleContent].
  rewrite !orb_true_iff, !positive_length, Ha, Hv, Ht.
  split; [reflexivity|]. split; [reflexivity|]. split; [reflexivity|].
  intros Hnone. now rewrite (Hkey Hnone).
Qed.

End PipelineFacts.

(* ================================================================== *)
(** * The weekly digest *)
(* ================================================================== *)

Module Digest.
Import Telegram.

(** The object the provider returns to [generateDigest]. *)
Record DigestObject : Set := mkDigest {
  digest : string;
  patterns : list string;
  recommendations : list string;
  topPicks : list (string * string)
}.

(** The pictographs of the four headings, which lie outside the
    alphabet of [string]. *)
Record Marks : Set := mkMarks {
  books : string;
  target : string;
  chart : string;
  bulb : string
}.

Definition pick_line (p : string * string) : string :=
  "- **" +:+ p.1 +:+ "**" +:+ nl +:+ "  _" +:+ p.2 +:+ "_".

Definition bullet (s : string) : string := "- " +:+ s.

(** [result += heading + lines.join('\n')] when there are lines. *)
Definition section (heading : string) (lines : list string) (result : string) : string :=
  if (0 <? length lines)%nat
  then result +:+ nl +:+ nl +:+ heading +:+ nl +:+ String.concat nl lines
  else result.

(** [generateDigest]: [reply] is the outcome of [generateObject]. *)
Definition generateDigest (mk : Marks) (reply : Outcome string DigestObject)
  : Outcome string string :=
  match reply with
  | Threw e => Threw e
  | Returned object =>
      let result := "# " +:+ books mk +:+ " Weekly Bookmark Digest" +:+ nl +:+ nl +:+
                    digest object in
      let result :=
        section ("## " +:+ target mk +:+ " Top Picks This Week")
          (map pick_line (topPicks object)) result in
      let result :=
        section ("## " +:+ chart mk +:+ " Patterns Noticed")
          (map bullet (patterns object)) result in
      let result :=
        section ("## " +:+ bulb mk +:+ " Recommendations")
          (map bullet (recommendations object)) result in
      Returned result
  end.

(** [sendWeeklyDigest]: the clock, the rowids of the table, the
    provider's answer and the answers of the Telegram API. *)
Definition sendWeeklyDigest (rt : Js.Runtime) (now : Z) (rowid : string -> nat) (mk : Marks)
    (reply : Outcome string DigestObject) (replies : nat -> Reply) (w : Grabber.World)
  : Outcome Thrown unit * Grabber.World :=
  let stats := Stats.getWeeklyStats rt now rowid (Grabber.db w) in
  if (Stats.totalProcessed stats =? 0)%nat then (Returned tt, w)
  else
    match generateDigest mk reply with
    | Threw e => (Threw (ThrownError e), w)
    | Returned text =>
        let '(r, o) := sendDigest replies text (Grabber.outbox w) in
        (r, Grabber.set_outbox w o)
    end.

End Digest.

Section DigestFacts.
Import Telegram Digest.

Lemma section_prefix heading lines result :
  exists more, section heading lines result = result +:+ more.
Proof.
  unfold section. destruct (0 <? length lines)%nat.
  - now eexists.
  - exists "". now rewrite append_nil_r.
Qed.

(** The text of a digest opens with the title line. *)
Lemma generateDigest_opens mk object :
  exists text more,
    generateDigest mk (Returned object) = Returned text /\ text = String "#"%char more.
Proof.
  unfold generateDigest. cbv zeta.
  destruct (section_prefix ("## " +:+ target mk +:+ " Top Picks This Week")
              (map pick_line (topPicks object))
              ("# " +:+ books mk +:+ " Weekly Bookmark Digest" +:+ nl +:+ nl +:+ digest object))
    as [m1 ->].
  destruct (section_prefix ("## " +:+ chart mk +:+ " Patterns Noticed")
              (map bullet (patterns object))
              (("# " +:+ books mk +:+ " Weekly Bookmark Digest" +:+ nl +:+ nl +:+
                digest object) +:+ m1)) as [m2 ->].
  destruct (section_prefix ("## " +:+ bulb mk +:+ " Recommendations")
              (map bullet (recommendations object))
              ((("# " +:+ books mk +:+ " Weekly Bookmark Digest" +:+ nl +:+ nl +:+
                 digest object) +:+ m1) +:+ m2)) as [m3 ->].
  do 2 eexists. split; [reflexivity|]. reflexivity.
Qed.

(** A text that does not begin with a newline gives at least one chunk. *)
Lemma chunkMessage_nonempty c rest n :
  c <> newline -> chunkMessage (String c rest) n <> [].
Proof.
  intros Hc Hnil. pose proof (chunkMessage_lines (String c rest) n) as Hkeep.
  rewrite Hnil in Hkeep. cbn [flat_map] in Hkeep.
  cbn [split_lines] in Hkeep.
  assert (Hcb : Ascii.eqb c newline = false) by now apply Ascii.eqb_neq.
  rewrite Hcb in Hkeep.
  destruct (split_lines rest) as [|line more]; unfold nonblank in Hkeep;
    rewrite filter_cons_True in Hkeep by discriminate; discriminate Hkeep.
Qed.

Lemma week_empty_iff rt now rowid (d : Db.Ledger) :
  Stats.totalProcessed (Stats.getWeeklyStats rt now rowid d) = 0 <->
  forall tid row, d !! tid = Some row ->
    String.leb (Stats.weekAgoStr rt now) (Db.processed_at row) = false.
Proof.
  unfold Stats.getWeeklyStats.
  destruct (aggregate_spec rt (Stats.select_since (Stats.weekAgoStr rt now) rowid d)) as [-> _].
  rewrite length_zero_iff_nil. split.
  - intros Hnil tid row Hrow.
    destruct (String.leb (Stats.weekAgoStr rt now) (Db.processed_at row)) eqn:Hw; [|reflexivity].
    assert (Hin : (tid, row) ∈ Stats.select_since (Stats.weekAgoStr rt now) rowid d)
      by now apply elem_of_select_since.
    rewrite Hnil in Hin. inversion Hin.
  - intros Hall.
    destruct (Stats.select_since (Stats.weekAgoStr rt now) rowid d) as [|[tid row] rest] eqn:Hs;
      [reflexivity|].
    assert (Hin : (tid, row) ∈ Stats.select_since (Stats.weekAgoStr rt now) rowid d)
      by (rewrite Hs; apply list_elem_of_here).
    apply elem_of_select_since in Hin as [Hrow Hw]. rewrite (Hall tid row Hrow) in Hw.
    discriminate.
Qed.

(** X23: the weekly digest.  [sendWeeklyDigest] never writes to the
    ledger.  In a week with no record in the window it returns at once and
    posts nothing.  In a week with a record, an error of the provider is
    thrown on and nothing is posted; when the provider answers, the digest
    is posted as [sendDigest] posts it, and since its text opens with the
    title line, at least one message is posted. *)
Theorem sendWeeklyDigest_posts rt now rowid mk reply replies w :
  let result := sendWeeklyDigest rt now rowid mk reply replies w in
  let empty_week :=
    forall tid row, Grabber.db w !! tid = Some row ->
      String.leb (Stats.weekAgoStr rt now) (Db.processed_at row) = false in
  Grabber.db result.2 = Grabber.db w /\
  (empty_week -> result = (Returned tt, w)) /\
  (~ empty_week -> forall e, reply = Threw e -> result = (Threw (ThrownError e), w)) /\
  (~ empty_week -> forall object, reply = Returned object ->
     exists text,
       generateDigest mk reply = Returned text /\
       result.1 = (sendDigest replies text (Grabber.outbox w)).1 /\
       Grabber.outbox result.2 = (sendDigest replies text (Grabber.outbox w)).2 /\
       length (Grabber.outbox w) < length (Grabber.outbox result.2)).
Proof.
  cbv zeta. unfold sendWeeklyDigest.
  pose proof (week_empty_iff rt now rowid (Grabber.db w)) as Hweek.
  destruct (Nat.eqb_spec (Stats.totalProcessed (Stats.getWeeklyStats rt now rowid (Grabber.db w))) 0)
    as [Hz|Hnz].
  - split; [reflexivity|]. split; [reflexivity|].
    split; intros Hn; contradict Hn; now apply Hweek.
  - split; [|split; [|split]].
    + destruct (generateDigest mk reply) as [text|e]; [|reflexivity].
      destruct (sendDigest replies text (Grabber.outbox w)). reflexivity.
    + intros Hempty. apply Hweek in Hempty. contradiction.
    + intros _ e ->. reflexivity.
    + intros _ object ->.
      destruct (generateDigest_opens mk object) as (text & more & Hgen & Htext).
      exists text. split; [exact Hgen|]. rewrite Hgen.
      pose proof (chunkMessage_nonempty "#"%char more 4000 ltac:(discriminate)) as Hne.
      rewrite <- Htext in Hne.
      pose proof (send_chunks_cons replies) as Hcons.
      unfold sendDigest in *.
      destruct (chunkMessage text 4000) as [|chunk rest]; [contradiction|].
      destruct (send_chunks_outbox replies (chunk :: rest) (Grabber.outbox w))
        as (k & Hout & _).
      destruct (send_chunks replies (chunk :: rest) (Grabber.outbox w)) as [r o] eqn:Hsend.
      cbn [fst snd Grabber.outbox Grabber.set_outbox] in *.
      split; [reflexivity|]. split; [reflexivity|].
      rewrite Hcons in Hsend.
      destruct (accepted (replies (length (Grabber.outbox w)))).
      * destruct (send_chunks_outbox replies rest
                    (Grabber.outbox w ++ [digest_message chunk])) as (k' & Hout' & _).
        rewrite Hsend in Hout'. cbn [snd] in Hout'. rewrite Hout', !length_app. cbn. lia.
      * injection Hsend as _ <-. rewrite length_app. cbn. lia.
Qed.

End DigestFacts.

(* ================================================================== *)
(** * NotionService *)
(* ================================================================== *)

Module Notion.
Import Agent.

(** [truncate].  A negative end of [slice] counts from the end of the
    text. *)
Definition truncate (text : string) (maxLength : nat) : string :=
  if (String.length text <=? maxLength)%nat then text
  else
    let stop :=
      if (3 <=? maxLength)%nat then (maxLength - 3)%nat
      else (String.length text - (3 - maxLength))%nat in
    Telegram.slice0 stop text +:+ "...".

(** [a || b] on strings. *)
Definition or_string (a b : string) : string := if String.eqb a "" then b else a.

(** A block of the parent page, as [findExistingDatabase] reads it. *)
Record ChildBlock : Set := mkChild {
  block_id : string;
  block_type : option string;
  child_database_title : option string
}.

(** The properties of the page [createPage] asks for. *)
Record PageProperties : Type := mkProperties {
  Topic : string;
  Score : float;
  Author : string;
  Category_ : Category;
  ForYou : string;
  Priority_ : ActionPriority;
  TopAction : string;
  PrimaryLink : option string;
  HasArticle : bool;
  HasVideo : bool;
  HasThread : bool;
  TLDR : string;
  Summary : string;
  Tags : list string;
  TweetURL : string;
  CreatedAt : string;
  ProcessedAt : string
}.

(** The blocks of the page, by their kind and the texts they hold. *)
Inductive Block : Set :=
  | Paragraph (texts : list string)
  | Divider
  | Quote (content : string)
  | Image (url : string)
  | BulletItem (texts : list string)
  | Toggle (label content : string).

(** The texts with pictographs, and the number in the header line. *)
Record Labels : Type := mkLabels {
  score_line : float -> string;
  category_tag : Category -> string;
  bulb_mark : string;
  link_mark : string;
  link_type_mark : LinkType -> string;
  quotes_label : string;
  transcript_label : string;
  article_label : string
}.

(** The Notion client and the clock: each call may reject, and
    [new Date(s).toISOString()] throws a [RangeError] on a date it cannot
    read. *)
Record Api : Type := mkApi {
  blocks_children_list : Outcome string (list ChildBlock);
  databases_create : Outcome string string;
  databases_query : string -> string -> Outcome string nat;
  pages_create : string -> PageProperties -> list Block -> Outcome string string;
  Date_toISOString : string -> Outcome string string;
  now_iso : string
}.

(** [findExistingDatabase] *)
Definition findExistingDatabase (api : Api) : option string :=
  match blocks_children_list api with
  | Threw _ => None
  | Returned results =>
      block_id <$>
        head (filter (fun b => block_type b = Some "child_database" /\
                               child_database_title b = Some "Grabber Bookmarks")
                results)
  end.

(** [createDatabase] *)
Definition createDatabase (api : Api) : Outcome GrabberError string :=
  match databases_create api with
  | Returned response_id => Returned response_id
  | Threw msg =>
      Threw {| message := "Failed to create Notion database: " +:+ msg;
               code := NOTION; retryable := false |}
  end.

(** [ensureDatabase]: the outcome and the field [databaseId] after it. *)
Definition ensureDatabase (api : Api) (databaseId : option string)
  : Outcome GrabberError string * option string :=
  match truthy_string databaseId with
  | Some cached => (Returned cached, databaseId)
  | None =>
      match truthy_string (findExistingDatabase api) with
      | Some existing => (Returned existing, Some existing)
      | None =>
          match createDatabase api with
          | Returned created => (Returned created, Some created)
          | Threw e => (Threw e, databaseId)
          end
      end
  end.

(** [pageExists] *)
Definition pageExists (api : Api) (tweetId : string) (databaseId : option string)
  : Outcome GrabberError bool * option string :=
  match ensureDatabase api databaseId with
  | (Threw e, st) => (Threw e, st)
  | (Returned dbId, st) =>
      match databases_query api dbId tweetId with
      | Returned results => (Returned (0 <? results)%nat, st)
      | Threw _ => (Returned false, st)
      end
  end.

Definition tweetUrl (tweet : Tweet) : string :=
  "https://x.com/" +:+ authorUsername tweet +:+ "/status/" +:+ id tweet.

(** [buildPageContent] *)
Definition buildPageContent (lb : Labels) (tweet : Tweet) (analysis : AnalysisResult)
  : list Block :=
  let o := object analysis in
  let extras :=
    (if (0 <? length (quotes o))%nat
     then [(quotes_label lb, String.concat (Telegram.nl +:+ Telegram.nl) (quotes o))]
     else []) ++
    match truthy_string (youtubeTranscript analysis) with
    | Some t => [(transcript_label lb, t)]
    | None => []
    end ++
    match truthy_string (articleContent analysis) with
    | Some a => [(article_label lb, a)]
    | None => []
    end in
  [Paragraph [score_line lb (relevanceScore o); "@" +:+ authorUsername tweet;
              category_tag lb (category o)]] ++
  [Paragraph [summary o]] ++
  (if String.eqb (forYou o) "" then [] else [Paragraph [bulb_mark lb; forYou o]]) ++
  [Divider] ++
  [Quote (truncate (text tweet) 2000)] ++
  map Image (take 4 (images tweet)) ++
  match truthy_string (primaryLink o) with
  | Some link => [Paragraph [link_mark lb; link]]
  | None => []
  end ++
  (if (0 <? length (keyInsights o))%nat
   then map (fun insight => BulletItem [insight]) (take 5 (keyInsights o))
   else []) ++
  (if (0 <? length (extractedLinks o))%nat
   then map (fun link : string * string * LinkType * string =>
               BulletItem [link_type_mark lb link.1.2; link.1.1.2])
          (take 5 (extractedLinks o))
   else []) ++
  map (fun extra : string * string => Toggle extra.1 (truncate extra.2 2000)) extras.

(** The properties of the page; reading the date of the tweet may
    throw, inside the [try]. *)
Definition pageProperties (api : Api) (tweet : Tweet) (analysis : AnalysisResult)
  : Outcome string PageProperties :=
  let o := object analysis in
  let topPriority :=
    match head (actionItems o) with
    | Some item => item.1.2
    | None => someday
    end in
  match Date_toISOString api (createdAt tweet) with
  | Threw msg => Threw msg
  | Returned created =>
      Returned
           {| Topic := truncate (or_string (or_string (topic o) (tldr o)) (summary o)) 50;
              Score := relevanceScore o;
              Author := "@" +:+ authorUsername tweet;
              Category_ := category o;
              ForYou := truncate (forYou o) 250;
              Priority_ := topPriority;
              TopAction := truncate (default "" (topAction o)) 100;
              PrimaryLink := truthy_string (primaryLink o);
              HasArticle := hasArticle o;
              HasVideo := hasVideo o;
              HasThread := hasThread o;
              TLDR := truncate (tldr o) 280;
              Summary := truncate (summary o) 2000;
              Tags := take 7 (tags o);
              TweetURL := tweetUrl tweet;
              CreatedAt := created;
              ProcessedAt := now_iso api |}
  end.

(** [createPage] *)
Definition createPage (api : Api) (lb : Labels) (tweet : Tweet) (analysis : AnalysisResult)
    (databaseId : option string) : Outcome GrabberError string * option string :=
  match ensureDatabase api databaseId with
  | (Threw e, st) => (Threw e, st)
  | (Returned dbId, st) =>
      let failed_with msg :=
        Threw {| message := "Failed to create Notion page: " +:+ msg;
                 code := NOTION; retryable := true |} in
      match pageProperties api tweet analysis with
      | Threw msg => (failed_with msg, st)
      | Returned properties =>
          match pages_create api dbId properties (buildPageContent lb tweet analysis) with
          | Returned response_id => (Returned response_id, st)
          | Threw msg => (failed_with msg, st)
          end
      end
  end.

End Notion.

(** The texts of a block that [truncate] has cut to the limit of Notion. *)
Definition cut_content (b : Notion.Block) : option string :=
  match b with
  | Notion.Quote content => Some content
  | Notion.Toggle _ content => Some content
  | _ => None
  end.

Definition is_image (b : Notion.Block) : bool :=
  match b with
  | Notion.Image _ => true
  | _ => false
  end.

Section NotionFacts.
Import Agent Notion.

Lemma truncate_short text maxLength :
  String.length text <= maxLength -> truncate text maxLength = text.
Proof.
  intros H. unfold truncate.
  now replace (String.length text <=? maxLength)%nat with true
    by (symmetry; now apply Nat.leb_le).
Qed.

Lemma truncate_long text maxLength :
  maxLength < String.length text ->
  truncate text maxLength =
    Telegram.slice0 (if (3 <=? maxLength)%nat then maxLength - 3
                     else String.length text - (3 - maxLength)) text +:+ "...".
Proof.
  intros H. unfold truncate.
  now replace (String.length text <=? maxLength)%nat with false
    by (symmetry; apply Nat.leb_gt; lia).
Qed.

Lemma truncate_length text maxLength :
  3 <= maxLength -> String.length (truncate text maxLength) <= maxLength.
Proof.
  intros H3. destruct (Nat.le_gt_cases (String.length text) maxLength) as [Hs|Hl].
  - now rewrite truncate_short.
  - rewrite truncate_long by assumption.
    replace (3 <=? maxLength)%nat with true by (symmetry; now apply Nat.leb_le).
    rewrite length_append, slice0_length. cbn [String.length]. lia.
Qed.

(** X24: [truncate].  A text within the limit is returned as it is.
    For a limit of three or more the result is within the limit, a longer
    text is cut to the limit exactly and ends in three dots, and
    truncating twice is truncating once.  For a limit under three a longer
    text comes back longer than it was. *)
Theorem truncate_bounds text maxLength :
  (String.length text <= maxLength -> truncate text maxLength = text) /\
  (3 <= maxLength ->
     String.length (truncate text maxLength) <= maxLength /\
     (maxLength < String.length text ->
        truncate text maxLength = Telegram.slice0 (maxLength - 3) text +:+ "..." /\
        String.length (truncate text maxLength) = maxLength) /\
     truncate (truncate text maxLength) maxLength = truncate text maxLength) /\
  (maxLength < 3 -> maxLength < String.length text -> 3 <= String.length text ->
     String.length (truncate text maxLength) = String.length text + maxLength).
Proof.
  split; [apply truncate_short|]. split.
  - intros H3. split; [now apply truncate_length|]. split.
    + intros Hl. rewrite truncate_long by assumption.
      replace (3 <=? maxLength)%nat with true by (symmetry; now apply Nat.leb_le).
      split; [reflexivity|].
      rewrite length_append, slice0_length. cbn [String.length]. lia.
    + apply truncate_short. now apply truncate_length.
  - intros Hsmall Hl Hlen. rewrite truncate_long by assumption.
    replace (3 <=? maxLength)%nat with false by (symmetry; apply Nat.leb_gt; lia).
    rewrite length_append, slice0_length. cbn [String.length]. lia.
Qed.

(** ** The page *)

Lemma length_take_le {A} n (l : list A) : length (take n l) <= n.
Proof. rewrite length_take. lia. Qed.

Lemma guarded_map_length {A B} (f : A -> B) n (l : list A) :
  length (if (0 <? length l)%nat then map f (take n l) else []) <= n.
Proof.
  destruct (0 <? length l)%nat; [|cbn; lia].
  rewrite length_map. apply length_take_le.
Qed.

(** X25: the page [createPage] asks for keeps to the limits.  Topic
    has at most 50 characters, For You 250, Top Action 100, TL;DR 280 and
    Summary 2000; there are at most seven tags, the first seven of the
    analysis; the topic is the first of topic, TL;DR and summary that is
    not empty.  The content has between four and twenty-three blocks, at
    most four of them images, and the quoted tweet and every collapsible
    text have at most 2000 characters. *)
Theorem page_within_limits api lb tweet analysis :
  (forall properties, pageProperties api tweet analysis = Returned properties ->
     String.length (Topic properties) <= 50 /\
     String.length (ForYou properties) <= 250 /\
     String.length (TopAction properties) <= 100 /\
     String.length (TLDR properties) <= 280 /\
     String.length (Summary properties) <= 2000 /\
     length (Tags properties) <= 7 /\
     Tags properties = take 7 (tags (object analysis)) /\
     (topic (object analysis) <> "" ->
        Topic properties = truncate (topic (object analysis)) 50)) /\
  4 <= length (buildPageContent lb tweet analysis) <= 23 /\
  length (filter (fun b => is_image b = true) (buildPageContent lb tweet analysis)) <= 4 /\
  (forall b content, b ∈ buildPageContent lb tweet analysis ->
     cut_content b = Some content -> String.length content <= 2000).
Proof.
  split; [|split; [|split]].
  - intros properties. unfold pageProperties.
    destruct (Date_toISOString api (createdAt tweet)) as [created|msg]; [|discriminate].
    intros [= <-]. cbn.
    repeat (split; [apply truncate_length; lia|]).
    split; [apply length_take_le|]. split; [reflexivity|].
    intros Hne. unfold or_string.
    destruct (String.eqb_spec (topic (object analysis)) ""); [contradiction|].
    now destruct (String.eqb_spec (topic (object analysis)) "").
  - unfold buildPageContent. cbv zeta. rewrite !length_app, !length_map.
    pose proof (length_take_le 4 (images tweet)).
    pose proof (guarded_map_length (fun insight => BulletItem [insight]) 5
                  (keyInsights (object analysis))).
    pose proof (guarded_map_length
                  (fun link : string * string * LinkType * string =>
                     BulletItem [link_type_mark lb link.1.2; link.1.1.2]) 5
                  (extractedLinks (object analysis))).
    destruct (String.eqb (forYou (object analysis)) "");
      destruct (truthy_string (primaryLink (object analysis)));
      destruct (0 <? length (quotes (object analysis)))%nat;
      destruct (truthy_string (youtubeTranscript analysis));
      destruct (truthy_string (articleContent analysis)); cbn [length app]; lia.
  - unfold buildPageContent. cbv zeta. rewrite !filter_app.
    rewrite !length_app.
    assert (Himg : forall l : list string,
              length (filter (fun b => is_image b = true) (map Image l)) = length l).
    { induction l as [|x l IH]; [reflexivity|]. cbn [map].
      rewrite filter_cons_True by reflexivity. cbn. now rewrite IH. }
    assert (Hnone : forall l : list Block,
              (forall b, b ∈ l -> is_image b = false) ->
              length (filter (fun b => is_image b = true) l) = 0).
    { induction l as [|x l IH]; intros Hall; [reflexivity|].
      rewrite filter_cons_False
        by (rewrite (Hall x) by apply list_elem_of_here; discriminate).
      apply IH. intros b Hb. apply Hall. now apply list_elem_of_further. }
    rewrite Himg. pose proof (length_take_le 4 (images tweet)).
    repeat match goal with
    | |- context [length (filter _ ?l)] =>
        lazymatch l with
        | map Image _ => fail
        | _ => rewrite (Hnone l)
        end
    end; try lia.
    all: intros b Hb;
      repeat match goal with
      | H : _ ∈ (if ?c then _ else _) |- _ => destruct c
      | H : _ ∈ match ?c with Some _ => _ | None => _ end |- _ => destruct c
      | H : _ ∈ map _ _ |- _ => apply list_elem_of_fmap in H as (? & -> & ?)
      | H : _ ∈ [_] |- _ => apply list_elem_of_singleton in H as ->
      | H : _ ∈ [] |- _ => inversion H
      end; try reflexivity.
  - unfold buildPageContent. cbv zeta. intros b content Hb Hcut.
    repeat (apply elem_of_app in Hb as [Hb|Hb]);
      repeat match goal with
      | H : _ ∈ (if ?c then _ else _) |- _ => destruct c
      | H : _ ∈ match ?c with Some _ => _ | None => _ end |- _ => destruct c
      | H : _ ∈ map _ _ |- _ => apply list_elem_of_fmap in H as (? & -> & ?)
      | H : _ ∈ [_] |- _ => apply list_elem_of_singleton in H as ->
      | H : _ ∈ [] |- _ => inversion H
      end; try discriminate Hcut;
      cbn in Hcut; injection Hcut as <-; apply truncate_length; lia.
Qed.

End NotionFacts.

Section NotionErrors.
Import Notion.

Lemma ensureDatabase_cases api databaseId :
  (exists dbId, ensureDatabase api databaseId = (Returned dbId, Some dbId)) \/
  (exists msg,
     ensureDatabase api databaseId =
       (Threw {| message := "Failed to create Notion database: " +:+ msg;
                 code := NOTION; retryable := false |}, databaseId) /\
     truthy_string databaseId = None /\ truthy_string (findExistingDatabase api) = None /\
     databases_create api = Threw msg).
Proof.
  unfold ensureDatabase.
  destruct (truthy_string databaseId) as [cached|] eqn:Hc.
  - left. exists cached. apply truthy_string_Some in Hc as [-> _]. reflexivity.
  - destruct (truthy_string (findExistingDatabase api)) as [existing|] eqn:He.
    + left. now exists existing.
    + unfold createDatabase. destruct (databases_create api) as [created|msg].
      * left. now exists created.
      * right. exists msg. now repeat split.
Qed.

(** X26: the database of the service and the errors of its calls.
    Once [ensureDatabase] has answered with an identifier that is not
    empty, the identifier is kept and every later call answers with it,
    whatever Notion does.  [pageExists] answers "no" when its query
    fails; it throws only when no database is known or found and none can
    be created, and that error is a NOTION error that is not retryable.
    Every error of [createPage] is a NOTION error, retryable exactly when
    the database was there and the page itself failed. *)
Theorem notion_database_and_errors api api' lb tweet analysis tweetId databaseId :
  (forall dbId st, ensureDatabase api databaseId = (Returned dbId, st) -> dbId <> "" ->
     st = Some dbId /\ ensureDatabase api' st = (Returned dbId, st)) /\
  (forall dbId st msg, ensureDatabase api databaseId = (Returned dbId, st) ->
     databases_query api dbId tweetId = Threw msg ->
     pageExists api tweetId databaseId = (Returned false, st)) /\
  (forall e st, pageExists api tweetId databaseId = (Threw e, st) ->
     code e = NOTION /\ retryable e = false /\ st = databaseId /\
     truthy_string databaseId = None /\ truthy_string (findExistingDatabase api) = None /\
     exists msg, databases_create api = Threw msg /\
                 message e = "Failed to create Notion database: " +:+ msg) /\
  (forall e st, createPage api lb tweet analysis databaseId = (Threw e, st) ->
     code e = NOTION /\
     (retryable e = true <-> exists dbId, (ensureDatabase api databaseId).1 = Returned dbId)).
Proof.
  split; [|split; [|split]].
  - intros dbId st Hens Hne.
    destruct (ensureDatabase_cases api databaseId) as [[d Hd] | (msg & Hd & _)];
      rewrite Hd in Hens; [|discriminate].
    injection Hens as <- <-. split; [reflexivity|].
    unfold ensureDatabase. cbn [truthy_string].
    destruct (String.eqb_spec d ""); [contradiction | reflexivity].
  - intros dbId st msg Hens Hq. unfold pageExists. now rewrite Hens, Hq.
  - intros e st. unfold pageExists.
    destruct (ensureDatabase_cases api databaseId) as [[d Hd] | (msg & Hd & Hc & Hf & Hcr)];
      rewrite Hd.
    + destruct (databases_query api d tweetId); discriminate.
    + intros [= <- <-]. repeat (split; [assumption || reflexivity|]). now exists msg.
  - intros e st. unfold createPage.
    destruct (ensureDatabase_cases api databaseId) as [[d Hd] | (msg & Hd & _)]; rewrite Hd.
    + destruct (pageProperties api tweet analysis) as [properties|msg].
      * destruct (pages_create api d properties _) as [page|msg]; [discriminate|].
        intros [= <- _]. cbn. split; [reflexivity|]. split; [now exists d | reflexivity].
      * intros [= <- _]. cbn. split; [reflexivity|]. split; [now exists d | reflexivity].
    + intros [= <- _]. cbn. split; [reflexivity|]. split; [discriminate|].
      intros [d Hd']. discriminate.
Qed.

End NotionErrors.

(* ================================================================== *)
(** * BirdService *)
(* ================================================================== *)

Module Bird.

(** [hay.startsWith(needle)] and [hay.includes(needle)] *)
Fixpoint starts_with (needle hay : string) : bool :=
  match needle, hay with
  | EmptyString, _ => true
  | String _ _, EmptyString => false
  | String a needle', String b hay' => Ascii.eqb a b && starts_with needle' hay'
  end.

Fixpoint includes (needle hay : string) : bool :=
  starts_with needle hay ||
  match hay with
  | EmptyString => false
  | String _ rest => includes needle rest
  end.

Inductive MediaType : Set := photo | video_ | animated_gif.

(** [BirdMediaSchema] and [BirdTweetSchema], the fields [mapToTweet]
    reads. *)
Record Media : Set := mkMedia {
  media_type : MediaType;
  media_url : string;
  videoUrl : option string
}.

Record BirdTweet : Set := mkBirdTweet {
  bird_id : string;
  bird_text : string;
  bird_createdAt : string;
  conversationId : option string;
  author_username : string;
  author_name : string;
  media : option (list Media)
}.

(** What one run of the command line leaves. *)
Record Output : Set := mkOutput {
  stdout : string;
  stderr : string
}.

(** The command, [JSON.parse], the schema and the regular expression
    for URLs.  [exec] rejects with an error that has a message. *)
Record Env : Type := mkEnv {
  exec_bookmarks : nat -> Outcome string Output;
  exec_thread : string -> Outcome string Output;
  exec_whoami : Outcome string Output;
  JSON_parse : string -> Outcome string Js.Value;
  BirdTweetSchema_parse : Js.Value -> option BirdTweet;
  match_urls : string -> list string
}.

Definition mapToTweet (env : Env) (birdTweet : BirdTweet) : Tweet :=
  let items := default [] (media birdTweet) in
  let videoUrls :=
    omap (fun m =>
            match media_type m with
            | photo => None
            | _ => truthy_string (videoUrl m)
            end) items in
  {| id := bird_id birdTweet;
     text := bird_text birdTweet;
     authorUsername := author_username birdTweet;
     authorName := author_name birdTweet;
     createdAt := bird_createdAt birdTweet;
     urls := match_urls env (bird_text birdTweet) ++ videoUrls;
     images := map media_url items;
     isThread :=
       match truthy_string (conversationId birdTweet) with
       | Some c => negb (String.eqb c (bird_id birdTweet))
       | None => false
       end;
     tweet_threadTweets := [] |}.

(** The [catch] of [getBookmarks] on an error that is not a
    [GrabberError]. *)
Definition classify (msg : string) : GrabberError :=
  if includes "rate limit" msg || includes "429" msg then
    {| message := "Twitter rate limit hit"; code := RATE_LIMIT; retryable := true |}
  else if includes "unknown command" msg then
    {| message := "bird bookmarks command not available. Update bird: brew upgrade steipete/tap/bird or npm i -g @steipete/bird@latest";
       code := UNKNOWN; retryable := false |}
  else if includes "auth" msg || includes "cookie" msg || includes "401" msg then
    {| message := "Twitter auth expired or invalid"; code := AUTH_EXPIRED;
       retryable := false |}
  else
    {| message := "Bird CLI error: " +:+ msg; code := NETWORK; retryable := true |}.

(** [Array.isArray(parsed) ? parsed : [parsed]] *)
Definition rawTweets (parsed : Js.Value) : list Js.Value :=
  match parsed with
  | Js.Arr items => items
  | _ => [parsed]
  end.

Definition getBookmarks (env : Env) (limit : nat) : Outcome GrabberError (list Tweet) :=
  match exec_bookmarks env limit with
  | Threw msg => Threw (classify msg)
  | Returned out =>
      if negb (String.eqb (stderr out) "") && includes "auth" (stderr out)
         && includes "expired" (stderr out)
      then Threw {| message := "Twitter auth expired"; code := AUTH_EXPIRED;
                    retryable := false |}
      else
        match JSON_parse env (stdout out) with
        | Threw msg => Threw (classify msg)
        | Returned parsed =>
            Returned (omap (fun raw => mapToTweet env <$> BirdTweetSchema_parse env raw)
                        (rawTweets parsed))
        end
  end.

(** [getThread]: one tweet that does not parse empties the answer. *)
Definition getThread (env : Env) (tweetIdOrUrl : string) : list Tweet :=
  match exec_thread env tweetIdOrUrl with
  | Threw _ => []
  | Returned out =>
      match JSON_parse env (stdout out) with
      | Threw _ => []
      | Returned parsed =>
          match mapM (BirdTweetSchema_parse env) (rawTweets parsed) with
          | Some birdTweets => map (mapToTweet env) birdTweets
          | None => []
          end
      end
  end.

(** [checkAuth], the [valid] flag. *)
Definition checkAuth (env : Env) : bool :=
  match exec_whoami env with
  | Returned _ => true
  | Threw _ => false
  end.

End Bird.

Section BirdFacts.
Import Bird.

Lemma classify_cases msg :
  (code (classify msg) = RATE_LIMIT /\ retryable (classify msg) = true /\
   (includes "rate limit" msg = true \/ includes "429" msg = true)) \/
  (code (classify msg) = UNKNOWN /\ retryable (classify msg) = false /\
   includes "rate limit" msg = false /\ includes "429" msg = false /\
   includes "unknown command" msg = true) \/
  (code (classify msg) = AUTH_EXPIRED /\ retryable (classify msg) = false /\
   includes "rate limit" msg = false /\ includes "429" msg = false /\
   includes "unknown command" msg = false /\
   (includes "auth" msg = true \/ includes "cookie" msg = true \/
    includes "401" msg = true)) \/
  (classify msg = {| message := "Bird CLI error: " +:+ msg; code := NETWORK;
                     retryable := true |} /\
   includes "rate limit" msg = false /\ includes "429" msg = false /\
   includes "unknown command" msg = false /\ includes "auth" msg = false /\
   includes "cookie" msg = false /\ includes "401" msg = false).
Proof.
  unfold classify.
  destruct (includes "rate limit" msg) eqn:H1; [left; cbn; auto|].
  destruct (includes "429" msg) eqn:H2; [left; cbn; auto|].
  cbn [orb]. right.
  destruct (includes "unknown command" msg) eqn:H3; [left; cbn; auto|]. right.
  destruct (includes "auth" msg) eqn:H4; [left; cbn; auto 10|].
  destruct (includes "cookie" msg) eqn:H5; [left; cbn; auto 10|].
  destruct (includes "401" msg) eqn:H6; [left; cbn; auto 10|].
  right. cbn. auto 10.
Qed.

(** X27: the errors of [getBookmarks].  Whatever fails, the run of the
    command or the reading of its output, the error thrown is one of
    RATE_LIMIT, UNKNOWN, AUTH_EXPIRED and NETWORK, and it is retryable
    exactly for RATE_LIMIT and NETWORK.  A failure whose message mentions
    a rate limit or 429 is RATE_LIMIT whatever else it mentions; one that
    mentions none of the key words is NETWORK and carries the message;
    and an output on [stderr] that mentions auth and expired is
    AUTH_EXPIRED even when the command succeeded. *)
Theorem getBookmarks_errors env limit :
  (forall e, getBookmarks env limit = Threw e ->
     (code e = RATE_LIMIT \/ code e = UNKNOWN \/ code e = AUTH_EXPIRED \/ code e = NETWORK) /\
     (retryable e = true <-> code e = RATE_LIMIT \/ code e = NETWORK)) /\
  (forall msg, exec_bookmarks env limit = Threw msg ->
     getBookmarks env limit = Threw (classify msg) /\
     (includes "rate limit" msg = true \/ includes "429" msg = true ->
        code (classify msg) = RATE_LIMIT) /\
     (includes "rate limit" msg = false -> includes "429" msg = false ->
      includes "unknown command" msg = false ->
      includes "auth" msg = true \/ includes "cookie" msg = true \/ includes "401" msg = true ->
        code (classify msg) = AUTH_EXPIRED) /\
     (includes "rate limit" msg = false -> includes "429" msg = false ->
      includes "unknown command" msg = false -> includes "auth" msg = false ->
      includes "cookie" msg = false -> includes "401" msg = false ->
        classify msg = {| message := "Bird CLI error: " +:+ msg; code := NETWORK;
                          retryable := true |})) /\
  (forall out, exec_bookmarks env limit = Returned out ->
     includes "auth" (stderr out) = true -> includes "expired" (stderr out) = true ->
     getBookmarks env limit =
       Threw {| message := "Twitter auth expired"; code := AUTH_EXPIRED;
                retryable := false |}).
Proof.
  assert (Hclass : forall msg,
    (code (classify msg) = RATE_LIMIT \/ code (classify msg) = UNKNOWN \/
     code (classify msg) = AUTH_EXPIRED \/ code (classify msg) = NETWORK) /\
    (retryable (classify msg) = true <->
     code (classify msg) = RATE_LIMIT \/ code (classify msg) = NETWORK)).
  { intros msg.
    destruct (classify_cases msg)
      as [(Hc & Hr & _) | [(Hc & Hr & _) | [(Hc & Hr & _) | (Hc & _)]]];
      try rewrite Hc; try rewrite Hr; cbn; (split; [auto|]);
      split; (congruence || auto || (intros [H|H]; discriminate H)). }
  split; [|split].
  - intros e. unfold getBookmarks.
    destruct (exec_bookmarks env limit) as [out|msg].
    + destruct (negb (String.eqb (stderr out) "") && includes "auth" (stderr out)
                && includes "expired" (stderr out)).
      * intros [= <-]. cbn. split; [auto|].
        split; [discriminate | intros [H|H]; discriminate H].
      * destruct (JSON_parse env (stdout out)) as [parsed|msg]; [discriminate|].
        intros [= <-]. apply Hclass.
    + intros [= <-]. apply Hclass.
  - intros msg Hexec. unfold getBookmarks. rewrite Hexec. split; [reflexivity|].
    destruct (classify_cases msg)
      as [(Hc & _ & Hin) | [(Hc & _ & H1 & H2 & H3) |
          [(Hc & _ & H1 & H2 & H3 & Hin) | (Hc & H1 & H2 & H3 & H4 & H5 & H6)]]].
    + split; [auto|]. split; intros Ha Hb; destruct Hin; congruence.
    + split; [intros [Hx|Hx]; congruence|]. split; intros; congruence.
    + split; [intros [Hx|Hx]; congruence|]. split; [auto|].
      intros _ _ _ Ha Hb Hd. destruct Hin as [Hx|[Hx|Hx]]; congruence.
    + split; [intros [Hx|Hx]; congruence|]. split; [|auto].
      intros _ _ _ [Hx|[Hx|Hx]]; congruence.
  - intros out Hexec Hauth Hexp. unfold getBookmarks. rewrite Hexec, Hauth, Hexp.
    destruct (String.eqb_spec (stderr out) "") as [Hempty|_]; [|reflexivity].
    rewrite Hempty in Hauth. discriminate Hauth.
Qed.

Lemma mapM_length {A B} (f : A -> option B) (l : list A) k :
  mapM f l = Some k -> length k = length l.
Proof. intros H. apply mapM_Some in H. symmetry. now apply Forall2_length in H. Qed.

(** X28: the tweets of [getBookmarks] and [getThread].  [getBookmarks]
    returns the tweets of the output that fit the schema, in order, and
    drops the others one by one; [getThread] returns all the tweets of the
    output or, if one of them does not fit, none.  A mapped tweet has one
    image for every media item, photo or not, no thread tweets, and is
    part of a thread exactly when it names a conversation other than
    itself. *)
Theorem bird_tweets env limit tweetId out parsed :
  JSON_parse env (stdout out) = Returned parsed ->
  (exec_bookmarks env limit = Returned out ->
   (includes "auth" (stderr out) = false \/ includes "expired" (stderr out) = false) ->
     getBookmarks env limit =
       Returned (map (mapToTweet env) (omap (BirdTweetSchema_parse env) (rawTweets parsed)))) /\
  (exec_thread env tweetId = Returned out ->
     getThread env tweetId =
       (if bool_decide (Forall (fun raw => is_Some (BirdTweetSchema_parse env raw))
                          (rawTweets parsed))
        then map (mapToTweet env) (omap (BirdTweetSchema_parse env) (rawTweets parsed))
        else [])) /\
  (forall birdTweet,
     length (images (mapToTweet env birdTweet)) = length (default [] (media birdTweet)) /\
     tweet_threadTweets (mapToTweet env birdTweet) = [] /\
     id (mapToTweet env birdTweet) = bird_id birdTweet /\
     (isThread (mapToTweet env birdTweet) = true <->
        exists c, conversationId birdTweet = Some c /\ c <> "" /\ c <> bird_id birdTweet)).
Proof.
  intros Hparse. split; [|split].
  - intros Hexec Hstderr. unfold getBookmarks. rewrite Hexec, Hparse.
    replace (negb (String.eqb (stderr out) "") && includes "auth" (stderr out)
             && includes "expired" (stderr out)) with false
      by (destruct Hstderr as [-> | ->];
          [now rewrite andb_false_r | now rewrite andb_false_r]).
    f_equal. generalize (rawTweets parsed). intros l.
    induction l as [|raw l IH]; [reflexivity|]. cbn.
    destruct (BirdTweetSchema_parse env raw); cbn; now rewrite IH.
  - intros Hexec. unfold getThread. rewrite Hexec, Hparse.
    generalize (rawTweets parsed). intros l.
    destruct (mapM (BirdTweetSchema_parse env) l) as [k|] eqn:Hm.
    + apply mapM_Some in Hm.
      rewrite bool_decide_eq_true_2.
      * f_equal. induction Hm as [|raw b l k Hb _ IH]; [reflexivity|].
        cbn. rewrite Hb. cbn. now rewrite IH.
      * induction Hm as [|raw b l k Hb _ IH]; constructor; [now exists b | exact IH].
    + rewrite bool_decide_eq_false_2; [reflexivity|].
      intros Hall. apply mapM_is_Some in Hall. rewrite Hm in Hall.
      destruct Hall as [? Habs]. discriminate Habs.
  - intros birdTweet. cbn [mapToTweet images tweet_threadTweets id isThread].
    split; [apply length_map|]. split; [reflexivity|]. split; [reflexivity|].
    destruct (truthy_string (conversationId birdTweet)) as [c|] eqn:Hc.
    + apply truthy_string_Some in Hc as [Hc Hne]. rewrite negb_true_iff. split.
      * intros Hneq. exists c. split; [exact Hc|]. split; [exact Hne|].
        now apply String.eqb_neq.
      * intros (c' & Hc' & _ & Hneq). rewrite Hc in Hc'. injection Hc' as <-.
        now apply String.eqb_neq.
    + split; [discriminate|]. intros (c & Hc' & Hne & _).
      rewrite Hc' in Hc. cbn in Hc.
      destruct (String.eqb_spec c ""); [contradiction | discriminate].
Qed.

End BirdFacts.

(* ================================================================== *)
(** * Examples for the orchestrator and the services *)
(* ================================================================== *)

Module ServiceExamples.
Import Db Examples.

(** A triage that says skip, and one that asks for an article, a
    transcript, an image and the thread. *)
Definition triage_skip : Agent.TriageResult :=
  {| Agent.needsArticleScrape := []; Agent.needsYoutubeTranscript := [];
     Agent.needsImageAnalysis := []; Agent.needsThreadExpansion := false;
     Agent.contentType := Agent.ct_tweet; Agent.estimatedValue := Agent.value_skip;
     Agent.skipReason := Some "meme" |}.

Definition triage_asking : Agent.TriageResult :=
  {| Agent.needsArticleScrape :=
       [("https://example.com/a", "the linked post", Agent.high);
        ("https://youtu.be/x", "a video", Agent.low)];
     Agent.needsYoutubeTranscript := [("https://youtu.be/x", "the talk")];
     Agent.needsImageAnalysis := [("https://img.example.com/1.png", "a diagram")];
     Agent.needsThreadExpansion := true;
     Agent.contentType := Agent.ct_thread; Agent.estimatedValue := Agent.value_high;
     Agent.skipReason := None |}.

(** Services that answer: Firecrawl returns markdown for every URL, the
    transcript tool finds nothing, the vision model fails, and the thread
    holds the bookmark and one more tweet. *)
Definition scraper_up : Scraper.Env :=
  {| Scraper.firecrawl :=
       Some (fun _ => Returned (Scraper.mkDoc (Some "# Post") (Some "Post") None None None));
     Scraper.hostname := fun _ => Some "example.com";
     Scraper.extractTitleFromUrl := fun url => url;
     Scraper.isScrapableUrl := fun url => negb (String.eqb url "https://youtu.be/x") |}.

Definition services_up : Enrich.Services :=
  {| Enrich.scraper := scraper_up;
     Enrich.getTranscript := fun _ => None;
     Enrich.analyzeImage := fun _ => "";
     Enrich.getThread := fun tid => [tweet_of tid; tweet_of "T1b"] |}.

(** A ledger with one handled bookmark, and a world over it. *)
Definition handled_1 : Ledger :=
  {[ "1" := mkRow t0 tool (Some "page-1") "payload-1" (Some completed) ]}.

Definition settled_world : Grabber.World :=
  {| Grabber.db := handled_1; Grabber.outbox := []; Grabber.isFirstRun := false;
     Grabber.isProcessing := false; Grabber.authValid := true |}.

Definition busy_world : Grabber.World :=
  {| Grabber.db := handled_1; Grabber.outbox := []; Grabber.isFirstRun := false;
     Grabber.isProcessing := true; Grabber.authValid := true |}.

(** Passes whose [getBookmarks] throws: a rate limit, and expired
    credentials that the recheck does not find valid. *)
Definition pass_rate_limited : Grabber.PassEnv :=
  {| Grabber.recheck_valid := true;
     Grabber.getBookmarks_reply := fun _ =>
       Threw (ThrownGrabber {| message := "Twitter rate limit hit"; code := RATE_LIMIT;
                               retryable := true |});
     Grabber.pass_whoami_valid := true |}.

Definition pass_auth_lost : Grabber.PassEnv :=
  {| Grabber.recheck_valid := false;
     Grabber.getBookmarks_reply := fun _ =>
       Threw (ThrownGrabber {| message := "Twitter auth expired"; code := AUTH_EXPIRED;
                               retryable := false |});
     Grabber.pass_whoami_valid := false |}.

Definition plain_marks : Digest.Marks :=
  {| Digest.books := "*"; Digest.target := "*"; Digest.chart := "*"; Digest.bulb := "*" |}.

(** A digest of the provider with no section, and a world whose ledger
    has records of the week. *)
Definition digest_plain : Digest.DigestObject :=
  {| Digest.digest := "A week of tools."; Digest.patterns := [];
     Digest.recommendations := []; Digest.topPicks := [] |}.

Definition week_world : Grabber.World :=
  {| Grabber.db := demo_db; Grabber.outbox := []; Grabber.isFirstRun := false;
     Grabber.isProcessing := false; Grabber.authValid := true |}.

(** A Notion that has the database and creates pages, and one in which
    nothing works. *)
Definition plain_labels : Notion.Labels :=
  {| Notion.score_line := fun _ => "9/10"; Notion.category_tag := fun _ => "tool";
     Notion.bulb_mark := "!"; Notion.link_mark := ">";
     Notion.link_type_mark := fun _ => "> ";
     Notion.quotes_label := "Quotes"; Notion.transcript_label := "Transcript";
     Notion.article_label := "Article" |}.

Definition notion_up : Notion.Api :=
  {| Notion.blocks_children_list :=
       Returned [Notion.mkChild "db-1" (Some "child_database") (Some "Grabber Bookmarks")];
     Notion.databases_create := Returned "db-2";
     Notion.databases_query := fun _ _ => Threw "timeout";
     Notion.pages_create := fun _ _ _ => Returned "page-9";
     Notion.Date_toISOString := fun s => Returned s;
     Notion.now_iso := t2 |}.

Definition notion_down : Notion.Api :=
  {| Notion.blocks_children_list := Threw "unauthorized";
     Notion.databases_create := Threw "unauthorized";
     Notion.databases_query := fun _ _ => Threw "unauthorized";
     Notion.pages_create := fun _ _ _ => Threw "unauthorized";
     Notion.Date_toISOString := fun s => Returned s;
     Notion.now_iso := t2 |}.

Definition analysis_plain : Agent.AnalysisResult :=
  {| Agent.object := object_plain; Agent.youtubeTranscript := None;
     Agent.articleContent := Some "body"; Agent.imageAnalysis := [] |}.

(** A command line that fails on a rate limit, and one that prints two
    tweets of which the second does not fit the schema. *)
Definition bird_limited : Bird.Env :=
  {| Bird.exec_bookmarks := fun _ => Threw "HTTP 429 while reading bookmarks; check auth";
     Bird.exec_thread := fun _ => Threw "HTTP 429";
     Bird.exec_whoami := Threw "HTTP 429";
     Bird.JSON_parse := fun _ => Threw "Unexpected end of JSON input";
     Bird.BirdTweetSchema_parse := fun _ => None;
     Bird.match_urls := fun _ => [] |}.

Definition bird_post : Bird.BirdTweet :=
  {| Bird.bird_id := "T1"; Bird.bird_text := "a bookmarked post";
     Bird.bird_createdAt := t0; Bird.conversationId := Some "T0";
     Bird.author_username := "dev"; Bird.author_name := "Dev";
     Bird.media := Some [Bird.mkMedia Bird.video_ "https://img.example.com/v.jpg"
                           (Some "https://video.example.com/v.mp4")] |}.

Definition bird_out : Bird.Output := {| Bird.stdout := "[tweets]"; Bird.stderr := "" |}.

Definition bird_up : Bird.Env :=
  {| Bird.exec_bookmarks := fun _ => Returned bird_out;
     Bird.exec_thread := fun _ => Returned bird_out;
     Bird.exec_whoami := Returned {| Bird.stdout := "@dev (Dev)"; Bird.stderr := "" |};
     Bird.JSON_parse := fun _ => Returned (Js.Arr [Js.Str "T1"; Js.Null]);
     Bird.BirdTweetSchema_parse := fun raw =>
       match raw with
       | Js.Str _ => Some bird_post
       | _ => None
       end;
     Bird.match_urls := fun _ => [] |}.

End ServiceExamples.

Section ServiceWitnesses.
Import Db Examples ServiceExamples.

Lemma analyze_changes_flags_only_witness :
  exists res,
    Agent.analyze (tweet_of "T1") triage_plain context_full (Returned object_plain) =
      Returned res /\
    Agent.hasArticle (Agent.object res) = true /\
    Agent.articleContent res = Some "body".
Proof.
  destruct (proj1 (analyze_changes_flags_only (tweet_of "T1") triage_plain context_full)
              object_plain) as (res & Hres & Ha & _ & _ & _ & Hc & _).
  exists res. split; [exact Hres|]. split; [|exact Hc].
  apply Ha. right. discriminate.
Defined.

Lemma processTweet_stages_witness :
  Agent.processTweet (tweet_of "T1") (Returned triage_skip)
    (fun _ => Threw "not asked") (Threw "not asked") = Returned (triage_skip, None).
Proof.
  apply (proj1 (processTweet_stages (tweet_of "T1") (Returned triage_skip)
                  (fun _ => Threw "not asked") (Threw "not asked")) triage_skip).
  split; reflexivity.
Defined.

Lemma analyzeTweet_options_witness :
  exists res,
    Agent.analyzeTweet (tweet_of "T1") (Some "body") (Some "") (Some ["a chart"])
      (Returned object_plain) = Returned res /\
    Agent.articleContent res = Some "body" /\
    Agent.youtubeTranscript res = None /\
    Agent.imageAnalysis res = ["a chart"].
Proof.
  destruct (analyzeTweet_options (tweet_of "T1") (Some "body") (Some "") (Some ["a chart"])
              object_plain) as (res & Hres & Ha & Hy & Hi & _).
  exists res. now repeat split.
Defined.

Lemma processTweet_records_witness :
  exists row,
    Grabber.processTweet stringify_kind (tweet_of "T1") env_ok ∅ =
      (Returned tt, <[ "T1" := row ]> ∅) /\
    notion_page_id row = Some "page-9" /\ raw_data row = "analysed".
Proof.
  destruct (proj2 (processTweet_records stringify_kind (tweet_of "T1") env_ok ∅)
              triage_plain _ eq_refl) as (row & Hp & _ & _ & _ & Hpage & Hraw).
  exists row. split; [exact Hp|]. split; [|exact Hraw].
  apply Hpage. split; reflexivity.
Defined.

Lemma settled_records_stay_witness :
  let result :=
    Grabber.processItems stringify_kind plain_texts telegram_up
      [(tweet_of "1", env_ok)] settled_world in
  result.1.1 = [Grabber.Skipped] /\ Grabber.db result.2 = handled_1.
Proof.
  destruct (proj2 (settled_records_stay stringify_kind plain_texts telegram_up
                     [(tweet_of "1", env_ok)] settled_world)) as (Hturns & Hdb & _).
  - intros item Hin. apply list_elem_of_singleton in Hin as ->.
    intros [Hnone | (row & Hrow & Hst)].
    + vm_compute in Hnone. discriminate Hnone.
    + vm_compute in Hrow. injection Hrow as <-. discriminate Hst.
  - split; [exact Hturns | exact Hdb].
Defined.

Lemma no_lock_left_behind_witness :
  settled "3"
    (Grabber.db (Grabber.processItems stringify_kind plain_texts telegram_down
                   batch5 fresh_world).2).
Proof.
  apply (proj1 (proj2 (no_lock_left_behind stringify_kind plain_texts telegram_down
                         batch5 fresh_world)) (tweet_of "3", env_triage_raises)).
  - unfold batch5. do 2 apply list_elem_of_further. apply list_elem_of_here.
  - left. reflexivity.
Defined.

Lemma processBookmarks_guards_witness :
  Grabber.processBookmarks stringify_kind plain_texts telegram_up 50 pass_rate_limited
    busy_world = (Returned tt, busy_world).
Proof.
  apply (proj1 (processBookmarks_guards stringify_kind plain_texts telegram_up 50
                  pass_rate_limited busy_world)).
  reflexivity.
Defined.


Lemma processBookmarks_throws_witness :
  (Grabber.processBookmarks stringify_kind plain_texts telegram_down 50 pass_auth_lost
     fresh_world).1 =
    Threw (ThrownGrabber {| message := "Telegram send failed: blocked"; code := TELEGRAM;
                            retryable := true |}) /\
  Grabber.pass_whoami_valid pass_auth_lost = false.
Proof.
  assert (H : (Grabber.processBookmarks stringify_kind plain_texts telegram_down 50
                 pass_auth_lost fresh_world).1 =
              Threw (ThrownGrabber {| message := "Telegram send failed: blocked";
                                      code := TELEGRAM; retryable := true |}))
    by reflexivity.
  split; [exact H|].
  exact (proj1 (proj2 (proj2 (processBookmarks_throws stringify_kind plain_texts
                                telegram_down 50 pass_auth_lost fresh_world _ H)))).
Defined.

Lemma fetchEnrichment_provenance_witness :
  let context := Enrich.fetchEnrichment services_up (tweet_of "T1") triage_asking in
  length (Agent.articles context) <= 2 /\
  forall t, t ∈ Agent.threadTweets context -> t.1 <> "T1".
Proof.
  pose proof (fetchEnrichment_provenance services_up (tweet_of "T1") triage_asking)
    as (_ & _ & _ & Hthread & Hlen & _).
  split; [exact Hlen|]. intros t Ht. exact (proj1 (Hthread t Ht)).
Defined.

Lemma pipeline_flags_witness :
  exists analysis,
    Agent.processTweet (tweet_of "T1") (Returned triage_asking)
      (fun tr => Returned (Enrich.fetchEnrichment services_up (tweet_of "T1") tr))
      (Returned object_plain) = Returned (triage_asking, Some analysis) /\
    Agent.hasArticle (Agent.object analysis) = true /\
    (Agent.hasVideo (Agent.object analysis) = true -> False).
Proof.
  eexists. split; [reflexivity|].
  destruct (pipeline_flags services_up (tweet_of "T1") (Returned triage_asking)
              (Returned object_plain) triage_asking _ eq_refl)
    as (obj & Hobj & Ha & Hv & _).
  injection Hobj as <-. split.
  - apply Ha. right. exists ("https://example.com/a", "the linked post", Agent.high).
    split; [apply list_elem_of_here|]. split; [reflexivity|]. eexists. reflexivity.
  - intros Hvideo. apply Hv in Hvideo as [Habs | (request & s & _ & Habs & _)];
      discriminate Habs.
Defined.

Lemma sendWeeklyDigest_posts_witness :
  Digest.sendWeeklyDigest demo_runtime now_ms demo_rowid plain_marks (Threw "not asked")
    telegram_up fresh_world = (Returned tt, fresh_world) /\
  0 < length (Grabber.outbox
                (Digest.sendWeeklyDigest demo_runtime now_ms demo_rowid plain_marks
                   (Returned digest_plain) telegram_up week_world).2).
Proof.
  split.
  - apply (proj1 (proj2 (sendWeeklyDigest_posts demo_runtime now_ms demo_rowid plain_marks
                           (Threw "not asked") telegram_up fresh_world))).
    intros tid row Hrow. cbn in Hrow. rewrite lookup_empty in Hrow. discriminate Hrow.
  - destruct (proj2 (proj2 (proj2 (sendWeeklyDigest_posts demo_runtime now_ms demo_rowid
                                     plain_marks (Returned digest_plain) telegram_up
                                     week_world))))
      with (object := digest_plain) as (text & _ & _ & _ & Hlen).
    + intros Hempty.
      assert (Hrow : demo_db !! "1" = Some (mkRow t1 tool None "payload-ai" (Some completed)))
        by (vm_compute; reflexivity).
      specialize (Hempty "1" _ Hrow). vm_compute in Hempty. discriminate Hempty.
    + reflexivity.
    + exact Hlen.
Defined.

Lemma truncate_bounds_witness :
  Notion.truncate "abcdefghij" 8 = "abcde..." /\
  String.length (Notion.truncate "abcdef" 2) = 8.
Proof.
  split.
  - destruct (proj1 (proj2 (truncate_bounds "abcdefghij" 8)) ltac:(lia))
      as (_ & Hcut & _).
    rewrite (proj1 (Hcut ltac:(cbn; lia))). reflexivity.
  - apply (proj2 (proj2 (truncate_bounds "abcdef" 2))); cbn; lia.
Defined.

Lemma page_within_limits_witness :
  4 <= length (Notion.buildPageContent plain_labels (tweet_of "T1") analysis_plain) <= 23 /\
  exists properties,
    Notion.pageProperties notion_up (tweet_of "T1") analysis_plain = Returned properties /\
    Notion.Topic properties = "A tool".
Proof.
  pose proof (page_within_limits notion_up plain_labels (tweet_of "T1") analysis_plain)
    as (Hprops & Hblocks & _).
  split; [exact Hblocks|]. eexists. split; [reflexivity|].
  destruct (Hprops _ eq_refl) as (_ & _ & _ & _ & _ & _ & _ & Htopic).
  rewrite Htopic by discriminate. reflexivity.
Defined.

Lemma notion_database_and_errors_witness :
  Notion.ensureDatabase notion_down (Some "db-1") = (Returned "db-1", Some "db-1") /\
  Notion.pageExists notion_up "T1" None = (Returned false, Some "db-1").
Proof.
  pose proof (notion_database_and_errors notion_up notion_down plain_labels (tweet_of "T1")
                analysis_plain "T1" None) as (Hcache & Hquery & _).
  split.
  - exact (proj2 (Hcache "db-1" (Some "db-1") eq_refl ltac:(discriminate))).
  - exact (Hquery "db-1" (Some "db-1") "timeout" eq_refl eq_refl).
Defined.

Lemma getBookmarks_errors_witness :
  exists e, Bird.getBookmarks bird_limited 20 = Threw e /\
            code e = RATE_LIMIT /\ retryable e = true.
Proof.
  destruct (proj1 (proj2 (getBookmarks_errors bird_limited 20)) _ eq_refl)
    as (Hthrows & Hrate & _).
  eexists. split; [exact Hthrows|]. split.
  - apply Hrate. right. reflexivity.
  - reflexivity.
Defined.

Lemma bird_tweets_witness :
  Bird.getBookmarks bird_up 20 = Returned [Bird.mapToTweet bird_up bird_post] /\
  Bird.getThread bird_up "T1" = [] /\
  isThread (Bird.mapToTweet bird_up bird_post) = true.
Proof.
  destruct (bird_tweets bird_up 20 "T1" bird_out (Js.Arr [Js.Str "T1"; Js.Null]) eq_refl)
    as (Hbook & Hthread & Hmap).
  split; [|split].
  - rewrite (Hbook eq_refl (or_introl eq_refl)). reflexivity.
  - rewrite (Hthread eq_refl). reflexivity.
  - apply (proj2 (proj2 (proj2 (Hmap bird_post)))). exists "T0".
    split; [reflexivity|]. split; discriminate.
Defined.

End ServiceWitnesses.

(* ================================================================== *)
(** * Start-up *)
(* ================================================================== *)

Module Startup.
Import Grabber.

Definition set_isFirstRun (w : World) (b : bool) : World :=
  {| db := db w; outbox := outbox w; isFirstRun := b;
     isProcessing := isProcessing w; authValid := authValid w |}.

(** [start], up to the scheduling of the two jobs: [mkdir] is the
    outcome of [ensureDataDir], [startup_valid] what [bird.checkAuth]
    answers at start-up, [env] what the first pass meets. *)
Definition start (JSON_stringify : Payload -> string) (texts : Telegram.Texts)
    (replies : nat -> Telegram.Reply) (firstRunLimit : nat)
    (mkdir : Outcome string unit) (startup_valid : bool) (env : PassEnv) (w : World)
  : Outcome Thrown unit * World :=
  match mkdir with
  | Threw msg => (Threw (ThrownError msg), w)
  | Returned _ =>
      let w1 := set_authValid w startup_valid in
      let '(alerted, w2) :=
        if authValid w1 then (Returned tt, w1)
        else
          let '(r, o) := Telegram.notifyAuthExpired texts replies (outbox w1) in
          (r, set_outbox w1 o) in
      match alerted with
      | Threw e => (Threw e, w2)
      | Returned _ =>
          match processBookmarks JSON_stringify texts replies firstRunLimit env w2 with
          | (Threw e, w3) => (Threw e, w3)
          | (Returned _, w3) => (Returned tt, set_isFirstRun w3 false)
          end
      end
  end.

End Startup.

(** Two passes meet the same source client as far as a request for
    [limit] bookmarks goes. *)
Definition same_source (limit : nat) (env env' : Grabber.PassEnv) : Prop :=
  Grabber.recheck_valid env = Grabber.recheck_valid env' /\
  Grabber.pass_whoami_valid env = Grabber.pass_whoami_valid env' /\
  Grabber.getBookmarks_reply env limit = Grabber.getBookmarks_reply env' limit.

Section StartupFacts.
Import Grabber Startup.

Variable JSON_stringify : Payload -> string.
Variable texts : Telegram.Texts.
Variable replies : nat -> Telegram.Reply.

Abbreviation processBookmarks := (Grabber.processBookmarks JSON_stringify texts replies).
Abbreviation start := (Startup.start JSON_stringify texts replies).

Lemma processBookmarks_limit firstRunLimit env env' w :
  same_source (pass_limit firstRunLimit w) env env' ->
  processBookmarks firstRunLimit env w = processBookmarks firstRunLimit env' w.
Proof.
  intros (Hre & Hwho & Hget). unfold Grabber.processBookmarks, pass_limit in *.
  destruct (isProcessing w); [reflexivity|].
  rewrite <- Hre, <- Hwho.
  destruct (authValid w) eqn:Hauth.
  - rewrite Hauth. cbn [negb isFirstRun set_isProcessing]. now rewrite Hget.
  - cbn [authValid set_authValid]. destruct (recheck_valid env); cbn [negb]; [|reflexivity].
    cbn [isFirstRun set_isProcessing set_authValid]. now rewrite Hget.
Qed.

Lemma processBookmarks_isFirstRun firstRunLimit env w :
  isFirstRun (processBookmarks firstRunLimit env w).2 = isFirstRun w.
Proof.
  unfold Grabber.processBookmarks.
  destruct (isProcessing w); [reflexivity|].
  assert (Hcase : forall w1, isFirstRun w1 = isFirstRun w ->
    isFirstRun
      (let '(r, w3) :=
         match getBookmarks_reply env (if isFirstRun w1 then firstRunLimit else 20) with
         | Threw error => handleError texts replies error (pass_whoami_valid env) w1
         | Returned tweets =>
             match processItems JSON_stringify texts replies tweets w1 with
             | (_, None, w2) => (Returned tt, w2)
             | (_, Some error, w2) => handleError texts replies error (pass_whoami_valid env) w2
             end
         end in (r, set_isProcessing w3 false)).2 = isFirstRun w).
  { intros w1 Hw1.
    destruct (getBookmarks_reply env _) as [tweets|error].
    - pose proof (processItems_keeps_flags JSON_stringify texts replies tweets w1) as [Hf _].
      destruct (processItems JSON_stringify texts replies tweets w1) as [[turns [error|]] w2];
        cbn [snd] in Hf.
      + pose proof (handleError_keeps texts replies error (pass_whoami_valid env) w2)
          as (_ & Hf' & _).
        destruct (handleError texts replies error (pass_whoami_valid env) w2) as [r w3].
        cbn in *. congruence.
      + cbn in *. congruence.
    - pose proof (handleError_keeps texts replies error (pass_whoami_valid env) w1)
        as (_ & Hf' & _).
      destruct (handleError texts replies error (pass_whoami_valid env) w1) as [r w3].
      cbn in *. congruence. }
  destruct (authValid w) eqn:Hauth.
  - rewrite Hauth. cbn [negb]. now apply Hcase.
  - cbn [authValid set_authValid]. destruct (recheck_valid env); cbn [negb]; [|reflexivity].
    now apply Hcase.
Qed.

(** X29: the first run.  The pass [start] makes on a service that has
    not run before asks the source for [firstRunLimit] bookmarks: what the
    source would answer to any other request does not matter.  When
    [start] returns, [isFirstRun] is [false], so that every later pass
    asks for twenty.  When the credentials do not check out at start-up
    and Telegram does not accept the alert, [start] throws before any
    pass: the ledger is untouched and [isFirstRun] stays as it was. *)
Theorem start_first_run firstRunLimit mkdir startup_valid env w :
  let result := start firstRunLimit mkdir startup_valid env w in
  (isFirstRun w = true -> forall env', same_source firstRunLimit env env' ->
     start firstRunLimit mkdir startup_valid env' w = result) /\
  (result.1 = Returned tt ->
     isFirstRun result.2 = false /\
     forall later later', same_source 20 later later' ->
       processBookmarks firstRunLimit later result.2 =
       processBookmarks firstRunLimit later' result.2) /\
  (mkdir = Returned tt -> startup_valid = false ->
   accepted (replies (length (outbox w))) = false ->
     result.1 = Threw (refusal (replies (length (outbox w)))) /\
     db result.2 = db w /\ isFirstRun result.2 = isFirstRun w).
Proof.
  cbv zeta. split; [|split].
  - intros Hfirst env' Hsame. unfold Startup.start.
    destruct mkdir as [[]|msg]; [|reflexivity].
    cbn [authValid set_authValid].
    destruct startup_valid.
    + rewrite (processBookmarks_limit firstRunLimit env env'); [reflexivity|].
      unfold pass_limit. cbn [isFirstRun set_authValid]. now rewrite Hfirst.
    + unfold Telegram.notifyAuthExpired. rewrite sendMessage_reply.
      destruct (accepted _); [|reflexivity].
      rewrite (processBookmarks_limit firstRunLimit env env'); [reflexivity|].
      unfold pass_limit. cbn [isFirstRun set_authValid set_outbox]. now rewrite Hfirst.
  - unfold Startup.start.
    destruct mkdir as [[]|msg]; [|discriminate].
    destruct (if authValid (set_authValid w startup_valid) then _ else _) as [[[]|e] w2];
      [|discriminate].
    destruct (processBookmarks firstRunLimit env w2) as [[[]|e] w3]; [|discriminate].
    intros _. cbn [snd isFirstRun set_isFirstRun]. split; [reflexivity|].
    intros later later' Hsame. apply processBookmarks_limit. exact Hsame.
  - intros -> -> Hno. unfold Startup.start. cbn [authValid set_authValid].
    unfold Telegram.notifyAuthExpired. rewrite sendMessage_reply.
    cbn [outbox set_authValid]. rewrite Hno. now repeat split.
Qed.

End StartupFacts.

Section StartupWitnesses.
Import Db Examples ServiceExamples.

Lemma start_first_run_witness :
  let result :=
    Startup.start stringify_kind plain_texts telegram_down 200 (Returned tt) false
      pass_auth_lost fresh_world in
  result.1 = Threw (ThrownGrabber {| message := "Telegram send failed: blocked";
                                     code := TELEGRAM; retryable := true |}) /\
  Grabber.db result.2 = ∅ /\ Grabber.isFirstRun result.2 = true.
Proof.
  exact (proj2 (proj2 (start_first_run stringify_kind plain_texts telegram_down 200
                         (Returned tt) false pass_auth_lost fresh_world))
           eq_refl eq_refl eq_refl).
Defined.

End StartupWitnesses.
